(** * account-sync: the reconciliation script [main.py], embedded in Rocq

    The script synchronises the Dartmouth roster of people (read through
    [ipass.utils]) with the accounts of a Planon installation (read and
    written through the [planon] client library).  It is a top-level Python
    script: it fetches two rosters and a snapshot of the accounts, and then
    runs four loops (inserts, updates, deactivates, pwd_expires), a summary
    log line and an exit section.

    The embedding follows the script section by section.
    - A Python [str] is the string of its UTF-8 bytes: equality, concatenation
      and the operator [in] are those of the byte strings.  The methods
      [str.lower] and [repr], whose results depend on the Unicode tables of
      the interpreter, are operations of the class [Python]; what the
      development uses of them is stated there as laws.
    - Python dictionaries are [gmap string _], Python sets are [gset string].
    - The two client libraries are not part of the repository: they are a
      record [Remote] of operations over an abstract world, each of which
      returns a value or raises.
    - The script is written in a state-and-exception monad [M]; the state
      holds the remote world, the trace of the remote calls made so far, the
      log records issued so far, and the mutable variables of the script (the
      dictionary [planon_accounts], whose account objects are updated in
      place, and the ten outcome lists).
    - Iterating over a Python set visits every member once in an unspecified
      order: the order is a parameter ([set_order]).
    - A log record is a call of the logger, whatever LOG_LEVEL lets through.
    - An exception that no [try] statement catches ends the script: the
      computation returns [Raise].  [sys.exit(code)] is the value [Ok code] of
      the exit section.
    - Of the SETUP part only the exclusion dictionary is embedded; the run
      date and the entries of the exclusion file are inputs.
    - Of the LOGGING part, the level of the root logger and the records it
      lets through are embedded apart, in [Logging]; the configuration of the
      Planon client (site and token from the environment) is not embedded. *)

From stdpp Require Import base tactics option list gmap strings pretty.
From Stdlib Require Import ZArith Ascii String Lia.

Local Open Scope Z_scope.
Local Open Scope string_scope.
Local Open Scope list_scope.
Local Open Scope stdpp_scope.

(** ** Strings: the operator [in], and ASCII text *)

Module Str.

(** [contains sub s] is Python's [sub in s] on strings. *)
Fixpoint contains (sub s : string) : bool :=
  String.prefix sub s ||
  match s with
  | EmptyString => false
  | String _ s' => contains sub s'
  end.

(** [zfill n s] is Python's [s.zfill(n)] for a string of digits. *)
Definition zfill (n : nat) (s : string) : string :=
  string_of_list_ascii (repeat "0"%char (n - String.length s)) +:+ s.

Definition nl : string := String (ascii_of_nat 10) EmptyString.

(** ASCII text: every byte is below 128. *)
Definition is_ascii_char (c : ascii) : bool := (nat_of_ascii c <? 128)%nat.

Fixpoint is_ascii (s : string) : bool :=
  match s with
  | EmptyString => true
  | String c s' => is_ascii_char c && is_ascii s'
  end.

(** The letters A to Z, and lower-casing on ASCII text. *)
Definition is_upper (c : ascii) : bool :=
  let n := nat_of_ascii c in (65 <=? n)%nat && (n <=? 90)%nat.

Definition lower_char (c : ascii) : ascii :=
  if is_upper c then ascii_of_nat (nat_of_ascii c + 32) else c.

Fixpoint lower_ascii (s : string) : string :=
  match s with
  | EmptyString => EmptyString
  | String c s' => String (lower_char c) (lower_ascii s')
  end.

(** [has_ascii_upper s]: one of the letters A to Z occurs in [s]. *)
Fixpoint has_ascii_upper (s : string) : bool :=
  match s with
  | EmptyString => false
  | String c s' => is_upper c || has_ascii_upper s'
  end.

(** Plain text: printable ASCII characters other than the single quote and
    the backslash. *)
Definition plain_char (c : ascii) : bool :=
  let n := nat_of_ascii c in
  (32 <=? n)%nat && (n <=? 126)%nat && negb (n =? 39)%nat && negb (n =? 92)%nat.

Fixpoint plain (s : string) : bool :=
  match s with
  | EmptyString => true
  | String c s' => plain_char c && plain s'
  end.

(** [repr] of a [str], as CPython writes it for ASCII text: double quotes
    when the text has a single quote and no double quote, single quotes
    otherwise; the quote in use and the backslash are escaped, as are tab,
    newline, carriage return and the other control characters.  Bytes from
    128 on are copied. *)
Definition single_quote : ascii := ascii_of_nat 39.
Definition double_quote : ascii := ascii_of_nat 34.
Definition backslash : ascii := ascii_of_nat 92.

Fixpoint occurs (c : ascii) (s : string) : bool :=
  match s with
  | EmptyString => false
  | String c' s' => bool_decide (c' = c) || occurs c s'
  end.

Definition quote_of (s : string) : ascii :=
  if occurs single_quote s && negb (occurs double_quote s) then double_quote
  else single_quote.

Definition hex_digit (n : nat) : ascii :=
  default "0"%char (list_ascii_of_string "0123456789abcdef" !! n).

Definition escape (quote c : ascii) : string :=
  let n := nat_of_ascii c in
  if bool_decide (c = quote) || bool_decide (c = backslash)
  then String backslash (String c EmptyString)
  else if (n =? 9)%nat then String backslash "t"
  else if (n =? 10)%nat then String backslash "n"
  else if (n =? 13)%nat then String backslash "r"
  else if (n <? 32)%nat || (n =? 127)%nat
  then String backslash
         (String "x"%char (String (hex_digit (n / 16)) (String (hex_digit (n mod 16)) "")))
  else String c EmptyString.

Fixpoint escape_all (quote : ascii) (s : string) : string :=
  match s with
  | EmptyString => EmptyString
  | String c s' => escape quote c +:+ escape_all quote s'
  end.

Definition repr_ascii (s : string) : string :=
  let quote := quote_of s in
  String quote (escape_all quote s +:+ String quote EmptyString).

Lemma is_upper_lower_char (c : ascii) : is_upper (lower_char c) = false.
Proof. destruct c as [[] [] [] [] [] [] [] []]; reflexivity. Qed.

Lemma has_ascii_upper_lower_ascii (s : string) : has_ascii_upper (lower_ascii s) = false.
Proof.
  induction s as [|c s IH]; [done|]. simpl. by rewrite is_upper_lower_char, IH.
Qed.

Lemma escape_plain (c : ascii) :
  plain_char c = true → escape single_quote c = String c EmptyString.
Proof. destruct c as [[] [] [] [] [] [] [] []]; first [discriminate | reflexivity]. Qed.

Lemma occurs_plain (s : string) : plain s = true → occurs single_quote s = false.
Proof.
  induction s as [|c s IH]; [done|]. simpl. intros H.
  apply andb_true_iff in H as [Hc Hs]. rewrite (IH Hs), orb_false_r.
  destruct c as [[] [] [] [] [] [] [] []]; first [discriminate | reflexivity].
Qed.

Lemma escape_all_plain (s : string) : plain s = true → escape_all single_quote s = s.
Proof.
  induction s as [|c s IH]; [done|]. simpl. intros H.
  apply andb_true_iff in H as [Hc Hs]. by rewrite (escape_plain c Hc), (IH Hs).
Qed.

Lemma repr_ascii_plain (s : string) :
  plain s = true → repr_ascii s = "'" +:+ s +:+ "'".
Proof.
  intros H. unfold repr_ascii, quote_of.
  rewrite (occurs_plain s H). simpl. by rewrite (escape_all_plain s H).
Qed.

End Str.

(** ** The string methods of the interpreter

    [str.lower] and [repr] work by the Unicode tables of the interpreter.
    They are operations of the class [Python]; the laws are what CPython 3
    guarantees of them on every [str]: on ASCII text [str.lower] is the
    ASCII lower-casing; none of the letters A to Z occurs in a lower-cased
    string; the [repr] of plain text is the text in single quotes. *)
Class Python := {
  str_lower : string → string;
  repr : string → string;
  str_lower_ascii : ∀ s, Str.is_ascii s = true → str_lower s = Str.lower_ascii s;
  str_lower_no_ascii_upper : ∀ s, Str.has_ascii_upper (str_lower s) = false;
  repr_plain : ∀ s, Str.plain s = true → repr s = "'" +:+ s +:+ "'";
}.

(** ** Dates *)

Record date := Date { year : nat; month : nat; day : nat }.

Global Instance date_eq_dec : EqDecision date.
Proof. solve_decision. Defined.

(** [today.strftime("%Y-%m-%d")] (for a year of at most four digits). *)
Definition strftime_Ymd (d : date) : string :=
  Str.zfill 4 (pretty (year d)) +:+ "-" +:+ Str.zfill 2 (pretty (month d))
  +:+ "-" +:+ Str.zfill 2 (pretty (day d)).

(** ** Exceptions *)

(** [HTTPError] is [requests.exceptions.HTTPError]; the other classes are the
    built-in ones the script can meet.  All of them are subclasses of
    [Exception].  [str e] is Python's [str(e)]. *)
Inductive exn_class := HTTPError | ValueError | KeyError | TypeError | OtherException.

Global Instance exn_class_eq_dec : EqDecision exn_class.
Proof. solve_decision. Defined.

Record exn := Exn { class_of : exn_class; str : string }.

Definition is_HTTPError (e : exn) : bool :=
  match class_of e with HTTPError => true | _ => false end.

Inductive result (A : Type) : Type :=
| Ok (a : A)
| Raise (e : exn).
Arguments Ok {A} a.
Arguments Raise {A} e.

(** ** Records of the two systems *)

(** A person of the iPaaS roster: the four keys the script reads. *)
Record person := Person {
  netid : string;
  first_name : string;
  name : string;
  dartmouth_affiliation : string;
}.

(** An entry of [account_sync_excludes.json]; only [account_name] is read. *)
Record exclude := Exclude {
  account_name : string;
  account_groups_of : list string;
}.

(** An account object of the [planon] library, with the attributes the
    script reads or assigns.  [Description] and [EndDate] are [None] when
    Planon has no value for them. *)
Module Account.
Record t := Make {
  Accountname : string;
  Description : option string;
  EndDate : option date;
  PasswordNeverExpires : bool;
  Syscode : Z;
}.

Definition set_Description (v : option string) (a : t) : t :=
  Make (Accountname a) v (EndDate a) (PasswordNeverExpires a) (Syscode a).
Definition set_EndDate (v : option date) (a : t) : t :=
  Make (Accountname a) (Description a) v (PasswordNeverExpires a) (Syscode a).
Definition set_PasswordNeverExpires (v : bool) (a : t) : t :=
  Make (Accountname a) (Description a) (EndDate a) v (Syscode a).

(** The [values] argument of [planon.Account.create]. *)
Record values := Values {
  v_Accountname : string;
  v_Description : string;
  v_BeginDate : string;
  v_PasswordNeverExpires : bool;
}.
End Account.

Module AccountGroup.
Record t := Make { Description : string; Syscode : Z }.
End AccountGroup.

Module UsrPerson.
Record t := Make { Syscode : Z; Code : string; FreeString7 : string }.
End UsrPerson.

Module AccountAccountGroup.
Record values := Values { AccountGroupRef : Z; AccountRef : Z }.
End AccountAccountGroup.

Module AccountPerson.
Record values := Values { PersonRef : Z; AccountRef : Z }.
End AccountPerson.

(** Filters of the [find] calls: the dictionary under the key ["filter"],
    as the list of its items. *)
Inductive condition :=
| exists_ (b : bool)
| eq_bool (b : bool)
| eq_str (s : string).

Global Instance condition_eq_dec : EqDecision condition.
Proof. solve_decision. Defined.

Definition filter_dict := list (string * condition).

Definition account_filter : filter_dict :=
  [("EndDate", exists_ false)].

Definition account_filter_pwd : filter_dict :=
  [("EndDate", exists_ false); ("PasswordNeverExpires", eq_bool false)].

Definition person_filter (insert : string) : filter_dict :=
  [("FreeString7", eq_str insert)].


(** ** The client libraries

    [ipass.utils] and [planon] are external packages.  Every operation the
    script uses is a field of [Remote]: it reads and changes an abstract world
    and returns a value or raises.  Nothing is assumed about the operations. *)
Record Remote := {
  World : Type;
  utils_get_people : World → result (list person) * World;
  AccountGroup_find : World → result (list AccountGroup.t) * World;
  Account_find : filter_dict → World → result (list Account.t) * World;
  Account_create : Account.values → World → result Account.t * World;
  AccountAccountGroup_create :
    AccountAccountGroup.values → World → result unit * World;
  UsrPerson_find : filter_dict → World → result (list UsrPerson.t) * World;
  AccountPerson_create : AccountPerson.values → World → result unit * World;
  (** [account.save()]: the receiver is sent as it is in memory; the call
      returns the saved account. *)
  Account_save : Account.t → World → result Account.t * World;
}.

(** The remote calls, as recorded in the trace. *)
Inductive call :=
| Call_get_people
| Call_AccountGroup_find
| Call_Account_find (f : filter_dict)
| Call_Account_create (v : Account.values)
| Call_AccountAccountGroup_create (v : AccountAccountGroup.values)
| Call_UsrPerson_find (f : filter_dict)
| Call_AccountPerson_create (v : AccountPerson.values)
| Call_Account_save (a : Account.t).

(** ** Logging *)

Inductive level := DEBUG | INFO | WARNING | ERROR.

(** A call of [log.debug], [log.info], [log.warning], [log.error] or
    [log.exception] (which logs at level ERROR; the traceback it adds is not
    part of the record). *)
Record log_record := LogRecord { levelname : level; message : string }.

(** ** The outcome lists *)

Inductive bucket :=
| inserts_succeeded | inserts_skipped | inserts_failed
| inserts_failed_to_link_person
| updates_succeeded | updates_failed
| deactivates_succeeded | deactivates_failed
| pwd_expire_succeeded | pwd_expire_failed.

Global Instance bucket_eq_dec : EqDecision bucket.
Proof. solve_decision. Defined.

(** ** Iteration over a set

    [for x in s] on a Python set enumerates the members of [s], each once, in
    an order the language leaves open. *)
Record set_order := {
  iter :> gset string → list string;
  iter_perm : ∀ X, iter X ≡ₚ elements X;
}.

Definition elements_order : set_order :=
  {| iter := elements; iter_perm := λ X, reflexivity (elements X) |}.

(** ** The interpreter state and the monad of the script *)

Declare Scope py_scope.
Delimit Scope py_scope with py.

Section Script.
Context {Py : Python} (R : Remote) (order : set_order).

Record state := State {
  world : World R;
  calls : list call;
  log : list log_record;
  planon_accounts : gmap string Account.t;
  buckets : bucket → list string;
}.

Definition M (A : Type) : Type := state → result A * state.

Definition ret {A} (a : A) : M A := λ s, (Ok a, s).

Definition raise {A} (e : exn) : M A := λ s, (Raise e, s).

Definition bind {A B} (m : M A) (k : A → M B) : M B :=
  λ s, match m s with
       | (Ok a, s') => k a s'
       | (Raise e, s') => (Raise e, s')
       end.

(** [try: body  except HTTPError as e: h1(e)  except Exception as e: h2(e)].
    What the body did before it raised stays done. *)
Definition try_except {A} (body : M A) (except_HTTPError except_Exception : exn → M A)
  : M A :=
  λ s, match body s with
       | (Ok a, s') => (Ok a, s')
       | (Raise e, s') =>
           if is_HTTPError e then except_HTTPError e s' else except_Exception e s'
       end.

Notation "x <- m ;; k" := (bind m (λ x, k))
  (at level 100, m at next level, k at level 200, right associativity) : py_scope.
Notation "m ;; k" := (bind m (λ _, k))
  (at level 100, k at level 200, right associativity) : py_scope.
Local Open Scope py_scope.

(** A call of a client-library operation: it is added to the trace whether it
    returns or raises. *)
Definition remote {A} (c : call) (op : World R → result A * World R) : M A :=
  λ s, let '(r, w) := op (world s) in
       (r, State w (calls s ++ [c]) (log s) (planon_accounts s) (buckets s)).

Definition log_ (l : level) (msg : string) : M unit :=
  λ s, (Ok tt, State (world s) (calls s) (log s ++ [LogRecord l msg])
                     (planon_accounts s) (buckets s)).

Definition log_debug := log_ DEBUG.
Definition log_info := log_ INFO.
Definition log_warning := log_ WARNING.
Definition log_error := log_ ERROR.
Definition log_exception := log_ ERROR.

(** [b = l] and [b.append(k)] on an outcome list. *)
Definition assign (b : bucket) (l : list string) : M unit :=
  λ s, (Ok tt, State (world s) (calls s) (log s) (planon_accounts s)
                     (λ b', if decide (b' = b) then l else buckets s b')).

Definition append (b : bucket) (k : string) : M unit :=
  λ s, (Ok tt, State (world s) (calls s) (log s) (planon_accounts s)
                     (λ b', if decide (b' = b) then buckets s b' ++ [k] else buckets s b')).

Definition get_bucket (b : bucket) : M (list string) :=
  λ s, (Ok (buckets s b), s).

(** [planon_accounts = d], and reading the variable. *)
Definition set_planon_accounts (d : gmap string Account.t) : M unit :=
  λ s, (Ok tt, State (world s) (calls s) (log s) d (buckets s)).

Definition get_planon_accounts : M (gmap string Account.t) :=
  λ s, (Ok (planon_accounts s), s).

(** An attribute assignment on the account object held by
    [planon_accounts] under [k]: the object is changed in place, so the
    dictionary sees the change. *)
Definition setattr (k : string) (a' : Account.t) : M unit :=
  λ s, (Ok tt, State (world s) (calls s) (log s) (<[k := a']> (planon_accounts s))
                     (buckets s)).

(** An attribute that may be [None], inside an f-string. *)
Definition format_opt (v : option string) : string := default "None" v.

(** [d[k]]: raises [KeyError] when [k] is missing; [str] of a [KeyError] is
    the [repr] of the key. *)
Definition getitem {V} (d : gmap string V) (k : string) : M V :=
  match d !! k with
  | Some v => ret v
  | None => raise (Exn KeyError (repr k))
  end.

(** [(x,) = l]: unpacking into a one-element tuple.  The texts are those of
    CPython 3; both have "unpack" in them. *)
Definition unpack1 {A} (l : list A) : M A :=
  match l with
  | [x] => ret x
  | [] => raise (Exn ValueError "not enough values to unpack (expected 1, got 0)")
  | _ :: _ :: _ => raise (Exn ValueError "too many values to unpack (expected 1)")
  end.

(** [d - n] for a [datetime.date] [d] and an [int] [n]: [date.__sub__] takes a
    [timedelta] or a [date], and [int] has no reflected operation for it, so
    the expression raises [TypeError]. *)
Definition date_sub_int (d : date) (n : Z) : M date :=
  raise (Exn TypeError "unsupported operand type(s) for -: 'datetime.date' and 'int'").

(** [for x in l: body(x)] *)
Fixpoint for_each {A} (l : list A) (body : A → M unit) : M unit :=
  match l with
  | [] => ret tt
  | x :: l' => body x ;; for_each l' body
  end.

(** [{key(x): x for x in l}]: a later item replaces an earlier one with the
    same key. *)
Definition dict_comp {A} (key : A → string) (l : list A) : gmap string A :=
  foldl (λ d x, <[key x := x]> d) ∅ l.

(** ** The script *)

Context (today : date).

(** [len(x)] inside an f-string. *)
Definition len_list (l : list string) : string := pretty (List.length l).
Definition len_dict {V} (d : gmap string V) : string := pretty (size d).
Definition len_set (X : gset string) : string := pretty (size X).

(** *** SETUP (the exclusion file) *)

Definition load_excludes (json : list exclude) : gmap string exclude :=
  dict_comp account_name json.

(** *** SOURCE DARTMOUTH PEOPLE *)

(** The condition of the second comprehension over [utils.get_people()]. *)
Definition eligible (p : person) : Prop :=
  (first_name p ≠ "nonperson" ∧ first_name p ≠ "NONPERSON"
   ∧ first_name p ≠ "NonPerson")
  ∧ dartmouth_affiliation p ≠ "SERVICE".

Global Instance eligible_dec p : Decision (eligible p).
Proof. unfold eligible. apply _. Defined.

Definition cache_dart_people : M (gmap string person * gmap string person) :=
  log_info "Caching iPaaS data" ;;
  people <- remote Call_get_people (utils_get_people R) ;;
  let dart_people := dict_comp netid people in
  log_info ("Total number of Dartmouth people: " +:+ len_dict dart_people) ;;
  people' <- remote Call_get_people (utils_get_people R) ;;
  let dart_people_with_excludes := dict_comp netid (filter eligible people') in
  log_info ("Total number of Dartmouth people excluding service and non-person accounts: "
            +:+ len_dict dart_people_with_excludes) ;;
  ret (dart_people, dart_people_with_excludes).

(** *** PLANON DATA *)

(** The key under which an account is held in [planon_accounts]. *)
Definition account_key (a : Account.t) : string := str_lower (Account.Accountname a).

(** [planon_accounts = {account.Accountname.lower(): account for account in
    planon.Account.find(account_filter)}] *)
Definition fetch_planon_accounts : M unit :=
  accounts <- remote (Call_Account_find account_filter) (Account_find R account_filter) ;;
  set_planon_accounts (dict_comp account_key accounts).

Definition cache_planon : M AccountGroup.t :=
  log_info "Caching Planon data" ;;
  groups <- remote Call_AccountGroup_find (AccountGroup_find R) ;;
  let account_groups := dict_comp AccountGroup.Description groups in
  planon_requestor_group <- getitem account_groups "DC - Requestors" ;;
  log_debug "Getting list of Planon accounts" ;;
  fetch_planon_accounts ;;
  accs <- get_planon_accounts ;;
  log_debug ("Total number of Planon accounts: " +:+ len_dict accs) ;;
  ret planon_requestor_group.

(** *** INSERTS *)

Definition inserts (dart_people_with_excludes : gmap string person)
    (accs : gmap string Account.t) : gset string :=
  dom dart_people_with_excludes ∖ dom accs.

Definition insert_values (insert : string) (dart_person : person) : Account.values :=
  {| Account.v_Accountname := insert;
     Account.v_Description := name dart_person;
     Account.v_BeginDate := strftime_Ymd today;
     Account.v_PasswordNeverExpires := true |}.

(** The body of the [try] block of the inserts loop. *)
Definition insert_try (dart_people_with_excludes : gmap string person)
    (planon_requestor_group : AccountGroup.t) (insert : string) : M unit :=
  dart_person <- getitem dart_people_with_excludes insert ;;
  log_debug ("Inserting account " +:+ insert) ;;
  let values := insert_values insert dart_person in
  planon_account <- remote (Call_Account_create values) (Account_create R values) ;;
  log_info ("Inserted account for " +:+ insert) ;;
  log_info "Linking group" ;;
  let link :=
    {| AccountAccountGroup.AccountGroupRef := AccountGroup.Syscode planon_requestor_group;
       AccountAccountGroup.AccountRef := Account.Syscode planon_account |} in
  remote (Call_AccountAccountGroup_create link) (AccountAccountGroup_create R link) ;;
  log_info ("Linked account for " +:+ insert +:+ " to requestor group "
            +:+ AccountGroup.Description planon_requestor_group +:+ ", syscode "
            +:+ pretty (AccountGroup.Syscode planon_requestor_group) +:+ " ") ;;
  log_debug "Finding person to link to account" ;;
  found <- remote (Call_UsrPerson_find (person_filter insert))
                  (UsrPerson_find R (person_filter insert)) ;;
  planon_person <- unpack1 found ;;
  log_debug "Linking account to person" ;;
  let plink :=
    {| AccountPerson.PersonRef := UsrPerson.Syscode planon_person;
       AccountPerson.AccountRef := Account.Syscode planon_account |} in
  remote (Call_AccountPerson_create plink) (AccountPerson_create R plink) ;;
  log_info ("Account created for " +:+ insert +:+ " and linked to person "
            +:+ UsrPerson.Code planon_person) ;;
  append inserts_succeeded insert.

(** [except HTTPError as e:] of the inserts loop. *)
Definition insert_except_HTTPError (insert : string) (e : exn) : M unit :=
  if Str.contains "not unique" (str e) then
    log_warning ("Account " +:+ insert +:+
      " is not unique and was skipped, this is due to reference date awareness (RDA).") ;;
    append inserts_skipped insert
  else if Str.contains "unpack" (str e) then
    log_error ("Account " +:+ insert +:+ " failed to link to a PER record due to "
               +:+ str e +:+ " ") ;;
    append inserts_failed_to_link_person insert
  else
    log_error ("Account " +:+ insert +:+ " failed to create due to " +:+ str e +:+ " ") ;;
    append inserts_failed insert.

(** [except Exception as e:] of the inserts loop. *)
Definition insert_except_Exception (insert : string) (e : exn) : M unit :=
  if Str.contains "unpack" (str e) then
    log_error ("Account " +:+ insert +:+ " failed to link to a PER record due to "
               +:+ str e +:+ " ") ;;
    append inserts_failed_to_link_person insert
  else
    log_error ("Creation of account for " +:+ insert +:+ " triggered an exception "
               +:+ str e) ;;
    append inserts_failed insert.

(** The body of [for insert in inserts:]. *)
Definition insert_body (dart_people_with_excludes : gmap string person)
    (planon_requestor_group : AccountGroup.t) (insert : string) : M unit :=
  log_debug ("Processing insert for " +:+ insert) ;;
  try_except (insert_try dart_people_with_excludes planon_requestor_group insert)
             (insert_except_HTTPError insert) (insert_except_Exception insert).

Definition inserts_section (dart_people_with_excludes : gmap string person)
    (planon_requestor_group : AccountGroup.t) : M unit :=
  assign inserts_succeeded [] ;;
  assign inserts_skipped [] ;;
  assign inserts_failed [] ;;
  assign inserts_failed_to_link_person [] ;;
  accs <- get_planon_accounts ;;
  let inserts := inserts dart_people_with_excludes accs in
  log_info ("Total number of people to be inserted in Planon " +:+ len_set inserts) ;;
  for_each (order inserts) (insert_body dart_people_with_excludes planon_requestor_group).

(** *** UPDATES *)

Definition updates (accs : gmap string Account.t) (dart_people : gmap string person)
  : gset string :=
  dom accs ∩ dom dart_people.

(** The body of the [try] block of the updates loop.  After
    [planon_account = planon_account.save()] the variable is the account the
    call returned; the dictionary keeps the object that was changed. *)
Definition update_try (dart_people : gmap string person) (update : string) : M unit :=
  dart_person <- getitem dart_people update ;;
  accs <- get_planon_accounts ;;
  planon_account <- getitem accs update ;;
  if decide (Some (name dart_person) ≠ Account.Description planon_account) then
    let planon_account :=
      Account.set_Description (Some (name dart_person)) planon_account in
    setattr update planon_account ;;
    planon_account <- remote (Call_Account_save planon_account)
                             (Account_save R planon_account) ;;
    append updates_succeeded update ;;
    log_info ("Displayname " +:+ format_opt (Account.Description planon_account)
              +:+ " updated for " +:+ Account.Accountname planon_account)
  else
    log_debug ("Displayname " +:+ format_opt (Account.Description planon_account)
               +:+ " matches for " +:+ Account.Accountname planon_account
               +:+ ", no update required").

Definition update_except (update : string) (e : exn) : M unit :=
  append updates_failed update ;;
  log_info ("Failed to find the linked person for  " +:+ update +:+ " exception " +:+ str e).

Definition update_body (dart_people : gmap string person) (update : string) : M unit :=
  try_except (update_try dart_people update) (update_except update) (update_except update).

Definition updates_loop (dart_people : gmap string person) : M unit :=
  accs <- get_planon_accounts ;;
  for_each (order (updates accs dart_people)) (update_body dart_people).

Definition updates_section (dart_people : gmap string person) : M unit :=
  assign updates_succeeded [] ;;
  assign updates_failed [] ;;
  fetch_planon_accounts ;;
  updates_loop dart_people.

(** *** DEACTIVATES *)

Definition deactivates (accs : gmap string Account.t) (dart_people : gmap string person)
    (account_sync_excludes : gmap string exclude) : gset string :=
  dom accs ∖ dom dart_people ∖ dom account_sync_excludes.

(** [str(d)] of a date. *)
Definition str_date (d : date) : string := strftime_Ymd d.

Definition deactivate_try (deactivate : string) : M unit :=
  accs <- get_planon_accounts ;;
  planon_account <- getitem accs deactivate ;;
  let planon_account := Account.set_EndDate (Some today) planon_account in
  setattr deactivate planon_account ;;
  inactivated_account <- remote (Call_Account_save planon_account)
                                (Account_save R planon_account) ;;
  append deactivates_succeeded deactivate ;;
  yesterday <- date_sub_int today 1 ;;
  log_info ("Deactivated account " +:+ deactivate +:+ " by changing the end-date to "
            +:+ str_date yesterday).

Definition deactivate_except (deactivate : string) (e : exn) : M unit :=
  append deactivates_failed deactivate ;;
  log_exception ("Failed to deactivate account " +:+ deactivate +:+ " exception " +:+ str e).

Definition deactivate_body (deactivate : string) : M unit :=
  log_debug ("Processing deactivation for " +:+ deactivate) ;;
  try_except (deactivate_try deactivate)
             (deactivate_except deactivate) (deactivate_except deactivate).

Definition deactivates_section (dart_people : gmap string person)
    (account_sync_excludes : gmap string exclude) : M unit :=
  assign deactivates_succeeded [] ;;
  assign deactivates_failed [] ;;
  accs <- get_planon_accounts ;;
  let deactivates := deactivates accs dart_people account_sync_excludes in
  log_info ("Total number of accounts to be deactivated: " +:+ len_set deactivates) ;;
  for_each (order deactivates) deactivate_body.

(** *** PWD_EXPIRES *)

(** The loop reads the account object from [planon_accounts], the dictionary
    of the updates section, under the key taken from the second query. *)
Definition pwd_expire_try (pwd_expire : string) : M unit :=
  accs <- get_planon_accounts ;;
  planon_account <- getitem accs pwd_expire ;;
  let planon_account := Account.set_PasswordNeverExpires true planon_account in
  setattr pwd_expire planon_account ;;
  pwd_expire_account <- remote (Call_Account_save planon_account)
                               (Account_save R planon_account) ;;
  append pwd_expire_succeeded pwd_expire ;;
  log_info ("Modified account " +:+ pwd_expire
            +:+ " by changing the PasswordNeverExpires to Yes").

Definition pwd_expire_except (pwd_expire : string) (e : exn) : M unit :=
  append pwd_expire_failed pwd_expire ;;
  log_exception ("Failed to modify account " +:+ pwd_expire +:+ " due to exception "
                 +:+ str e).

Definition pwd_expire_body (pwd_expire : string) : M unit :=
  try_except (pwd_expire_try pwd_expire)
             (pwd_expire_except pwd_expire) (pwd_expire_except pwd_expire).

Definition pwd_expires (planon_accounts_with_pwd_expires : gmap string Account.t)
  : gset string :=
  dom planon_accounts_with_pwd_expires.

Definition pwd_expires_section : M unit :=
  assign pwd_expire_succeeded [] ;;
  assign pwd_expire_failed [] ;;
  accounts <- remote (Call_Account_find account_filter_pwd)
                     (Account_find R account_filter_pwd) ;;
  let planon_accounts_with_pwd_expires := dict_comp account_key accounts in
  let pwd_expires := pwd_expires planon_accounts_with_pwd_expires in
  log_info ("Total number of accounts set to expire passwords "
            +:+ len_dict planon_accounts_with_pwd_expires) ;;
  for_each (order pwd_expires) pwd_expire_body.

(** *** RESULTS *)

(** The f-string of the results record, as a function of the nine values it
    interpolates. *)
Definition results_text (ins_ok ins_failed upd_ok upd_failed dea_ok dea_failed
                         pwd_ok pwd_failed ins_failed_to_link : string) : string :=
  "Logging results" +:+ Str.nl +:+ Str.nl
  +:+ "# ======================= RESULTS ======================= #" +:+ Str.nl
  +:+ Str.nl
  +:+ "Inserts Succeeded: " +:+ ins_ok +:+ Str.nl
  +:+ "Inserts Failed: " +:+ ins_failed +:+ Str.nl
  +:+ Str.nl
  +:+ "Updates Succeeded: " +:+ upd_ok +:+ Str.nl
  +:+ "Updates Failed: " +:+ upd_failed +:+ Str.nl
  +:+ Str.nl
  +:+ "Deactivates Succeeded: " +:+ dea_ok +:+ Str.nl
  +:+ "Deactivates Failed: " +:+ dea_failed +:+ Str.nl
  +:+ Str.nl
  +:+ "Pwd_expire Succeeded: " +:+ pwd_ok +:+ Str.nl
  +:+ "Pwd_expire  Failed: " +:+ pwd_failed +:+ Str.nl
  +:+ Str.nl
  +:+ "Inserts_failed_to_link_person: " +:+ ins_failed_to_link +:+ Str.nl
  +:+ Str.nl.

Definition results_message (b : bucket → list string) : string :=
  results_text
    (len_list (b inserts_succeeded)) (len_list (b inserts_failed))
    (len_list (b updates_succeeded)) (len_list (b updates_failed))
    (len_list (b deactivates_succeeded)) (len_list (b deactivates_failed))
    (len_list (b pwd_expire_succeeded)) (len_list (b pwd_expire_failed))
    (len_list (b inserts_failed_to_link_person)).

Definition log_results : M unit :=
  λ s, log_info (results_message (buckets s)) s.

(** *** Set exit code *)

Definition EX_OK : Z := 0.
Definition EX_DATAERR : Z := 65.

(** The section ends in [sys.exit(code)] on every path; the value returned is
    that code. *)
Definition set_exit_code : M Z :=
  skipped <- get_bucket inserts_skipped ;;
  if decide (skipped ≠ []) then
    log_warning ("There are " +:+ len_list skipped +:+
      "accounts that were not created as they already exist with RDA inactive and/or accounts that were not linked to Person record") ;;
    for_each skipped
      (λ insert_skipped, log_warning ("Skipped creating account: " +:+ insert_skipped)) ;;
    ret EX_DATAERR
  else
    failed_to_link <- get_bucket inserts_failed_to_link_person ;;
    if decide (failed_to_link ≠ []) then
      log_warning ("There are accounts" +:+ len_list failed_to_link +:+
        " that were not created as they already exist with RDA inactive and/or accounts that were not linked to Person record") ;;
      for_each failed_to_link
        (λ k, log_warning ("Failed to link person record for: " +:+ k)) ;;
      ret EX_DATAERR
    else
      log_info "Inserts were processed successfully, exiting" ;;
      ret EX_OK.

(** *** The whole script, from MAIN on *)

Definition passes (json : list exclude) : M unit :=
  let account_sync_excludes := load_excludes json in
  rosters <- cache_dart_people ;;
  let dart_people := rosters.1 in
  let dart_people_with_excludes := rosters.2 in
  planon_requestor_group <- cache_planon ;;
  inserts_section dart_people_with_excludes planon_requestor_group ;;
  updates_section dart_people ;;
  deactivates_section dart_people account_sync_excludes ;;
  pwd_expires_section.

Definition main (json : list exclude) : M Z :=
  passes json ;;
  log_results ;;
  set_exit_code.

(** The state in which the script starts. *)
Definition initial (w : World R) : state :=
  State w [] [] ∅ (λ _, []).

End Script.

Arguments State {R} _ _ _ _ _.
Arguments world {R} _.
Arguments calls {R} _.
Arguments log {R} _.
Arguments planon_accounts {R} _.
Arguments buckets {R} _.

(** ** A small Planon and roster, for running the script

    [Sim] is an in-memory remote: a roster, the account groups, the accounts
    and the persons of a Planon, and two tables of scripted failures (by
    account name) for [Account.create] and [save]. *)
Module Sim.

Record world := Make {
  people : list person;
  groups : list AccountGroup.t;
  accounts : list Account.t;
  persons : list UsrPerson.t;
  create_errors : list (string * exn);
  save_errors : list (string * exn);
  next_syscode : Z;
}.

Definition lookup_error (k : string) (errors : list (string * exn)) : option exn :=
  snd <$> List.find (λ kv, bool_decide (fst kv = k)) errors.

Definition account_matches (a : Account.t) (item : string * condition) : bool :=
  match item with
  | (field, exists_ b) =>
      if decide (field = "EndDate")
      then bool_decide (bool_decide (is_Some (Account.EndDate a)) = b)
      else true
  | (field, eq_bool b) =>
      if decide (field = "PasswordNeverExpires")
      then bool_decide (Account.PasswordNeverExpires a = b)
      else true
  | (_, eq_str _) => true
  end.

Definition person_matches (p : UsrPerson.t) (item : string * condition) : bool :=
  match item with
  | (field, eq_str v) =>
      if decide (field = "FreeString7")
      then bool_decide (UsrPerson.FreeString7 p = v)
      else true
  | _ => true
  end.

Definition set_accounts (accs : list Account.t) (next : Z) (w : world) : world :=
  Make (people w) (groups w) accs (persons w) (create_errors w) (save_errors w) next.

Definition create (v : Account.values) (w : world) : result Account.t * world :=
  match lookup_error (Account.v_Accountname v) (create_errors w) with
  | Some e => (Raise e, w)
  | None =>
      let a := Account.Make (Account.v_Accountname v)
                            (Some (Account.v_Description v)) None
                            (Account.v_PasswordNeverExpires v) (next_syscode w) in
      (Ok a, set_accounts (accounts w ++ [a]) (next_syscode w + 1) w)
  end.

Definition save (a : Account.t) (w : world) : result Account.t * world :=
  match lookup_error (Account.Accountname a) (save_errors w) with
  | Some e => (Raise e, w)
  | None =>
      (Ok a,
       set_accounts
         (map (λ a', if decide (Account.Syscode a' = Account.Syscode a) then a else a')
              (accounts w))
         (next_syscode w) w)
  end.

Definition remote : Remote := {|
  World := world;
  utils_get_people := λ w, (Ok (people w), w);
  AccountGroup_find := λ w, (Ok (groups w), w);
  Account_find := λ f w,
    (Ok (List.filter (λ a, forallb (account_matches a) f) (accounts w)), w);
  Account_create := create;
  AccountAccountGroup_create := λ _ w, (Ok tt, w);
  UsrPerson_find := λ f w,
    (Ok (List.filter (λ p, forallb (person_matches p) f) (persons w)), w);
  AccountPerson_create := λ _ w, (Ok tt, w);
  Account_save := save;
|}.

(** The string methods on ASCII text, which is all that the worlds below
    hold. *)
Definition python : Python := {|
  str_lower := Str.lower_ascii;
  repr := Str.repr_ascii;
  str_lower_ascii := λ s _, eq_refl;
  str_lower_no_ascii_upper := Str.has_ascii_upper_lower_ascii;
  repr_plain := Str.repr_ascii_plain;
|}.

#[local] Existing Instance python.

Definition requestors : AccountGroup.t := AccountGroup.Make "DC - Requestors" 7.

Definition run_date : date := Date 2024 5 17.

(** The state of a script that has just fetched the accounts of [w]. *)
Definition snapshot (w : world) : state remote :=
  @State remote w [] [] (dict_comp account_key (accounts w)) (λ _, []).

(** The roster of [w] as the script holds it. *)
Definition roster (w : world) : gmap string person := dict_comp netid (people w).

(** The four sections of the script on [w]. *)
Definition run_passes (json : list exclude) (w : world) : result unit * state remote :=
  passes remote elements_order run_date json (initial remote w).

(** A run of the whole script on [w]. *)
Definition run (json : list exclude) (w : world) : result Z * state remote :=
  main remote elements_order run_date json (initial remote w).

End Sim.

(** Worlds used to run the script on concrete data. *)
Module Scenario.

Definition alice : person := Person "a1" "Alice" "Alice Liddell" "STAFF".
Definition bob : person := Person "b2" "Bob" "Bob Cratchit" "STAFF".

Definition bob_account : Account.t := Account.Make "B2" (Some "Bob Cratchit") None true 1.
Definition carol_account : Account.t := Account.Make "c3" (Some "Carol Kane") None false 2.

Definition alice_person : UsrPerson.t := UsrPerson.Make 40 "P-0040" "a1".

(** Roster: a1 and b2; Planon: B2 and c3 (whose password expires); a person
    record exists for a1. *)
Definition campus : Sim.world :=
  Sim.Make [alice; bob] [Sim.requestors] [bob_account; carol_account] [alice_person]
           [] [] 10.

(** Nobody on the roster and no account. *)
Definition empty : Sim.world := Sim.Make [] [Sim.requestors] [] [] [] [] 10.

Definition not_unique : string :=
  "The User name field with value D36616B on Users is not unique.".

(** d36616b is on the roster and invisible in Planon; creating the account
    fails with the HTTP 422 of the comment in the inserts loop. *)
Definition hidden_account : Sim.world :=
  Sim.Make [Person "d36616b" "Dana" "Dana Scully" "STAFF"] [Sim.requestors] [] []
           [("d36616b", Exn HTTPError not_unique)] [] 10.

(** The same text raised by something that is not an [HTTPError]. *)
Definition hidden_account_generic : Sim.world :=
  Sim.Make [Person "d36616b" "Dana" "Dana Scully" "STAFF"] [Sim.requestors] [] []
           [("d36616b", Exn OtherException not_unique)] [] 10.

(** b2 has a stale display name in Planon and saving it fails with an
    [HTTPError] whose text has "not unique" in it. *)
Definition stale_name : Sim.world :=
  Sim.Make [bob] [Sim.requestors]
           [Account.Make "b2" (Some "Robert Cratchit") None true 1] []
           [] [("b2", Exn HTTPError not_unique)] 10.

(** b2 is on the roster and its account has a password that expires. *)
Definition expiring : Sim.world :=
  Sim.Make [bob] [Sim.requestors]
           [Account.Make "b2" (Some "Bob Cratchit") None false 1] [] [] [] 10.

(** c3 has left the roster; its account is named in the exclusion file. *)
Definition excluded : Sim.world :=
  Sim.Make [bob] [Sim.requestors]
           [Account.Make "b2" (Some "Bob Cratchit") None true 1; carol_account]
           [] [] [] 10.

Definition excludes_json : list exclude := [Exclude "c3" ["DC - Administrators"]].

(** A service account with an upper-case netid, and its Planon account. *)
Definition service : Sim.world :=
  Sim.Make [Person "SVC1" "Facilities" "Facilities Desk" "SERVICE"] [Sim.requestors]
           [Account.Make "SVC1" (Some "Facilities Desk") None true 1] [] [] [] 10.

End Scenario.

(** ** Vocabulary of the statements *)

(** Between [s] and [s'], [k] was appended to the outcome list [b] and every
    other outcome list is as it was. *)
Definition appended_to {R} (b : bucket) (k : string) (s s' : state R) : Prop :=
  ∀ b', buckets s' b' = if decide (b' = b) then buckets s b' ++ [k] else buckets s b'.

(** The outcome list of a failure [e] of the insert action, as the handlers
    of the inserts loop decide it. *)
Definition insert_category (e : exn) : bucket :=
  if is_HTTPError e && Str.contains "not unique" (str e) then inserts_skipped
  else if Str.contains "unpack" (str e) then inserts_failed_to_link_person
  else inserts_failed.

(** No outcome list changed between [s] and [s']. *)
Definition same_buckets {R} (s s' : state R) : Prop :=
  ∀ b, buckets s' b = buckets s b.

(** The outcome lists of the inserts loop, of the updates loop and of the
    pwd_expires loop, put end to end. *)
Definition insert_outcomes {R} (s : state R) : list string :=
  buckets s inserts_succeeded ++ buckets s inserts_skipped
  ++ buckets s inserts_failed ++ buckets s inserts_failed_to_link_person.

Definition update_outcomes {R} (s : state R) : list string :=
  buckets s updates_succeeded ++ buckets s updates_failed.

Definition pwd_expire_outcomes {R} (s : state R) : list string :=
  buckets s pwd_expire_succeeded ++ buckets s pwd_expire_failed.

(** The log records whose text opens like the results record. *)
Definition is_results_record (r : log_record) : bool :=
  String.prefix "Logging results" (message r).

(** A computation that leaves an observation [f] of the state as it was. *)
Definition preserves {R A X} (f : state R → X) (m : M R A) : Prop :=
  ∀ s, f (m s).2 = f s.

(** A list of log records none of which is a results record. *)
Definition no_results (l : list log_record) : Prop :=
  Forall (λ r, is_results_record r = false) l.

(** A computation that adds log records, none of them a results record. *)
Definition logs_no_results {R A} (m : M R A) : Prop :=
  ∀ s, ∃ l, log (m s).2 = log s ++ l ∧ no_results l.

(** The character [c] does not occur in [s]. *)
Fixpoint free_of (c : ascii) (s : string) : Prop :=
  match s with
  | EmptyString => True
  | String c' s' => c' ≠ c ∧ free_of c s'
  end.

(** [log.warning(prefix + k)] for each [k], in order. *)
Definition warnings (prefix : string) (keys : list string) : list log_record :=
  map (λ k, LogRecord WARNING (prefix +:+ k)) keys.

(** A computation that only adds to a list [proj] of the state (the trace of
    the calls, or the log), and adds only items that satisfy [P]. *)
Definition extends {R A X} (proj : state R → list X) (P : X → Prop) (m : M R A) : Prop :=
  ∀ s, ∃ l, proj (m s).2 = proj s ++ l ∧ Forall P l.

(** The kinds of remote calls: the reads of the two systems, the four calls
    of the insert action, and [save]. *)
Definition is_read (c : call) : bool :=
  match c with
  | Call_get_people | Call_AccountGroup_find | Call_Account_find _ => true
  | _ => false
  end.

Definition is_insert_call (c : call) : bool :=
  match c with
  | Call_Account_create _ | Call_AccountAccountGroup_create _
  | Call_UsrPerson_find _ | Call_AccountPerson_create _ => true
  | _ => false
  end.

(** The [values] of the [Account.create] calls of a trace, in order. *)
Definition creates (cs : list call) : list Account.values :=
  omap (λ c, match c with Call_Account_create v => Some v | _ => None end) cs.

(** The read [c] raised [e] in the world [w] and left the world [w']. *)
Definition read_raises (R : Remote) (c : call) (e : exn) (w w' : World R) : Prop :=
  match c with
  | Call_get_people => utils_get_people R w = (Raise e, w')
  | Call_AccountGroup_find => AccountGroup_find R w = (Raise e, w')
  | Call_Account_find f => Account_find R f w = (Raise e, w')
  | _ => False
  end.

(** The run that stopped in [s'] with the exception [e] was stopped by a
    read: the last call of the trace is a read, and it raised [e]. *)
Definition ended_by_read {R} (e : exn) (s' : state R) : Prop :=
  ∃ c w before,
    is_read c = true ∧ read_raises R c e w (world s') ∧ calls s' = before ++ [c].




(** The [save] call of the updates loop for the key [k], when the display
    names differ. *)
Definition update_of (S : gmap string person) (k : string) (a : Account.t)
  : option Account.t :=
  p ← S !! k;
  if decide (Some (name p) ≠ Account.Description a)
  then Some (Account.set_Description (Some (name p)) a) else None.

(** A log record that reports a deactivation as done. *)
Definition reports_deactivated (r : log_record) : bool :=
  String.prefix "Deactivated account" (message r).

(** ** LOGGING (the configuration at the top of the script)

    [log_level = os.environ.get("LOG_LEVEL", "INFO")] is handed to
    [logging.basicConfig], which sets the level of the root logger; the
    logger of the script has no level of its own, so a record reaches the
    stream when its level is at least that of the root logger (no imported
    package is taken to have set up the root logger before). *)
Module Logging.

Definition levelno (l : level) : nat :=
  match l with DEBUG => 10 | INFO => 20 | WARNING => 30 | ERROR => 40 end.

(** The level names that [logging] knows. *)
Definition nameToLevel (name : string) : option nat :=
  if decide (name = "CRITICAL") then Some 50%nat
  else if decide (name = "FATAL") then Some 50%nat
  else if decide (name = "ERROR") then Some 40%nat
  else if decide (name = "WARN") then Some 30%nat
  else if decide (name = "WARNING") then Some 30%nat
  else if decide (name = "INFO") then Some 20%nat
  else if decide (name = "DEBUG") then Some 10%nat
  else if decide (name = "NOTSET") then Some 0%nat
  else None.

(** [os.environ.get(key, default)] *)
Definition environ_get (environ : gmap string string) (key default_ : string) : string :=
  default default_ (environ !! key).

Definition log_level (environ : gmap string string) : string :=
  environ_get environ "LOG_LEVEL" "INFO".

(** [logging.basicConfig(level=log_level)]: the level of the root logger, or
    [ValueError] for a name that is not a level. *)
Definition basicConfig {Py : Python} (level : string) : result nat :=
  match nameToLevel level with
  | Some n => Ok n
  | None => Raise (Exn ValueError ("Unknown level: " +:+ repr level))
  end.

(** The records of a log that reach the stream under a root level. *)
Definition emitted (root_level : nat) (l : list log_record) : list log_record :=
  filter (λ r, (root_level ≤ levelno (levelname r))%nat) l.

End Logging.

(** Further worlds, for the edge cases of the script. *)
Module Edge.

(** Planon lists an account group, but not the requestor group. *)
Definition no_requestors : Sim.world :=
  Sim.Make [Scenario.alice] [AccountGroup.Make "DC - Administrators" 3] []
           [Scenario.alice_person] [] [] 10.


(** c3 has left the roster and its password expires; saving it fails. *)
Definition leaver : Sim.world :=
  Sim.Make [Scenario.bob] [Sim.requestors]
           [Account.Make "b2" (Some "Bob Cratchit") None true 1; Scenario.carol_account]
           [] [] [("c3", Exn HTTPError "503 Server Error")] 10.

(** Two roster entries with the netid b2, and two accounts whose names
    differ by case only. *)
Definition doubles : Sim.world :=
  Sim.Make [Person "b2" "Bob" "Bob Cratchit" "STAFF";
            Person "b2" "nonperson" "Shared Mailbox" "STAFF"]
           [Sim.requestors]
           [Account.Make "B2" (Some "Bob Cratchit") None true 1;
            Account.Make "b2" (Some "Shared Mailbox") None true 2]
           [] [] [] 10.

(** b2 is on the roster and has its account, with the right name and a
    password that does not expire. *)
Definition settled : Sim.world :=
  Sim.Make [Scenario.bob] [Sim.requestors]
           [Account.Make "b2" (Some "Bob Cratchit") None true 1] [] [] [] 10.

(** An account that is not in Planon when the run starts. *)
Definition new_hire : Account.t := Account.Make "n9" (Some "New Hire") None false 9.

End Edge.

(** A Planon in which accounts become visible between the second account
    query and the password query: the remote of [Sim], except that the
    password query first adds the accounts [late] to the world. *)
Module Race.

Definition arrive (late : list Account.t) (w : Sim.world) : Sim.world :=
  Sim.set_accounts (Sim.accounts w ++ late) (Sim.next_syscode w) w.

Definition remote (late : list Account.t) : Remote := {|
  World := Sim.world;
  utils_get_people := utils_get_people Sim.remote;
  AccountGroup_find := AccountGroup_find Sim.remote;
  Account_find := λ f w,
    if decide (f = account_filter_pwd)
    then Account_find Sim.remote f (arrive late w)
    else Account_find Sim.remote f w;
  Account_create := Account_create Sim.remote;
  AccountAccountGroup_create := AccountAccountGroup_create Sim.remote;
  UsrPerson_find := UsrPerson_find Sim.remote;
  AccountPerson_create := AccountPerson_create Sim.remote;
  Account_save := Account_save Sim.remote;
|}.

End Race.

(** * Properties *)

Section Properties.
Context {Py : Python} (R : Remote) (order : set_order) (today : date).

Local Abbreviation M := (M R).
Local Abbreviation state := (state R).

(** ** The monad *)

Lemma bind_Ok_inv {A B} (m : M A) (k : A → M B) (s s' : state) (b : B) :
  bind R m k s = (Ok b, s') → ∃ a s1, m s = (Ok a, s1) ∧ k a s1 = (Ok b, s').
Proof.
  unfold bind. destruct (m s) as [[a|e] s1]; [eauto | discriminate].
Qed.

Lemma for_each_log (l : list string) (lvl : level) (f : string → string) (s : state) :
  for_each R l (λ k, log_ R lvl (f k)) s
  = (Ok tt, State (world s) (calls s) (log s ++ map (λ k, LogRecord lvl (f k)) l)
                  (planon_accounts s) (buckets s)).
Proof.
  revert s. induction l as [|k l IH]; intros s; simpl.
  - unfold ret. rewrite app_nil_r. by destruct s.
  - unfold bind at 1. simpl. rewrite IH. simpl. by rewrite <- app_assoc.
Qed.

Lemma preserves_bind {A B X} (f : state → X) (m : M A) (k : A → M B) :
  preserves f m → (∀ a, preserves f (k a)) → preserves f (bind R m k).
Proof.
  intros Hm Hk s. unfold bind. specialize (Hm s).
  destruct (m s) as [[a|e] s1]; simpl in *; [|done]. by rewrite Hk.
Qed.

Lemma preserves_try_except {A X} (f : state → X) (body : M A) (h1 h2 : exn → M A) :
  preserves f body → (∀ e, preserves f (h1 e)) → (∀ e, preserves f (h2 e)) →
  preserves f (try_except R body h1 h2).
Proof.
  intros Hm H1 H2 s. unfold try_except. specialize (Hm s).
  destruct (body s) as [[a|e] s1]; simpl in *; [done|].
  destruct (is_HTTPError e); [by rewrite H1|by rewrite H2].
Qed.

Lemma preserves_for_each {A X} (f : state → X) (l : list A) (body : A → M unit) :
  (∀ x, preserves f (body x)) → preserves f (for_each R l body).
Proof.
  intros Hb. induction l as [|x l IH]; simpl; [done|].
  apply preserves_bind; [apply Hb|]. intros _. apply IH.
Qed.

Lemma preserves_remote {A X} (f : state → X) (c : call)
    (op : World R → result A * World R) :
  (∀ s w c, f (State w c (log s) (planon_accounts s) (buckets s)) = f s) →
  preserves f (remote R c op).
Proof. intros Hf s. unfold remote. destruct (op (world s)). apply Hf. Qed.

Lemma preserves_getitem {V X} (f : state → X) (d : gmap string V) (k : string) :
  preserves f (getitem R d k).
Proof. intros s. unfold getitem. by destruct (d !! k). Qed.

Lemma preserves_unpack1 {A X} (f : state → X) (l : list A) : preserves f (unpack1 R l).
Proof. intros s. by destruct l as [|? [|? ?]]. Qed.

(** Following the structure of a piece of the script, for an observation
    that the remote calls and each primitive step visibly leave alone. *)
Ltac frame_with known :=
  repeat first
    [ known
    | apply preserves_bind; [|intros ?]
    | apply preserves_try_except; [| intros ? | intros ?]
    | apply preserves_for_each; intros ?
    | apply preserves_remote; intros ? ? ?; reflexivity
    | apply preserves_getitem
    | apply preserves_unpack1
    | intros ?; reflexivity
    | case_match ].

Ltac frame := frame_with fail.

(** The updates, deactivates and pwd_expires sections leave the outcome
    lists of the inserts loop as they are. *)
Lemma later_sections_keep_insert_lists (b : bucket) S E :
  b ∈ [inserts_succeeded; inserts_skipped; inserts_failed; inserts_failed_to_link_person] →
  preserves (λ s, buckets s b) (updates_section R order S)
  ∧ preserves (λ s, buckets s b) (deactivates_section R order today S E)
  ∧ preserves (λ s, buckets s b) (pwd_expires_section R order).
Proof.
  intros Hb.
  repeat (apply elem_of_cons in Hb as [->|Hb]); [..|by apply elem_of_nil in Hb].
  all: split_and!.
  all: unfold updates_section, updates_loop, update_body, update_try, update_except,
         deactivates_section, deactivate_body, deactivate_try, deactivate_except,
         pwd_expires_section, pwd_expire_body, pwd_expire_try, pwd_expire_except,
         fetch_planon_accounts, date_sub_int,
         log_debug, log_info, log_exception.
  all: frame.
Qed.

(** ** The exit section *)

Lemma set_exit_code_skipped (s : state) :
  buckets s inserts_skipped ≠ [] →
  ∃ header,
    is_results_record (LogRecord WARNING header) = false
    ∧ set_exit_code R s
    = (Ok EX_DATAERR,
       State (world s) (calls s)
         (log s ++ LogRecord WARNING header
                   :: warnings "Skipped creating account: " (buckets s inserts_skipped))
         (planon_accounts s) (buckets s)).
Proof.
  intros Hne. eexists. split; cycle 1.
  { unfold set_exit_code, get_bucket, bind at 1.
    destruct (decide _) as [_|[]]; [|done].
    unfold bind at 1, log_warning, log_ at 1.
    cbn [world calls log planon_accounts buckets].
    unfold bind at 1. rewrite for_each_log. cbn [world calls log planon_accounts buckets].
    unfold ret, warnings. by rewrite <- app_assoc. }
  reflexivity.
Qed.

Lemma set_exit_code_failed_to_link (s : state) :
  buckets s inserts_skipped = [] →
  buckets s inserts_failed_to_link_person ≠ [] →
  ∃ header,
    is_results_record (LogRecord WARNING header) = false
    ∧ set_exit_code R s
    = (Ok EX_DATAERR,
       State (world s) (calls s)
         (log s ++ LogRecord WARNING header
                   :: warnings "Failed to link person record for: "
                        (buckets s inserts_failed_to_link_person))
         (planon_accounts s) (buckets s)).
Proof.
  intros He Hne. eexists. split; cycle 1.
  { unfold set_exit_code, get_bucket, bind at 1.
    destruct (decide _) as [[]|_]; [done|].
    unfold bind at 1. destruct (decide _) as [_|[]]; [|done].
    unfold bind at 1, log_warning, log_ at 1.
    cbn [world calls log planon_accounts buckets].
    unfold bind at 1. rewrite for_each_log. cbn [world calls log planon_accounts buckets].
    unfold ret, warnings. by rewrite <- app_assoc. }
  reflexivity.
Qed.

Lemma set_exit_code_ok (s : state) :
  buckets s inserts_skipped = [] →
  buckets s inserts_failed_to_link_person = [] →
  set_exit_code R s
  = (Ok EX_OK,
     State (world s) (calls s)
       (log s ++ [LogRecord INFO "Inserts were processed successfully, exiting"])
       (planon_accounts s) (buckets s)).
Proof.
  intros He1 He2. unfold set_exit_code, get_bucket, bind at 1.
  destruct (decide _) as [[]|_]; [done|].
  unfold bind at 1. destruct (decide _) as [[]|_]; [done|].
  reflexivity.
Qed.

Lemma main_inv (json : list exclude) (s s' : state) (code : Z) :
  main R order today json s = (Ok code, s') →
  ∃ s1, passes R order today json s = (Ok tt, s1)
        ∧ set_exit_code R
            (State (world s1) (calls s1)
               (log s1 ++ [LogRecord INFO (results_message (buckets s1))])
               (planon_accounts s1) (buckets s1))
          = (Ok code, s').
Proof.
  unfold main. intros H.
  apply bind_Ok_inv in H as ([] & s1 & Hp & H).
  apply bind_Ok_inv in H as ([] & s2 & Hr & H).
  exists s1. split; [done|].
  unfold log_results, log_info, log_ in Hr. by simplify_eq.
Qed.

(** C1.  A run that reaches the exit section ends with status [EX_DATAERR]
    (65, not zero) exactly when [inserts_skipped] or
    [inserts_failed_to_link_person] is not empty, and with [EX_OK] (0)
    otherwise; no other outcome list has a say.  [inserts_skipped] is looked
    at first: when it is not empty the last records of the log are a warning
    header and one warning per skipped key; otherwise, when
    [inserts_failed_to_link_person] is not empty, a warning header and one
    warning per such key.  The two lists are those of the inserts loop: the
    sections that follow it leave them as they are. *)
Theorem exit_status_policy (json : list exclude) (s s' : state) (code : Z) :
  main R order today json s = (Ok code, s') →
  let skipped := buckets s' inserts_skipped in
  let failed_to_link := buckets s' inserts_failed_to_link_person in
  (code = EX_DATAERR ↔ skipped ≠ [] ∨ failed_to_link ≠ [])
  ∧ (code ≠ EX_DATAERR → code = EX_OK)
  ∧ EX_OK = 0 ∧ EX_DATAERR ≠ 0
  ∧ (skipped ≠ [] →
     ∃ before header,
       log s' = before ++ LogRecord WARNING header
                          :: warnings "Skipped creating account: " skipped)
  ∧ (skipped = [] → failed_to_link ≠ [] →
     ∃ before header,
       log s' = before ++ LogRecord WARNING header
                          :: warnings "Failed to link person record for: " failed_to_link)
  ∧ (skipped = [] → failed_to_link = [] →
     ∃ before,
       log s' = before
                ++ [LogRecord INFO "Inserts were processed successfully, exiting"])
  ∧ (∀ b S E,
       b ∈ [inserts_skipped; inserts_failed_to_link_person] →
       preserves (λ s, buckets s b) (updates_section R order S)
       ∧ preserves (λ s, buckets s b) (deactivates_section R order today S E)
       ∧ preserves (λ s, buckets s b) (pwd_expires_section R order)
       ∧ preserves (λ s, buckets s b) (log_results R)).
Proof.
  intros Hmain skipped failed_to_link.
  assert (∀ b S E,
            b ∈ [inserts_skipped; inserts_failed_to_link_person] →
            preserves (λ s, buckets s b) (updates_section R order S)
            ∧ preserves (λ s, buckets s b) (deactivates_section R order today S E)
            ∧ preserves (λ s, buckets s b) (pwd_expires_section R order)
            ∧ preserves (λ s, buckets s b) (log_results R)) as Hframe.
  { intros b S E Hb.
    assert (b ∈ [inserts_succeeded; inserts_skipped; inserts_failed;
                 inserts_failed_to_link_person]) as Hb4.
    { repeat (apply elem_of_cons in Hb as [->|Hb]); [..|by apply elem_of_nil in Hb];
        repeat constructor. }
    destruct (later_sections_keep_insert_lists b S E Hb4) as (Hu & Hd & Hp).
    by split_and!. }
  subst skipped failed_to_link.
  apply main_inv in Hmain as (s1 & _ & Hexit).
  set (s2 := State _ _ _ _ _) in Hexit.
  destruct (decide (buckets s2 inserts_skipped = [])) as [Hs|Hs].
  - destruct (decide (buckets s2 inserts_failed_to_link_person = [])) as [Hf|Hf].
    + rewrite (set_exit_code_ok s2 Hs Hf) in Hexit. simplify_eq. cbn [buckets log].
      change (buckets s1) with (buckets s2). rewrite Hs, Hf.
      split_and!; try done.
      * split; [done|]. intros [?|?]; done.
      * intros _ _. by eexists.
    + destruct (set_exit_code_failed_to_link s2 Hs Hf) as (header & _ & Heq).
      rewrite Heq in Hexit. simplify_eq. cbn [buckets log].
      change (buckets s1) with (buckets s2). rewrite Hs.
      split_and!; try done.
      * split; [by right|done].
      * intros _ _. by eexists _, _.
  - destruct (set_exit_code_skipped s2 Hs) as (header & _ & Heq).
    rewrite Heq in Hexit. simplify_eq. cbn [buckets log].
    change (buckets s1) with (buckets s2).
    split_and!; try done.
    + split; [by left|done].
    + intros _. by eexists _, _.
Qed.

(** ** Outcome lists of the four loop bodies *)

Lemma insert_handlers (k : string) (e : exn) (s : state) :
  let s' := (if is_HTTPError e then insert_except_HTTPError R k e s
             else insert_except_Exception R k e s).2 in
  appended_to (insert_category e) k s s'.
Proof.
  cbv zeta. unfold insert_category, insert_except_HTTPError, insert_except_Exception.
  destruct (is_HTTPError e); cbn [andb];
    repeat (destruct (Str.contains _ _)); intros b; reflexivity.
Qed.

(** The [try] block of the inserts loop appends to [inserts_succeeded] as its
    last step and touches no outcome list before. *)
Lemma insert_try_buckets S' group (k : string) (s : state) :
  match insert_try R today S' group k s with
  | (Ok _, s1) => appended_to inserts_succeeded k s s1
  | (Raise _, s1) => same_buckets s s1
  end.
Proof.
  unfold insert_try, getitem.
  destruct (S' !! k) as [p|]; [|by intros b].
  unfold bind, remote, ret, raise, log_debug, log_info, log_, append, unpack1.
  cbn [world calls log planon_accounts buckets].
  destruct (Account_create R _ _) as [[account|e] w1]; [|by intros b].
  destruct (AccountAccountGroup_create R _ _) as [[[]|e] w2]; [|by intros b].
  destruct (UsrPerson_find R _ _) as [[[|planon_person [|other found]]|e] w3];
    try by intros b.
  unfold ret. cbn [world calls log planon_accounts buckets].
  destruct (AccountPerson_create R _ _) as [[[]|e] w4]; by intros b.
Qed.

Lemma update_try_buckets S (k : string) (s : state) :
  match update_try R S k s with
  | (Ok _, s1) => appended_to updates_succeeded k s s1 ∨ same_buckets s s1
  | (Raise _, s1) => same_buckets s s1
  end.
Proof.
  unfold update_try, getitem, get_planon_accounts.
  destruct (S !! k) as [p|]; [|by intros b].
  unfold bind at 1. unfold ret at 1. unfold bind at 1.
  destruct (planon_accounts s !! k) as [a|]; [|by intros b].
  unfold bind at 1. unfold ret at 1.
  destruct (decide _); [|by right].
  unfold bind, remote, setattr, append, log_info, log_.
  cbn [world calls log planon_accounts buckets].
  destruct (Account_save R _ _) as [[saved|e] w1]; [left|]; by intros b.
Qed.

Lemma pwd_expire_try_buckets (k : string) (s : state) :
  match pwd_expire_try R k s with
  | (Ok _, s1) => appended_to pwd_expire_succeeded k s s1
  | (Raise _, s1) => same_buckets s s1
  end.
Proof.
  unfold pwd_expire_try, getitem, get_planon_accounts.
  unfold bind at 1. unfold ret at 1. unfold bind at 1.
  destruct (planon_accounts s !! k) as [a|]; [|by intros b].
  unfold bind, remote, ret, setattr, append, log_info, log_.
  cbn [world calls log planon_accounts buckets].
  destruct (Account_save R _ _) as [[saved|e] w1]; by intros b.
Qed.

Lemma update_except_appends (k : string) (e : exn) (s : state) :
  appended_to updates_failed k s (update_except R k e s).2.
Proof. intros b. reflexivity. Qed.

Lemma deactivate_except_appends (k : string) (e : exn) (s : state) :
  appended_to deactivates_failed k s (deactivate_except R k e s).2.
Proof. intros b. reflexivity. Qed.

Lemma pwd_expire_except_appends (k : string) (e : exn) (s : state) :
  appended_to pwd_expire_failed k s (pwd_expire_except R k e s).2.
Proof. intros b. reflexivity. Qed.

(** C2 (as the code has it).  In the inserts loop a failure [e] raised by the
    [try] block is classified by [insert_category]: skipped when [e] is an
    [HTTPError] whose text has "not unique" in it; otherwise
    failed-to-link-person when the text has "unpack" in it, whatever the class
    of [e]; otherwise failed.  A failure that is not an [HTTPError] is not
    checked for "not unique".  In the three other loops every failure goes to
    the failed list of the loop, whatever its text. *)
Theorem failure_classification (k : string) (e : exn) :
  (∀ S' group (s s1 : state),
     insert_try R today S' group k s = (Raise e, s1) →
     appended_to (insert_category e) k s1
       (try_except R (insert_try R today S' group k)
          (insert_except_HTTPError R k) (insert_except_Exception R k) s).2)
  ∧ (is_HTTPError e = true → Str.contains "not unique" (str e) = true →
     insert_category e = inserts_skipped)
  ∧ (is_HTTPError e = false → Str.contains "unpack" (str e) = false →
     insert_category e = inserts_failed)
  ∧ (Str.contains "not unique" (str e) = false → Str.contains "unpack" (str e) = true →
     insert_category e = inserts_failed_to_link_person)
  ∧ (∀ S (s s1 : state),
       update_try R S k s = (Raise e, s1) →
       appended_to updates_failed k s1 (update_body R S k s).2)
  ∧ (∀ (s s1 : state),
       deactivate_try R today k s = (Raise e, s1) →
       appended_to deactivates_failed k s1
         (try_except R (deactivate_try R today k)
            (deactivate_except R k) (deactivate_except R k) s).2)
  ∧ (∀ (s s1 : state),
       pwd_expire_try R k s = (Raise e, s1) →
       appended_to pwd_expire_failed k s1 (pwd_expire_body R k s).2).
Proof.
  split_and!.
  - intros S' group s s1 Htry. unfold try_except. rewrite Htry.
    apply insert_handlers.
  - unfold insert_category. by intros -> ->.
  - unfold insert_category. by intros -> ->.
  - unfold insert_category. intros -> ->. by rewrite andb_false_r.
  - intros S s s1 Htry. unfold update_body, try_except. rewrite Htry.
    destruct (is_HTTPError e); apply update_except_appends.
  - intros s s1 Htry. unfold try_except. rewrite Htry.
    destruct (is_HTTPError e); apply deactivate_except_appends.
  - intros s s1 Htry. unfold pwd_expire_body, try_except. rewrite Htry.
    destruct (is_HTTPError e); apply pwd_expire_except_appends.
Qed.

Lemma appended_to_same_l (b : bucket) (k : string) (s s1 s' : state) :
  same_buckets s s1 → appended_to b k s1 s' → appended_to b k s s'.
Proof. intros Hs Ha b'. rewrite (Ha b'), !Hs. done. Qed.

Lemma insert_handlers_ok (k : string) (e : exn) (s : state) :
  (if is_HTTPError e then insert_except_HTTPError R k e s
   else insert_except_Exception R k e s).1 = Ok tt.
Proof.
  unfold insert_except_HTTPError, insert_except_Exception.
  destruct (is_HTTPError e); repeat (destruct (Str.contains _ _)); reflexivity.
Qed.

Lemma insert_category_failure (e : exn) : insert_category e ≠ inserts_succeeded.
Proof. unfold insert_category. repeat case_match; discriminate. Qed.

Lemma insert_category_elem (e : exn) :
  insert_category e
  ∈ [inserts_succeeded; inserts_skipped; inserts_failed; inserts_failed_to_link_person].
Proof. unfold insert_category. repeat case_match; set_solver. Qed.

(** The [try] statement of the inserts loop. *)
Lemma insert_try_except S' group (k : string) (s : state) :
  let r := try_except R (insert_try R today S' group k)
             (insert_except_HTTPError R k) (insert_except_Exception R k) s in
  r.1 = Ok tt ∧
  match insert_try R today S' group k s with
  | (Ok _, _) => appended_to inserts_succeeded k s r.2
  | (Raise e, _) => appended_to (insert_category e) k s r.2
  end.
Proof.
  cbv zeta. unfold try_except.
  pose proof (insert_try_buckets S' group k s) as Htry.
  destruct (insert_try R today S' group k s) as [[[]|e] s1].
  - done.
  - split; [apply insert_handlers_ok|].
    eapply appended_to_same_l; [done|]. apply insert_handlers.
Qed.

Lemma update_try_except S (k : string) (s : state) :
  (update_body R S k s).1 = Ok tt ∧
  match update_try R S k s with
  | (Ok _, _) => appended_to updates_succeeded k s (update_body R S k s).2
                 ∨ same_buckets s (update_body R S k s).2
  | (Raise e, _) => appended_to updates_failed k s (update_body R S k s).2
  end.
Proof.
  unfold update_body, try_except.
  pose proof (update_try_buckets S k s) as Htry.
  destruct (update_try R S k s) as [[[]|e] s1].
  - done.
  - split; [by destruct (is_HTTPError e)|].
    eapply appended_to_same_l; [done|].
    destruct (is_HTTPError e); apply update_except_appends.
Qed.

Lemma pwd_expire_try_except (k : string) (s : state) :
  (pwd_expire_body R k s).1 = Ok tt ∧
  match pwd_expire_try R k s with
  | (Ok _, _) => appended_to pwd_expire_succeeded k s (pwd_expire_body R k s).2
  | (Raise e, _) => appended_to pwd_expire_failed k s (pwd_expire_body R k s).2
  end.
Proof.
  unfold pwd_expire_body, try_except.
  pose proof (pwd_expire_try_buckets k s) as Htry.
  destruct (pwd_expire_try R k s) as [[[]|e] s1].
  - done.
  - split; [by destruct (is_HTTPError e)|].
    eapply appended_to_same_l; [done|].
    destruct (is_HTTPError e); apply pwd_expire_except_appends.
Qed.

(** *** Whole loops *)

Lemma for_each_cons {A} (x : A) (l : list A) (body : A → M unit) (s : state) :
  (body x s).1 = Ok tt →
  for_each R (x :: l) body s = for_each R l body (body x s).2.
Proof.
  intros Hok. simpl. unfold bind. destruct (body x s) as [[[]|e] s1]; [done|].
  discriminate.
Qed.

(** A loop whose body never raises runs to its end, and a relation on the
    list of the keys done so far that each round extends holds at the end. *)
Lemma for_each_ind (I : list string → state → Prop) (body : string → M unit)
    (l : list string) (s : state) :
  (∀ k s, (body k s).1 = Ok tt) →
  (∀ done k rest s, l = done ++ k :: rest → I done s → I (done ++ [k]) (body k s).2) →
  I [] s →
  (for_each R l body s).1 = Ok tt ∧ I l (for_each R l body s).2.
Proof.
  intros Hok Hstep.
  assert (∀ rest done s, done ++ rest = l → I done s →
            (for_each R rest body s).1 = Ok tt
            ∧ I l (for_each R rest body s).2) as Hgen.
  { induction rest as [|k rest IH]; intros done s0 Hl HI.
    - rewrite app_nil_r in Hl. subst. done.
    - rewrite for_each_cons by apply Hok.
      apply (IH (done ++ [k])).
      + by rewrite <- app_assoc.
      + by apply (Hstep done k rest). }
  intros HI. by apply (Hgen l []).
Qed.

Lemma appended_insert_outcomes (b : bucket) (k : string) (s s' : state) :
  b ∈ [inserts_succeeded; inserts_skipped; inserts_failed; inserts_failed_to_link_person] →
  appended_to b k s s' → insert_outcomes s' ≡ₚ insert_outcomes s ++ [k].
Proof.
  intros Hb Ha. unfold insert_outcomes. rewrite !Ha.
  repeat (apply elem_of_cons in Hb as [->|Hb]); [..|by apply elem_of_nil in Hb];
    cbn; solve_Permutation.
Qed.

Lemma insert_body_outcome S' group (k : string) (s : state) :
  (insert_body R today S' group k s).1 = Ok tt
  ∧ ∃ b, b ∈ [inserts_succeeded; inserts_skipped; inserts_failed;
              inserts_failed_to_link_person]
         ∧ appended_to b k s (insert_body R today S' group k s).2.
Proof.
  set (s0 := State (world s) (calls s)
               (log s ++ [LogRecord DEBUG ("Processing insert for " +:+ k)])
               (planon_accounts s) (buckets s)).
  change (insert_body R today S' group k s)
    with (try_except R (insert_try R today S' group k)
            (insert_except_HTTPError R k) (insert_except_Exception R k) s0).
  destruct (insert_try_except S' group k s0) as [Hok Hb].
  split; [done|].
  destruct (insert_try R today S' group k s0) as [[[]|e] s1].
  - exists inserts_succeeded. split; [set_solver|]. done.
  - exists (insert_category e). split; [apply insert_category_elem|done].
Qed.

Lemma inserts_section_outcomes S' group (s : state) :
  let r := inserts_section R order today S' group s in
  r.1 = Ok tt ∧ insert_outcomes r.2 ≡ₚ order (inserts S' (planon_accounts s)).
Proof.
  cbv zeta. unfold inserts_section, bind, assign, get_planon_accounts, log_info, log_.
  cbn [world calls log planon_accounts buckets].
  set (s0 := State _ _ _ _ _).
  apply (for_each_ind (λ done s1, insert_outcomes s1 ≡ₚ done)).
  - intros k s1. apply insert_body_outcome.
  - intros done k rest s1 _ HI.
    destruct (insert_body_outcome S' group k s1) as (_ & b & Hb & Ha).
    rewrite (appended_insert_outcomes b k s1 _ Hb Ha). by rewrite HI.
  - done.
Qed.

Lemma pwd_expires_section_outcomes (s : state) accounts w :
  Account_find R account_filter_pwd (world s) = (Ok accounts, w) →
  let r := pwd_expires_section R order s in
  r.1 = Ok tt
  ∧ pwd_expire_outcomes r.2 ≡ₚ order (pwd_expires (dict_comp account_key accounts)).
Proof.
  intros Hfind. cbv zeta.
  unfold pwd_expires_section, bind, assign, remote, log_info, log_.
  cbn [world calls log planon_accounts buckets]. rewrite Hfind.
  cbn [world calls log planon_accounts buckets].
  set (s0 := State _ _ _ _ _).
  apply (for_each_ind (λ done s1, pwd_expire_outcomes s1 ≡ₚ done)).
  - intros k s1. apply pwd_expire_try_except.
  - intros done k rest s1 _ HI.
    destruct (pwd_expire_try_except k s1) as [_ Ha].
    unfold pwd_expire_outcomes in *.
    destruct (pwd_expire_try R k s1) as [[[]|e] s2]; rewrite !Ha; cbn;
      rewrite <- HI; solve_Permutation.
  - done.
Qed.

Lemma updates_loop_outcomes S (s : state) :
  update_outcomes s = [] →
  let r := updates_loop R order S s in
  r.1 = Ok tt ∧ update_outcomes r.2 ⊆+ order (updates (planon_accounts s) S).
Proof.
  intros Hnil. cbv zeta. unfold updates_loop, bind, get_planon_accounts.
  apply (for_each_ind (λ done s1, update_outcomes s1 ⊆+ done)).
  - intros k s1. apply update_try_except.
  - intros done k rest s1 _ HI.
    destruct (update_try_except S k s1) as [_ Ha].
    unfold update_outcomes in *.
    destruct (update_try R S k s1) as [[[]|e] s2]; [destruct Ha as [Ha|Ha]|];
      rewrite !Ha; repeat case_decide; try done.
    + trans ((buckets s1 updates_succeeded ++ buckets s1 updates_failed) ++ [k]).
      * apply Permutation_submseteq. solve_Permutation.
      * by apply submseteq_app.
    + by apply submseteq_inserts_r.
    + rewrite (assoc_L (++)). by apply submseteq_app.
  - by rewrite Hnil.
Qed.

(** The updates round for a key that both dictionaries have. *)
Lemma update_body_unfold S (k : string) (s : state) (p : person) (a : Account.t) :
  S !! k = Some p → planon_accounts s !! k = Some a →
  update_body R S k s
  = try_except R
      (if decide (Some (name p) ≠ Account.Description a) then
         bind R (setattr R k (Account.set_Description (Some (name p)) a)) (λ _,
         bind R (remote R (Call_Account_save (Account.set_Description (Some (name p)) a))
                          (Account_save R (Account.set_Description (Some (name p)) a)))
                (λ saved,
         bind R (append R updates_succeeded k) (λ _,
         log_info R ("Displayname " +:+ format_opt (Account.Description saved)
                     +:+ " updated for " +:+ Account.Accountname saved))))
       else
         log_debug R ("Displayname " +:+ format_opt (Account.Description a) +:+ " matches for "
                      +:+ Account.Accountname a +:+ ", no update required"))
      (update_except R k) (update_except R k) s.
Proof.
  intros Hp Ha.
  unfold update_body, try_except, update_try, getitem, get_planon_accounts.
  rewrite Hp. unfold bind at 1. unfold ret at 1. unfold bind at 1. unfold bind at 1.
  rewrite Ha. unfold ret at 1. reflexivity.
Qed.

Lemma update_body_outcome S (k : string) (s : state) (p : person) (a : Account.t) :
  S !! k = Some p → planon_accounts s !! k = Some a →
  let s' := (update_body R S k s).2 in
  if decide (Some (name p) = Account.Description a) then same_buckets s s'
  else match Account_save R (Account.set_Description (Some (name p)) a) (world s) with
       | (Ok _, _) => appended_to updates_succeeded k s s'
       | (Raise _, _) => appended_to updates_failed k s s'
       end.
Proof.
  intros Hp Ha s'. subst s'. rewrite (update_body_unfold S k s p a Hp Ha).
  unfold try_except.
  destruct (decide (Some (name p) = _)) as [Heq|Hne].
  - destruct (decide (Some (name p) ≠ _)) as [Hn|_]; [by destruct Hn|]. by intros b.
  - destruct (decide (Some (name p) ≠ _)) as [_|Hn]; [|by destruct Hn].
    unfold bind, remote, setattr, append, log_info, log_.
    cbn [world calls log planon_accounts buckets].
    destruct (Account_save R _ _) as [[saved|e] w1].
    + by intros b.
    + destruct (is_HTTPError e); by intros b.
Qed.

Lemma deactivate_body_save_fails (k : string) (s : state) (a : Account.t) e w :
  planon_accounts s !! k = Some a →
  Account_save R (Account.set_EndDate (Some today) a) (world s) = (Raise e, w) →
  appended_to deactivates_failed k s (deactivate_body R today k s).2.
Proof.
  intros Ha Hsave.
  unfold deactivate_body, try_except, deactivate_try, getitem, get_planon_accounts.
  unfold bind, log_debug, log_, ret, setattr, remote.
  cbn [world calls log planon_accounts buckets]. rewrite Ha.
  cbn [world calls log planon_accounts buckets]. rewrite Hsave.
  destruct (is_HTTPError e); by intros b.
Qed.

Lemma deactivate_body_missing (k : string) (s : state) :
  planon_accounts s !! k = None →
  appended_to deactivates_failed k s (deactivate_body R today k s).2.
Proof.
  intros Ha.
  unfold deactivate_body, try_except, deactivate_try, getitem, get_planon_accounts.
  unfold bind, log_debug, log_, ret.
  cbn [world calls log planon_accounts buckets]. rewrite Ha.
  by intros b.
Qed.

(** The log call after [deactivates_succeeded.append] raises, so a key
    whose save went through is put on both lists of the deactivates loop. *)
Lemma deactivate_body_saved (k : string) (s : state) (a saved : Account.t) w :
  planon_accounts s !! k = Some a →
  Account_save R (Account.set_EndDate (Some today) a) (world s) = (Ok saved, w) →
  let s' := (deactivate_body R today k s).2 in
  buckets s' deactivates_succeeded = buckets s deactivates_succeeded ++ [k]
  ∧ buckets s' deactivates_failed = buckets s deactivates_failed ++ [k].
Proof.
  intros Ha Hsave.
  unfold deactivate_body, try_except, deactivate_try, getitem, get_planon_accounts.
  unfold bind, log_debug, log_, ret, setattr, remote.
  cbn [world calls log planon_accounts buckets]. rewrite Ha.
  cbn [world calls log planon_accounts buckets]. rewrite Hsave.
  done.
Qed.

(** C5 (as the code has it).  Inserts: the [try] statement appends the key to
    exactly one of the four lists of the loop, [inserts_succeeded] when the
    [try] block completes and a failure list otherwise, and after the section
    the four lists together hold the keys of ToInsert, each once.
    Pwd_expires: the same with the two lists of that loop.  Updates: a key
    whose display name already matches is appended to no list; otherwise it
    goes to [updates_succeeded] when the save returns and to [updates_failed]
    when it raises; over the loop no key is appended twice.  Deactivates: a
    key whose account is missing or whose save raises is appended to
    [deactivates_failed] only. *)
Theorem one_outcome_per_key :
  (∀ S' group (k : string) (s : state),
     let r := try_except R (insert_try R today S' group k)
                (insert_except_HTTPError R k) (insert_except_Exception R k) s in
     match insert_try R today S' group k s with
     | (Ok _, _) => appended_to inserts_succeeded k s r.2
     | (Raise e, _) =>
         appended_to (insert_category e) k s r.2 ∧ insert_category e ≠ inserts_succeeded
     end)
  ∧ (∀ S' group (s : state),
       let r := inserts_section R order today S' group s in
       r.1 = Ok tt ∧ insert_outcomes r.2 ≡ₚ order (inserts S' (planon_accounts s)))
  ∧ (∀ (k : string) (s : state),
       match pwd_expire_try R k s with
       | (Ok _, _) => appended_to pwd_expire_succeeded k s (pwd_expire_body R k s).2
       | (Raise _, _) => appended_to pwd_expire_failed k s (pwd_expire_body R k s).2
       end)
  ∧ (∀ (s : state) accounts w,
       Account_find R account_filter_pwd (world s) = (Ok accounts, w) →
       let r := pwd_expires_section R order s in
       r.1 = Ok tt
       ∧ pwd_expire_outcomes r.2 ≡ₚ order (pwd_expires (dict_comp account_key accounts)))
  ∧ (∀ S (k : string) (s : state) p a,
       S !! k = Some p → planon_accounts s !! k = Some a →
       let s' := (update_body R S k s).2 in
       if decide (Some (name p) = Account.Description a) then same_buckets s s'
       else match Account_save R (Account.set_Description (Some (name p)) a) (world s) with
            | (Ok _, _) => appended_to updates_succeeded k s s'
            | (Raise _, _) => appended_to updates_failed k s s'
            end)
  ∧ (∀ S (s : state),
       update_outcomes s = [] →
       let r := updates_loop R order S s in
       r.1 = Ok tt ∧ update_outcomes r.2 ⊆+ order (updates (planon_accounts s) S))
  ∧ (∀ (k : string) (s : state) a e w,
       planon_accounts s !! k = Some a →
       Account_save R (Account.set_EndDate (Some today) a) (world s) = (Raise e, w) →
       appended_to deactivates_failed k s (deactivate_body R today k s).2)
  ∧ (∀ (k : string) (s : state),
       planon_accounts s !! k = None →
       appended_to deactivates_failed k s (deactivate_body R today k s).2).
Proof.
  split_and!.
  - intros S' group k s. cbv zeta.
    destruct (insert_try_except S' group k s) as [_ H].
    destruct (insert_try R today S' group k s) as [[[]|e] s1]; [done|].
    split; [done|apply insert_category_failure].
  - apply inserts_section_outcomes.
  - intros k s. apply pwd_expire_try_except.
  - apply pwd_expires_section_outcomes.
  - apply update_body_outcome.
  - apply updates_loop_outcomes.
  - apply deactivate_body_save_fails.
  - apply deactivate_body_missing.
Qed.

(** ** Keys: dictionaries built by comprehension, and [str.lower] *)

Lemma dict_comp_dom_acc {A} (key : A → string) (l : list A) (d : gmap string A)
    (k : string) :
  k ∈ dom (foldl (λ d x, <[key x := x]> d) d l) ↔ k ∈ dom d ∨ ∃ x, x ∈ l ∧ key x = k.
Proof.
  revert d. induction l as [|x l IH]; intros d; simpl.
  - split; [by left|]. intros [?|(x & Hx & _)]; [done|]. by apply elem_of_nil in Hx.
  - rewrite IH, dom_insert, elem_of_union, elem_of_singleton. split.
    + intros [[->|?]|(y & Hy & <-)].
      * right. exists x. split; [by left|done].
      * by left.
      * right. exists y. split; [by right|done].
    + intros [?|(y & Hy & <-)]; [by left; right|].
      apply elem_of_cons in Hy as [->|Hy]; [by left; left|].
      right. by exists y.
Qed.

Lemma dict_comp_dom {A} (key : A → string) (l : list A) (k : string) :
  k ∈ dom (dict_comp key l) ↔ ∃ x, x ∈ l ∧ key x = k.
Proof.
  unfold dict_comp. rewrite dict_comp_dom_acc, dom_empty.
  split; [|by right]. intros [Hk|?]; [|done]. by apply not_elem_of_empty in Hk.
Qed.

(** Every entry of a dictionary built by comprehension sits under its key. *)
Lemma dict_comp_lookup {A} (key : A → string) (l : list A) (k : string) (x : A) :
  dict_comp key l !! k = Some x → x ∈ l ∧ key x = k.
Proof.
  unfold dict_comp.
  assert (∀ d : gmap string A,
            (∀ k x, d !! k = Some x → x ∈ l ∧ key x = k) →
            ∀ l', l' ⊆ l →
            foldl (λ d x, <[key x := x]> d) d l' !! k = Some x → x ∈ l ∧ key x = k)
    as Hgen.
  { intros d Hd l'. revert d Hd. induction l' as [|y l' IH]; intros d Hd Hsub; simpl.
    - apply Hd.
    - apply IH; [|intros z Hz; apply Hsub; by right].
      intros k' x'. rewrite lookup_insert. case_decide.
      + intros ?. simplify_eq. split; [|done]. apply Hsub. by left.
      + apply Hd. }
  apply (Hgen ∅); [|done]. intros k' x'. by rewrite lookup_empty.
Qed.

(** A string with one of the letters A to Z is the lower-casing of no
    string. *)
Lemma has_upper_not_lower (k s : string) :
  Str.has_ascii_upper k = true → k ≠ str_lower s.
Proof. intros Hk ->. by rewrite str_lower_no_ascii_upper in Hk. Qed.

Lemma snapshot_keys_lower (accounts : list Account.t) (k : string) :
  k ∈ dom (dict_comp account_key accounts) → Str.has_ascii_upper k = false.
Proof.
  rewrite dict_comp_dom. intros (a & _ & <-). apply str_lower_no_ascii_upper.
Qed.

Lemma elem_of_inserts (people' : list person) (accounts : list Account.t) (k : string) :
  k ∈ inserts (dict_comp netid (filter eligible people')) (dict_comp account_key accounts)
  ↔ (∃ p, p ∈ people' ∧ eligible p ∧ netid p = k)
    ∧ ¬ ∃ a, a ∈ accounts ∧ str_lower (Account.Accountname a) = k.
Proof.
  unfold inserts. rewrite elem_of_difference, !dict_comp_dom.
  split; intros [(p & Hp) Hn]; (split; [|done]).
  - destruct Hp as [Hp <-]. apply list_elem_of_filter in Hp as [??]. by exists p.
  - destruct Hp as (Hp & He & <-). exists p. split; [|done].
    by apply list_elem_of_filter.
Qed.

Lemma elem_of_updates (people : list person) (accounts : list Account.t) (k : string) :
  k ∈ updates (dict_comp account_key accounts) (dict_comp netid people)
  ↔ (∃ a, a ∈ accounts ∧ str_lower (Account.Accountname a) = k)
    ∧ ∃ p, p ∈ people ∧ netid p = k.
Proof. unfold updates. by rewrite elem_of_intersection, !dict_comp_dom. Qed.

Lemma elem_of_deactivates (people : list person) (accounts : list Account.t)
    (json : list exclude) (k : string) :
  k ∈ deactivates (dict_comp account_key accounts) (dict_comp netid people)
        (load_excludes json)
  ↔ (∃ a, a ∈ accounts ∧ str_lower (Account.Accountname a) = k)
    ∧ (¬ ∃ p, p ∈ people ∧ netid p = k)
    ∧ ¬ ∃ x, x ∈ json ∧ account_name x = k.
Proof.
  unfold deactivates, load_excludes.
  rewrite !elem_of_difference, !dict_comp_dom. tauto.
Qed.

(** ** The sections of a run *)

Lemma inserts_section_loop S' group (s : state) :
  ∃ s1, world s1 = world s ∧ calls s1 = calls s
        ∧ planon_accounts s1 = planon_accounts s
        ∧ insert_outcomes s1 = []
        ∧ inserts_section R order today S' group s
          = for_each R (order (inserts S' (planon_accounts s)))
              (insert_body R today S' group) s1.
Proof.
  unfold inserts_section, bind, assign, get_planon_accounts, log_info, log_.
  cbn [world calls log planon_accounts buckets].
  eexists (State _ _ _ _ _). split_and!. 5: reflexivity. all: done.
Qed.

Lemma fetch_planon_accounts_Ok (s : state) accounts w :
  Account_find R account_filter (world s) = (Ok accounts, w) →
  fetch_planon_accounts R s
  = (Ok tt, State w (calls s ++ [Call_Account_find account_filter]) (log s)
                  (dict_comp account_key accounts) (buckets s)).
Proof.
  intros Hfind. unfold fetch_planon_accounts, bind, remote. by rewrite Hfind.
Qed.

Lemma fetch_planon_accounts_inv (s s' : state) :
  fetch_planon_accounts R s = (Ok tt, s') →
  ∃ accounts,
    Account_find R account_filter (world s) = (Ok accounts, world s')
    ∧ calls s' = calls s ++ [Call_Account_find account_filter]
    ∧ log s' = log s
    ∧ planon_accounts s' = dict_comp account_key accounts
    ∧ buckets s' = buckets s.
Proof.
  unfold fetch_planon_accounts, bind, remote.
  destruct (Account_find R account_filter (world s)) as [[accounts|e] w];
    [|discriminate].
  unfold set_planon_accounts. cbn [world calls log planon_accounts buckets].
  intros ?. simplify_eq. by exists accounts.
Qed.

Lemma updates_section_loop S (s : state) accounts w :
  Account_find R account_filter (world s) = (Ok accounts, w) →
  ∃ s1, world s1 = w ∧ calls s1 = calls s ++ [Call_Account_find account_filter]
        ∧ planon_accounts s1 = dict_comp account_key accounts
        ∧ update_outcomes s1 = []
        ∧ updates_section R order S s
          = for_each R (order (updates (dict_comp account_key accounts) S))
              (update_body R S) s1.
Proof.
  intros Hfind.
  unfold updates_section, bind at 1, assign at 1, bind at 1, assign at 1, bind at 1.
  rewrite (fetch_planon_accounts_Ok _ accounts w) by done.
  unfold updates_loop, bind, get_planon_accounts.
  cbn [world calls log planon_accounts buckets].
  eexists (State _ _ _ _ _). split_and!. 5: reflexivity. all: done.
Qed.

Lemma deactivates_section_loop S E (s : state) :
  ∃ s1, world s1 = world s ∧ calls s1 = calls s
        ∧ planon_accounts s1 = planon_accounts s
        ∧ deactivates_section R order today S E s
          = for_each R (order (deactivates (planon_accounts s) S E))
              (deactivate_body R today) s1.
Proof.
  unfold deactivates_section, bind, assign, get_planon_accounts, log_info, log_.
  cbn [world calls log planon_accounts buckets].
  eexists (State _ _ _ _ _). split_and!. 4: reflexivity. all: done.
Qed.

Lemma pwd_expires_section_loop (s : state) accounts w :
  Account_find R account_filter_pwd (world s) = (Ok accounts, w) →
  ∃ s1, world s1 = w ∧ calls s1 = calls s ++ [Call_Account_find account_filter_pwd]
        ∧ planon_accounts s1 = planon_accounts s
        ∧ pwd_expire_outcomes s1 = []
        ∧ pwd_expires_section R order s
          = for_each R (order (pwd_expires (dict_comp account_key accounts)))
              (pwd_expire_body R) s1.
Proof.
  intros Hfind.
  unfold pwd_expires_section, bind, assign, remote, log_info, log_.
  cbn [world calls log planon_accounts buckets]. rewrite Hfind.
  cbn [world calls log planon_accounts buckets].
  eexists (State _ _ _ _ _). split_and!. 5: reflexivity. all: done.
Qed.

(** A run whose four sections complete: what was fetched, and the states
    between the sections. *)
Lemma passes_inv (json : list exclude) (s0 s_end : state) :
  passes R order today json s0 = (Ok tt, s_end) →
  ∃ people people' groups group accounts w1 w2 w3 (s1 s2 s3 s4 : state),
    utils_get_people R (world s0) = (Ok people, w1)
    ∧ utils_get_people R w1 = (Ok people', w2)
    ∧ AccountGroup_find R w2 = (Ok groups, w3)
    ∧ dict_comp AccountGroup.Description groups !! "DC - Requestors" = Some group
    ∧ Account_find R account_filter w3 = (Ok accounts, world s1)
    ∧ planon_accounts s1 = dict_comp account_key accounts
    ∧ calls s1 = calls s0 ++ [Call_get_people; Call_get_people; Call_AccountGroup_find;
                              Call_Account_find account_filter]
    ∧ inserts_section R order today (dict_comp netid (filter eligible people')) group s1
      = (Ok tt, s2)
    ∧ updates_section R order (dict_comp netid people) s2 = (Ok tt, s3)
    ∧ deactivates_section R order today (dict_comp netid people) (load_excludes json) s3
      = (Ok tt, s4)
    ∧ pwd_expires_section R order s4 = (Ok tt, s_end).
Proof.
  unfold passes. intros H.
  apply bind_Ok_inv in H as ([S S'] & sa & Hsrc & H).
  apply bind_Ok_inv in H as (group & s1 & Htgt & H).
  apply bind_Ok_inv in H as ([] & s2 & Hins & H).
  apply bind_Ok_inv in H as ([] & s3 & Hupd & H).
  apply bind_Ok_inv in H as ([] & s4 & Hdea & Hpwd).
  cbn [fst snd] in *.
  unfold cache_dart_people, bind, remote, log_info, log_, ret in Hsrc.
  cbn [world calls log planon_accounts buckets] in Hsrc.
  destruct (utils_get_people R (world s0)) as [[people|?] w1] eqn:Hp1; [|discriminate].
  cbn [world calls log planon_accounts buckets] in Hsrc.
  destruct (utils_get_people R w1) as [[people'|?] w2] eqn:Hp2; [|discriminate].
  simplify_eq.
  unfold cache_planon, bind at 1, log_info, log_ at 1, bind at 1, remote at 1 in Htgt.
  cbn [world calls log planon_accounts buckets] in Htgt.
  destruct (AccountGroup_find R w2) as [[groups|?] w3] eqn:Hgr; [|discriminate].
  unfold bind at 1, getitem in Htgt.
  destruct (dict_comp AccountGroup.Description groups !! "DC - Requestors")
    as [g|] eqn:Hg; [|discriminate].
  unfold ret at 1, bind at 1, log_debug, log_ at 1, bind at 1 in Htgt.
  destruct (fetch_planon_accounts R _) as [[[]|?] sb] eqn:Hfetch; [|discriminate].
  apply fetch_planon_accounts_inv in Hfetch
    as (accounts & Hfind & Hcalls & _ & Haccs & _).
  cbn [world calls log planon_accounts buckets] in Hfind, Hcalls.
  unfold bind, get_planon_accounts, log_, ret in Htgt. simplify_eq.
  exists people, people', groups, group, accounts, w1, w2, w3.
  eexists _, s2, s3, s4.
  split_and!; [done|done|done|done| | | |exact Hins|done|done|done].
  - exact Hfind.
  - exact Haccs.
  - cbn [calls]. rewrite Hcalls. by rewrite <- !app_assoc.
Qed.

Lemma updates_section_find (S : gmap string person) (s s' : state) :
  updates_section R order S s = (Ok tt, s') →
  ∃ accounts w, Account_find R account_filter (world s) = (Ok accounts, w).
Proof.
  unfold updates_section, bind at 1, assign at 1, bind at 1, assign at 1, bind at 1.
  unfold fetch_planon_accounts, bind at 1, remote.
  cbn [world calls log planon_accounts buckets].
  destruct (Account_find R account_filter (world s)) as [[accounts|e] w];
    [eauto | discriminate].
Qed.


(** ** The insert action *)

(** C7.  For a key [k] of ToInsert the insert action first calls
    [Account.create] with account name [k], the display name of the roster
    entry of [k], the run date as begin date and password-never-expires set;
    when that returns an account it calls [AccountAccountGroup.create] for
    the requestor group and that account; when that returns it looks persons
    up by [FreeString7 = k]; a person link is created only when the lookup
    returns exactly one person.  When the lookup returns no person or several,
    nothing more is called (the account and its group link stay as created),
    and [k] goes to [inserts_failed_to_link_person].  In a run, the group
    handed to the inserts section is the account group that Planon lists
    under the description "DC - Requestors". *)
Theorem insert_action (S' : gmap string person) (T : gmap string Account.t)
    (group : AccountGroup.t) (k : string) (s : state) :
  k ∈ inserts S' T →
  (∃ p, S' !! k = Some p ∧
  let values := {| Account.v_Accountname := k;
                   Account.v_Description := name p;
                   Account.v_BeginDate := strftime_Ymd today;
                   Account.v_PasswordNeverExpires := true |} in
  let s' := (insert_body R today S' group k s).2 in
  match Account_create R values (world s) with
  | (Raise _, _) => calls s' = calls s ++ [Call_Account_create values]
  | (Ok account, w1) =>
    let link := {| AccountAccountGroup.AccountGroupRef := AccountGroup.Syscode group;
                   AccountAccountGroup.AccountRef := Account.Syscode account |} in
    match AccountAccountGroup_create R link w1 with
    | (Raise _, _) =>
        calls s' = calls s ++ [Call_Account_create values;
                               Call_AccountAccountGroup_create link]
    | (Ok _, w2) =>
      match UsrPerson_find R (person_filter k) w2 with
      | (Raise _, _) =>
          calls s' = calls s ++ [Call_Account_create values;
                                 Call_AccountAccountGroup_create link;
                                 Call_UsrPerson_find (person_filter k)]
      | (Ok [planon_person], w3) =>
          let plink := {| AccountPerson.PersonRef := UsrPerson.Syscode planon_person;
                          AccountPerson.AccountRef := Account.Syscode account |} in
          calls s' = calls s ++ [Call_Account_create values;
                                 Call_AccountAccountGroup_create link;
                                 Call_UsrPerson_find (person_filter k);
                                 Call_AccountPerson_create plink]
          ∧ ∀ w4, AccountPerson_create R plink w3 = (Ok tt, w4) →
                  world s' = w4 ∧ appended_to inserts_succeeded k s s'
      | (Ok _, w3) =>
          calls s' = calls s ++ [Call_Account_create values;
                                 Call_AccountAccountGroup_create link;
                                 Call_UsrPerson_find (person_filter k)]
          ∧ world s' = w3
          ∧ appended_to inserts_failed_to_link_person k s s'
      end
    end
  end)
  ∧ (∀ (json : list exclude) (s0 s_end : state),
       passes R order today json s0 = (Ok tt, s_end) →
       ∃ (groups : list AccountGroup.t) (requestors : AccountGroup.t)
         (S'' : gmap string person) w w' (s1 s2 : state),
         AccountGroup_find R w = (Ok groups, w')
         ∧ requestors ∈ groups
         ∧ AccountGroup.Description requestors = "DC - Requestors"
         ∧ inserts_section R order today S'' requestors s1 = (Ok tt, s2)).
Proof.
  intros Hk. split; cycle 1.
  { intros json s0 s_end Hrun.
    apply passes_inv in Hrun
      as (people & people' & groups & group' & accounts & w1 & w2 & w3
          & sa & s2 & s3 & s4 & _ & _ & Hgr & Hreq & _ & _ & _ & Hins & _).
    apply dict_comp_lookup in Hreq as [Hin Hdesc].
    by exists groups, group', (dict_comp netid (filter eligible people')), w2, w3, sa, s2. }
  unfold inserts in Hk. apply elem_of_difference in Hk as [Hk _].
  apply elem_of_dom in Hk as [p Hp]. exists p. split; [done|].
  cbv zeta.
  unfold insert_body, insert_try, insert_values, getitem. rewrite Hp.
  unfold try_except, bind, remote, ret, log_debug, log_info, log_, append.
  cbn [world calls log planon_accounts buckets].
  destruct (Account_create R _ (world s)) as [[account|e] w1]; cbn.
  2: { destruct (is_HTTPError e); unfold insert_except_HTTPError, insert_except_Exception;
       repeat case_match; reflexivity. }
  destruct (AccountAccountGroup_create R _ w1) as [[[]|e] w2]; cbn.
  2: { rewrite <- app_assoc.
       destruct (is_HTTPError e); unfold insert_except_HTTPError, insert_except_Exception;
       repeat case_match; reflexivity. }
  destruct (UsrPerson_find R _ w2) as [[found|e] w3]; cbn.
  2: { rewrite <- !app_assoc.
       destruct (is_HTTPError e); unfold insert_except_HTTPError, insert_except_Exception;
       repeat case_match; reflexivity. }
  destruct found as [|planon_person [|other found]]; cbn.
  - rewrite <- !app_assoc. split; [done|]. split; [done|]. intros b. reflexivity.
  - destruct (AccountPerson_create R _ w3) as [[[]|e] w4] eqn:Hlink; cbn.
    + rewrite <- !app_assoc. split; [done|]. intros w4' ?. simplify_eq.
      split; [done|]. intros b. reflexivity.
    + rewrite <- !app_assoc. split; [|intros; discriminate].
      destruct (is_HTTPError e); unfold insert_except_HTTPError, insert_except_Exception;
        repeat case_match; reflexivity.
  - rewrite <- !app_assoc. split; [done|]. split; [done|]. intros b. reflexivity.
Qed.

(** ** Keys and case *)

(** C10 (as the code has it).  The keys of an account snapshot are the
    lower-cased account names; the keys of the roster are the netids and the
    keys of the exclusion registry the [account_name]s, both as they are.  A
    string in which one of the letters A to Z occurs is the lower-casing of no
    string.  A key that is the lower-casing of no string is never in
    ToUpdate; the netid of an eligible person that is such a key is in
    ToInsert whatever accounts exist; and an exclusion entry whose
    [account_name] is such a key removes nothing from ToDeactivate. *)
Theorem one_sided_case_normalization (people people' : list person)
    (accounts : list Account.t) (json : list exclude) :
  let S := dict_comp netid people in
  let S' := dict_comp netid (filter eligible people') in
  let T := dict_comp account_key accounts in
  let E := load_excludes json in
  (∀ k, k ∈ dom T ↔ ∃ a, a ∈ accounts ∧ str_lower (Account.Accountname a) = k)
  ∧ (∀ k, k ∈ dom S ↔ ∃ p, p ∈ people ∧ netid p = k)
  ∧ (∀ k, k ∈ dom E ↔ ∃ x, x ∈ json ∧ account_name x = k)
  ∧ (∀ k, Str.has_ascii_upper k = true → ∀ n, str_lower n ≠ k)
  ∧ (∀ k, (∀ n, str_lower n ≠ k) → k ∉ updates T S)
  ∧ (∀ p, p ∈ people' → eligible p → (∀ n, str_lower n ≠ netid p) →
          netid p ∈ inserts S' T)
  ∧ (∀ x, x ∈ json → (∀ n, str_lower n ≠ account_name x) →
          deactivates T S E = deactivates T S (delete (account_name x) E)).
Proof.
  cbv zeta.
  assert (∀ k, (∀ n, str_lower n ≠ k) → k ∉ dom (dict_comp account_key accounts))
    as Hout.
  { intros k Hk Hin. apply dict_comp_dom in Hin as (a & _ & Ha). by apply (Hk _ Ha). }
  split_and!.
  - intros k. apply dict_comp_dom.
  - intros k. apply dict_comp_dom.
  - intros k. apply dict_comp_dom.
  - intros k Hk n. apply not_eq_sym. by apply has_upper_not_lower.
  - intros k Hk Hin. unfold updates in Hin. apply elem_of_intersection in Hin as [Hin _].
    by apply (Hout k Hk).
  - intros p Hp He Hk. apply elem_of_inserts. split; [by exists p|].
    intros (a & _ & Ha). by apply (Hk _ Ha).
  - intros x _ Hk. unfold deactivates. apply set_eq. intros k.
    rewrite !elem_of_difference, dom_delete, elem_of_difference, elem_of_singleton.
    split; [tauto|]. intros ((HT & HS) & HE). split; [done|]. intros Hin. apply HE.
    split; [done|]. intros ->. by apply (Hout _ Hk).
Qed.

(** ** The deactivates loop *)

Lemma order_NoDup (X : gset string) : NoDup (order X).
Proof. rewrite (iter_perm order X). apply NoDup_elements. Qed.

Lemma elem_of_order (X : gset string) (k : string) : k ∈ order X ↔ k ∈ X.
Proof. rewrite (iter_perm order X). apply elem_of_elements. Qed.

(** One round of the deactivates loop: it never raises; when the key has an
    account, the end date of that account object is set and the object is
    saved (one call), whether the save returns or raises. *)
Lemma deactivate_body_effect (k : string) (s : state) :
  let r := deactivate_body R today k s in
  r.1 = Ok tt
  ∧ match planon_accounts s !! k with
    | Some a =>
        let a' := Account.set_EndDate (Some today) a in
        calls r.2 = calls s ++ [Call_Account_save a']
        ∧ planon_accounts r.2 = <[k := a']> (planon_accounts s)
    | None => calls r.2 = calls s ∧ planon_accounts r.2 = planon_accounts s
    end.
Proof.
  cbv zeta.
  unfold deactivate_body, try_except, deactivate_try, getitem, get_planon_accounts.
  unfold bind, log_debug, log_, ret, setattr, remote, date_sub_int, raise.
  cbn [world calls log planon_accounts buckets].
  destruct (planon_accounts s !! k) as [a|]; [|done].
  cbn [world calls log planon_accounts buckets].
  destruct (Account_save R _ _) as [[saved|e] w]; [done|].
  by destruct (is_HTTPError e).
Qed.

(** A loop whose rounds change the account object of their key by [f] and
    save it: its calls and what it leaves in [planon_accounts]. *)
Lemma save_loop_effect (f : Account.t → Account.t) (body : string → M unit) :
  (∀ k s,
     (body k s).1 = Ok tt
     ∧ match planon_accounts s !! k with
       | Some a =>
           calls (body k s).2 = calls s ++ [Call_Account_save (f a)]
           ∧ planon_accounts (body k s).2 = <[k := f a]> (planon_accounts s)
       | None =>
           calls (body k s).2 = calls s
           ∧ planon_accounts (body k s).2 = planon_accounts s
       end) →
  ∀ (l : list string) (s : state),
    NoDup l →
    let T := planon_accounts s in
    let r := for_each R l body s in
    r.1 = Ok tt
    ∧ calls r.2 = calls s ++ omap (λ k, (λ a, Call_Account_save (f a)) <$> (T !! k)) l
    ∧ (∀ k, k ∈ l → planon_accounts r.2 !! k = f <$> (T !! k))
    ∧ (∀ k, k ∉ l → planon_accounts r.2 !! k = T !! k).
Proof.
  intros Hbody l s Hnd T.
  set (calls_of := omap (λ k, (λ a, Call_Account_save (f a)) <$> (T !! k))).
  apply (for_each_ind (λ done s1,
           calls s1 = calls s ++ calls_of done
           ∧ (∀ k, k ∈ done → planon_accounts s1 !! k = f <$> (T !! k))
           ∧ (∀ k, k ∉ done → planon_accounts s1 !! k = T !! k))).
  - intros k s1. apply Hbody.
  - intros done k rest s1 Hl (Hc & Hin & Hout).
    assert (k ∉ done) as Hk.
    { subst l. apply NoDup_app in Hnd as (_ & Hnd & _). intros Hd.
      apply (Hnd k Hd). by left. }
    destruct (Hbody k s1) as [_ Hb].
    rewrite (Hout k Hk) in Hb. unfold calls_of. rewrite omap_app. simpl.
    destruct (T !! k) as [a|] eqn:Ha; simpl.
    + destruct Hb as [Hc' HT']. rewrite Hc', HT', Hc, <- app_assoc.
      split_and!; [done| |].
      * intros k'. rewrite elem_of_app, list_elem_of_singleton.
        destruct (decide (k' = k)) as [->|Hne].
        -- intros _. by rewrite lookup_insert_eq, Ha.
        -- intros [?|?]; [|done]. rewrite lookup_insert_ne by done. by apply Hin.
      * intros k'. rewrite elem_of_app, list_elem_of_singleton. intros Hn.
        rewrite lookup_insert_ne by (intros ->; apply Hn; by right).
        apply Hout. intros ?. apply Hn. by left.
    + destruct Hb as [Hc' HT']. rewrite Hc', HT', Hc, app_nil_r.
      split_and!; [done| |].
      * intros k'. rewrite elem_of_app, list_elem_of_singleton.
        intros [? | ->]; [by apply Hin|]. by rewrite (Hout k Hk), Ha.
      * intros k'. rewrite elem_of_app, list_elem_of_singleton. intros Hn.
        apply Hout. intros ?. apply Hn. by left.
  - unfold calls_of. simpl. rewrite app_nil_r. split_and!; [done| |done].
    intros k Hk. by apply elem_of_nil in Hk.
Qed.

Lemma deactivates_section_effect (S : gmap string person) (E : gmap string exclude)
    (s : state) :
  let T := planon_accounts s in
  let D := deactivates T S E in
  let r := deactivates_section R order today S E s in
  (∀ k, k ∈ D ↔ k ∈ dom T ∧ (k ∉ dom S) ∧ (k ∉ dom E))
  ∧ r.1 = Ok tt
  ∧ calls r.2
    = calls s
      ++ omap (λ k, (λ a, Call_Account_save (Account.set_EndDate (Some today) a))
                    <$> (T !! k)) (order D)
  ∧ (∀ k, k ∈ D → planon_accounts r.2 !! k = Account.set_EndDate (Some today) <$> (T !! k))
  ∧ (∀ k, k ∉ D → planon_accounts r.2 !! k = T !! k)
  ∧ (∀ k, k ∈ dom E → (k ∉ D) ∧ planon_accounts r.2 !! k = T !! k).
Proof.
  intros T D r.
  assert (∀ k, k ∈ D ↔ k ∈ dom T ∧ (k ∉ dom S) ∧ (k ∉ dom E)) as HD.
  { intros k. unfold D, deactivates. rewrite !elem_of_difference. tauto. }
  destruct (deactivates_section_loop S E s) as (s1 & _ & Hc & HT & Hloop).
  pose proof (save_loop_effect (Account.set_EndDate (Some today))
                (deactivate_body R today) (λ k s, deactivate_body_effect k s)
                (order D) s1 (order_NoDup D))
    as (Hok & Hcalls & Hin & Hout).
  subst r. fold T D in Hloop. rewrite Hloop. rewrite HT, Hc in *. fold T in Hin, Hout.
  assert (∀ k, k ∉ D →
            planon_accounts (for_each R (order D) (deactivate_body R today) s1).2 !! k
            = T !! k) as Hout'.
  { intros k Hk. apply Hout. by rewrite elem_of_order. }
  split_and!; try done.
  - intros k Hk. apply Hin. by rewrite elem_of_order.
  - intros k Hk. assert (k ∉ D) by (rewrite HD; tauto). auto.
Qed.


(** ** The updates loop *)

Lemma update_body_match S (k : string) (s : state) (p : person) (a : Account.t) :
  S !! k = Some p → planon_accounts s !! k = Some a →
  Some (name p) = Account.Description a →
  update_body R S k s
  = (Ok tt,
     State (world s) (calls s)
       (log s ++ [LogRecord DEBUG
                    ("Displayname " +:+ format_opt (Account.Description a) +:+ " matches for "
                     +:+ Account.Accountname a +:+ ", no update required")])
       (planon_accounts s) (buckets s)).
Proof.
  intros Hp Ha Heq. rewrite (update_body_unfold S k s p a Hp Ha). unfold try_except.
  destruct (decide (Some (name p) ≠ _)) as [Hn|_]; [by destruct Hn|]. reflexivity.
Qed.

Lemma update_body_differ S (k : string) (s : state) (p : person) (a : Account.t) :
  S !! k = Some p → planon_accounts s !! k = Some a →
  Some (name p) ≠ Account.Description a →
  let a' := Account.set_Description (Some (name p)) a in
  let r := update_body R S k s in
  r.1 = Ok tt
  ∧ calls r.2 = calls s ++ [Call_Account_save a']
  ∧ planon_accounts r.2 = <[k := a']> (planon_accounts s).
Proof.
  intros Hp Ha Hne. cbv zeta. rewrite (update_body_unfold S k s p a Hp Ha).
  unfold try_except.
  destruct (decide (Some (name p) ≠ _)) as [_|Hn]; [|by destruct Hn].
  unfold bind, remote, setattr, append, log_info, log_.
  cbn [world calls log planon_accounts buckets].
  destruct (Account_save R _ _) as [[saved|e] w1]; [done|].
  by destruct (is_HTTPError e).
Qed.

Lemma update_body_accounts_cases S (k : string) (s : state) (p : person)
    (a : Account.t) :
  S !! k = Some p → planon_accounts s !! k = Some a →
  planon_accounts (update_body R S k s).2 = planon_accounts s
  ∨ planon_accounts (update_body R S k s).2
    = <[k := Account.set_Description (Some (name p)) a]> (planon_accounts s).
Proof.
  intros Hp Ha. destruct (decide (Some (name p) = Account.Description a)) as [Heq|Hne].
  - left. by rewrite (update_body_match S k s p a).
  - right. by apply update_body_differ.
Qed.

(** After its round, the account object of the key carries the name of the
    roster, whether or not a save was needed and whether or not it went
    through. *)
Lemma update_body_accounts S (k : string) (s : state) (p : person) (a : Account.t) :
  S !! k = Some p → planon_accounts s !! k = Some a →
  ∃ a', Account.Description a' = Some (name p)
        ∧ planon_accounts (update_body R S k s).2 = <[k := a']> (planon_accounts s).
Proof.
  intros Hp Ha. destruct (decide (Some (name p) = Account.Description a)) as [Heq|Hne].
  - exists a. split; [done|]. rewrite (update_body_match S k s p a) by done.
    cbn. by rewrite insert_id.
  - exists (Account.set_Description (Some (name p)) a). split; [done|].
    by apply update_body_differ.
Qed.

Lemma updates_loop_names S (s : state) :
  let T := planon_accounts s in
  let r := updates_loop R order S s in
  r.1 = Ok tt
  ∧ dom (planon_accounts r.2) = dom T
  ∧ ∀ k, k ∈ updates T S →
         ∃ p a, S !! k = Some p ∧ planon_accounts r.2 !! k = Some a
                ∧ Some (name p) = Account.Description a.
Proof.
  intros T. cbv zeta. unfold updates_loop, bind, get_planon_accounts. fold T.
  pose proof (order_NoDup (updates T S)) as Hnd.
  assert (∀ k, k ∈ order (updates T S) → is_Some (S !! k) ∧ is_Some (T !! k)) as Hin.
  { intros k. rewrite elem_of_order. unfold updates.
    rewrite elem_of_intersection, !elem_of_dom. tauto. }
  destruct (for_each_ind (λ done s1,
              dom (planon_accounts s1) = dom T
              ∧ (∀ k, k ∈ done →
                      ∃ p a, S !! k = Some p ∧ planon_accounts s1 !! k = Some a
                             ∧ Some (name p) = Account.Description a)
              ∧ (∀ k, k ∉ done → planon_accounts s1 !! k = T !! k))
            (update_body R S) (order (updates T S)) s) as (Hok & Hdom & Hdone & _).
  - intros k s1. apply update_try_except.
  - intros done k rest s1 Hl (Hdom & Hdone & Hrest).
    assert (k ∉ done) as Hk.
    { rewrite Hl in Hnd. apply NoDup_app in Hnd as (_ & Hnd & _). intros Hd.
      apply (Hnd k Hd). by left. }
    destruct (Hin k) as [[p Hp] [a Ha]]; [rewrite Hl, elem_of_app; right; by left|].
    rewrite <- (Hrest k Hk) in Ha.
    destruct (update_body_accounts S k s1 p a Hp Ha) as (a' & Hname & ->).
    split_and!.
    + rewrite dom_insert_L, Hdom.
      assert (k ∈ dom T) as HkT by (rewrite <- Hdom; by apply elem_of_dom).
      apply set_eq. intros x. rewrite elem_of_union, elem_of_singleton.
      split; [by intros [->|?]|by right].
    + intros k'. rewrite elem_of_app, list_elem_of_singleton.
      destruct (decide (k' = k)) as [->|Hne].
      * intros _. exists p, a'. by rewrite lookup_insert_eq.
      * intros [?|?]; [|done]. rewrite lookup_insert_ne by done. by apply Hdone.
    + intros k'. rewrite elem_of_app, list_elem_of_singleton. intros Hn.
      rewrite lookup_insert_ne by (intros ->; apply Hn; by right).
      apply Hrest. intros ?. apply Hn. by left.
  - split_and!; [done| |done]. intros k Hk. by apply elem_of_nil in Hk.
  - split_and!; [done|done|]. intros k Hk. apply Hdone. by apply elem_of_order.
Qed.

(** A second pass of the loop over objects that already carry the names of
    the roster. *)
Lemma updates_loop_noop S (s : state) :
  (∀ k, k ∈ updates (planon_accounts s) S →
        ∃ p a, S !! k = Some p ∧ planon_accounts s !! k = Some a
               ∧ Some (name p) = Account.Description a) →
  let r := updates_loop R order S s in
  r.1 = Ok tt ∧ calls r.2 = calls s ∧ world r.2 = world s
  ∧ planon_accounts r.2 = planon_accounts s ∧ same_buckets s r.2.
Proof.
  intros Hmatch. cbv zeta. unfold updates_loop, bind, get_planon_accounts.
  apply (for_each_ind (λ _ s1,
           calls s1 = calls s ∧ world s1 = world s
           ∧ planon_accounts s1 = planon_accounts s ∧ same_buckets s s1)).
  - intros k s1. apply update_try_except.
  - intros done k rest s1 Hl (Hc & Hw & HT & Hb).
    destruct (Hmatch k) as (p & a & Hp & Ha & Heq).
    { apply elem_of_order. rewrite Hl, elem_of_app. right. by left. }
    rewrite <- HT in Ha. rewrite (update_body_match S k s1 p a Hp Ha Heq). by cbn.
  - by split_and!.
Qed.

(** C6.  The update action saves an account only when the display name of
    the roster differs from the one of the account: when they are equal it
    makes no remote call, changes no account object and appends to no list;
    when they differ it sets the name on the account object and calls [save]
    once, with that object.  Running the updates loop a second time on what
    the first left, with the same roster, makes no call and changes
    nothing. *)
Theorem update_only_when_names_differ (S : gmap string person) (s : state) :
  (∀ k p a,
     S !! k = Some p → planon_accounts s !! k = Some a →
     let r := update_body R S k s in
     r.1 = Ok tt
     ∧ if decide (Some (name p) = Account.Description a) then
         calls r.2 = calls s ∧ world r.2 = world s
         ∧ planon_accounts r.2 = planon_accounts s ∧ same_buckets s r.2
       else
         let a' := Account.set_Description (Some (name p)) a in
         calls r.2 = calls s ++ [Call_Account_save a']
         ∧ planon_accounts r.2 = <[k := a']> (planon_accounts s))
  ∧ let first := updates_loop R order S s in
    let second := updates_loop R order S first.2 in
    first.1 = Ok tt ∧ second.1 = Ok tt
    ∧ calls second.2 = calls first.2
    ∧ world second.2 = world first.2
    ∧ planon_accounts second.2 = planon_accounts first.2
    ∧ same_buckets first.2 second.2.
Proof.
  split.
  - intros k p a Hp Ha. cbv zeta. destruct (decide _) as [Heq|Hne].
    + by rewrite (update_body_match S k s p a Hp Ha Heq).
    + by apply update_body_differ.
  - cbv zeta. destruct (updates_loop_names S s) as (Hok & Hdom & Hnames).
    split; [done|]. apply updates_loop_noop.
    intros k. unfold updates at 1. rewrite Hdom. apply Hnames.
Qed.

(** ** The pwd_expires loop *)

Lemma pwd_expire_body_effect (k : string) (s : state) :
  (pwd_expire_body R k s).1 = Ok tt
  ∧ match planon_accounts s !! k with
    | Some a =>
        calls (pwd_expire_body R k s).2
        = calls s ++ [Call_Account_save (Account.set_PasswordNeverExpires true a)]
        ∧ planon_accounts (pwd_expire_body R k s).2
          = <[k := Account.set_PasswordNeverExpires true a]> (planon_accounts s)
    | None =>
        calls (pwd_expire_body R k s).2 = calls s
        ∧ planon_accounts (pwd_expire_body R k s).2 = planon_accounts s
    end.
Proof.
  unfold pwd_expire_body, try_except, pwd_expire_try, getitem, get_planon_accounts.
  unfold bind, log_info, log_, ret, setattr, remote, raise.
  cbn [world calls log planon_accounts buckets].
  destruct (planon_accounts s !! k) as [a|]; [|done].
  cbn [world calls log planon_accounts buckets].
  destruct (Account_save R _ _) as [[saved|e] w]; [done|].
  by destruct (is_HTTPError e).
Qed.

Lemma pwd_expire_body_missing (k : string) (s : state) :
  planon_accounts s !! k = None →
  appended_to pwd_expire_failed k s (pwd_expire_body R k s).2.
Proof.
  intros Ha.
  unfold pwd_expire_body, try_except, pwd_expire_try, getitem, get_planon_accounts.
  unfold bind, ret. rewrite Ha. by intros b.
Qed.

(** ** The exclusion registry *)

(** The updates and pwd_expires loops never assign an end date. *)
Lemma update_body_keeps_EndDate S (k k' : string) :
  preserves (λ s, Account.EndDate <$> (planon_accounts s !! k)) (update_body R S k').
Proof.
  intros s. destruct (S !! k') as [p|] eqn:Hp; [destruct (planon_accounts s !! k')
    as [a|] eqn:Ha|].
  - destruct (update_body_accounts_cases S k' s p a Hp Ha) as [->| ->]; [done|].
    destruct (decide (k = k')) as [->|Hne].
    + by rewrite lookup_insert_eq, Ha.
    + by rewrite lookup_insert_ne.
  - unfold update_body, try_except, update_try, getitem, get_planon_accounts.
    rewrite Hp. unfold bind, ret. by rewrite Ha.
  - unfold update_body, try_except, update_try, getitem.
    by rewrite Hp.
Qed.

Lemma pwd_expire_body_keeps_EndDate (k k' : string) :
  preserves (λ s, Account.EndDate <$> (planon_accounts s !! k)) (pwd_expire_body R k').
Proof.
  intros s. destruct (pwd_expire_body_effect k' s) as [_ H].
  destruct (planon_accounts s !! k') as [a|] eqn:Ha; destruct H as [_ ->]; [|done].
  destruct (decide (k = k')) as [->|Hne].
  - by rewrite lookup_insert_eq, Ha.
  - by rewrite lookup_insert_ne.
Qed.

(** C4.  ToDeactivate is the keys of the account snapshot, minus the netids
    of the unfiltered roster, minus the keys of the exclusion registry.  The
    deactivates section saves, with the run date as end date, the account of
    each key of ToDeactivate and nothing else; the account object under any
    other key, so under every key of the exclusion registry, is left as it
    was.  Over a whole run, the account object under a key of the exclusion
    registry ends with the end date it was fetched with. *)
Theorem exclusions_never_deactivated :
  (∀ (S : gmap string person) (E : gmap string exclude) (s : state),
     let T := planon_accounts s in
     let D := deactivates T S E in
     let r := deactivates_section R order today S E s in
     (∀ k, k ∈ D ↔ k ∈ dom T ∧ (k ∉ dom S) ∧ (k ∉ dom E))
     ∧ r.1 = Ok tt
     ∧ calls r.2
       = calls s
         ++ omap (λ k, (λ a, Call_Account_save (Account.set_EndDate (Some today) a))
                       <$> (T !! k)) (order D)
     ∧ (∀ k, k ∈ D →
             planon_accounts r.2 !! k = Account.set_EndDate (Some today) <$> (T !! k))
     ∧ (∀ k, k ∉ D → planon_accounts r.2 !! k = T !! k)
     ∧ (∀ k, k ∈ dom E → (k ∉ D) ∧ planon_accounts r.2 !! k = T !! k))
  ∧ (∀ (json : list exclude) (s0 s_end : state),
       passes R order today json s0 = (Ok tt, s_end) →
       ∃ (s2 : state) (accounts' : list Account.t) w,
         Account_find R account_filter (world s2) = (Ok accounts', w)
         ∧ ∀ k, k ∈ dom (load_excludes json) →
                Account.EndDate <$> (planon_accounts s_end !! k)
                = Account.EndDate <$> (dict_comp account_key accounts' !! k)).
Proof.
  split; [apply deactivates_section_effect|].
  intros json s0 s_end Hrun.
  apply passes_inv in Hrun
    as (people & people' & groups & group & accounts & w1 & w2 & w3
        & sa & s2 & s3 & s4 & _ & _ & _ & _ & _ & _ & _ & _ & Hupd & Hdea & Hpwd).
  destruct (updates_section_find _ _ _ Hupd) as (accounts' & w & Hfind').
  exists s2, accounts', w. split; [done|]. intros k Hk.
  destruct (updates_section_loop (dict_comp netid people) s2 accounts' w Hfind')
    as (s2' & _ & _ & HT2 & _ & Hloop').
  rewrite Hloop' in Hupd.
  assert (Account.EndDate <$> (planon_accounts s3 !! k)
          = Account.EndDate <$> (dict_comp account_key accounts' !! k)) as H3.
  { rewrite <- HT2.
    pose proof (preserves_for_each
                  (λ s, Account.EndDate <$> (planon_accounts s !! k))
                  (order (updates (dict_comp account_key accounts')
                            (dict_comp netid people)))
                  (update_body R (dict_comp netid people))
                  (λ k', update_body_keeps_EndDate _ k k') s2') as Hp.
    rewrite Hupd in Hp. exact Hp. }
  assert (planon_accounts s4 !! k = planon_accounts s3 !! k) as H4.
  { destruct (deactivates_section_effect (dict_comp netid people) (load_excludes json) s3)
      as (_ & _ & _ & _ & _ & Hex).
    rewrite Hdea in Hex. by destruct (Hex k Hk). }
  assert (preserves (λ s, Account.EndDate <$> (planon_accounts s !! k))
            (pwd_expires_section R order)) as H5.
  { unfold pwd_expires_section, log_info.
    frame_with ltac:(apply pwd_expire_body_keeps_EndDate). }
  specialize (H5 s4). rewrite Hpwd in H5. cbn [snd] in H5.
  by rewrite H5, H4.
Qed.

(** ** The log: which records can be a results record *)

Lemma lnr_noop {A} (m : M A) : (∀ s, log (m s).2 = log s) → logs_no_results m.
Proof. intros H s. exists []. rewrite H, app_nil_r. split; [done|constructor]. Qed.

Lemma lnr_log (lvl : level) (msg : string) :
  is_results_record (LogRecord lvl msg) = false → logs_no_results (log_ R lvl msg).
Proof. intros H s. exists [LogRecord lvl msg]. split; [done|]. by repeat constructor. Qed.

Lemma lnr_bind {A B} (m : M A) (k : A → M B) :
  logs_no_results m → (∀ a, logs_no_results (k a)) → logs_no_results (bind R m k).
Proof.
  intros Hm Hk s. unfold bind. destruct (Hm s) as (l1 & Hl1 & Hn1).
  destruct (m s) as [[a|e] s1]; simpl in *.
  - destruct (Hk a s1) as (l2 & Hl2 & Hn2). exists (l1 ++ l2).
    rewrite Hl2, Hl1, <- app_assoc. split; [done|]. by apply Forall_app.
  - by exists l1.
Qed.

Lemma lnr_try_except {A} (body : M A) (h1 h2 : exn → M A) :
  logs_no_results body → (∀ e, logs_no_results (h1 e)) → (∀ e, logs_no_results (h2 e)) →
  logs_no_results (try_except R body h1 h2).
Proof.
  intros Hm H1 H2 s. unfold try_except. destruct (Hm s) as (l1 & Hl1 & Hn1).
  destruct (body s) as [[a|e] s1]; simpl in *.
  - by exists l1.
  - assert (logs_no_results (if is_HTTPError e then h1 e else h2 e)) as Hh
      by (by destruct (is_HTTPError e)).
    destruct (Hh s1) as (l2 & Hl2 & Hn2). exists (l1 ++ l2).
    destruct (is_HTTPError e); rewrite Hl2, Hl1, <- app_assoc;
      (split; [done|]; by apply Forall_app).
Qed.

Lemma lnr_for_each {A} (l : list A) (body : A → M unit) :
  (∀ x, logs_no_results (body x)) → logs_no_results (for_each R l body).
Proof.
  intros Hb. induction l as [|x l IH]; simpl.
  - by apply lnr_noop.
  - apply lnr_bind; [apply Hb|]. intros _. apply IH.
Qed.

Lemma lnr_remote {A} (c : call) (op : World R → result A * World R) :
  logs_no_results (remote R c op).
Proof. apply lnr_noop. intros s. unfold remote. by destruct (op (world s)). Qed.

Lemma lnr_getitem {V} (d : gmap string V) (k : string) :
  logs_no_results (getitem R d k).
Proof. apply lnr_noop. intros s. unfold getitem. by destruct (d !! k). Qed.

Lemma lnr_unpack1 {A} (l : list A) : logs_no_results (unpack1 R l).
Proof. apply lnr_noop. intros s. by destruct l as [|? [|? ?]]. Qed.

(** Following the structure of a piece of the script. *)
Ltac lnr_with known :=
  repeat first
    [ known
    | apply lnr_bind; [|intros ?]
    | apply lnr_try_except; [| intros ? | intros ?]
    | apply lnr_for_each; intros ?
    | apply lnr_remote
    | apply lnr_getitem
    | apply lnr_unpack1
    | apply lnr_log; reflexivity
    | apply lnr_noop; intros ?; reflexivity
    | case_match ].

Ltac lnr := lnr_with fail.

Lemma lnr_insert_body S' group (k : string) :
  logs_no_results (insert_body R today S' group k).
Proof.
  unfold insert_body, insert_try, insert_except_HTTPError, insert_except_Exception,
    log_debug, log_info, log_warning, log_error.
  lnr.
Qed.

Lemma lnr_update_body S (k : string) : logs_no_results (update_body R S k).
Proof.
  unfold update_body, update_try, update_except, log_debug, log_info.
  lnr.
Qed.

Lemma lnr_deactivate_body (k : string) : logs_no_results (deactivate_body R today k).
Proof.
  unfold deactivate_body, deactivate_try, deactivate_except, date_sub_int,
    log_debug, log_info, log_exception.
  lnr.
Qed.

Lemma lnr_pwd_expire_body (k : string) : logs_no_results (pwd_expire_body R k).
Proof.
  unfold pwd_expire_body, pwd_expire_try, pwd_expire_except, log_info, log_exception.
  lnr.
Qed.

Lemma lnr_passes (json : list exclude) : logs_no_results (passes R order today json).
Proof.
  unfold passes, cache_dart_people, cache_planon, fetch_planon_accounts,
    inserts_section, updates_section, updates_loop, deactivates_section,
    pwd_expires_section, fetch_planon_accounts, log_debug, log_info.
  lnr_with ltac:(first [ apply lnr_insert_body | apply lnr_update_body
                       | apply lnr_deactivate_body | apply lnr_pwd_expire_body ]).
Qed.

(** ** The results record *)

Lemma append_inv_head (p x y : string) : p +:+ x = p +:+ y → x = y.
Proof.
  induction p as [|c p IH]; simpl; [done|]. intros H. apply IH. by injection H.
Qed.

(** Two texts that are cut by a newline, with no newline in their first part,
    are equal part by part. *)
Lemma split_nl (a a' r r' : string) :
  free_of (ascii_of_nat 10) a → free_of (ascii_of_nat 10) a' →
  a +:+ Str.nl +:+ r = a' +:+ Str.nl +:+ r' → a = a' ∧ r = r'.
Proof.
  unfold Str.nl. revert a'. induction a as [|c a IH]; intros [|c' a']; simpl.
  - intros _ _ H. split; [done|]. by injection H.
  - intros _ [Hc _] H. destruct Hc. by injection H.
  - intros [Hc _] _ H. destruct Hc. by injection H.
  - intros [_ Ha] [_ Ha'] H. injection H as -> H.
    destruct (IH a' Ha Ha' H) as [-> ->]. done.
Qed.

Lemma pretty_N_char_not_nl (x : N) : pretty_N_char x ≠ ascii_of_nat 10.
Proof. unfold pretty_N_char. repeat case_match; discriminate. Qed.

Lemma pretty_N_go_free_of_nl (x : N) (s : string) :
  free_of (ascii_of_nat 10) s → free_of (ascii_of_nat 10) (pretty_N_go x s).
Proof.
  revert s. induction (N.lt_wf_0 x) as [x _ IH]; intros s Hs.
  assert (x = 0 ∨ 0 < x)%N as [->|Hx] by lia.
  - by rewrite pretty_N_go_0.
  - rewrite pretty_N_go_step by done. apply IH.
    + by apply N.div_lt.
    + split; [apply pretty_N_char_not_nl|done].
Qed.

Lemma len_list_free_of_nl (l : list string) : free_of (ascii_of_nat 10) (len_list l).
Proof.
  unfold len_list, pretty, pretty_nat, pretty, pretty_N.
  case_decide; [by repeat split|]. by apply pretty_N_go_free_of_nl.
Qed.

Lemma len_list_inj (l l' : list string) :
  len_list l = len_list l' → List.length l = List.length l'.
Proof. unfold len_list. apply (inj pretty). Qed.

Lemma results_text_inj (x1 x2 x3 x4 x5 x6 x7 x8 x9 y1 y2 y3 y4 y5 y6 y7 y8 y9 : string) :
  Forall (free_of (ascii_of_nat 10)) [x1; x2; x3; x4; x5; x6; x7; x8; x9] →
  Forall (free_of (ascii_of_nat 10)) [y1; y2; y3; y4; y5; y6; y7; y8; y9] →
  results_text x1 x2 x3 x4 x5 x6 x7 x8 x9 = results_text y1 y2 y3 y4 y5 y6 y7 y8 y9 →
  [x1; x2; x3; x4; x5; x6; x7; x8; x9] = [y1; y2; y3; y4; y5; y6; y7; y8; y9].
Proof.
  intros Hx Hy H.
  repeat (apply Forall_cons in Hx as [? Hx]).
  repeat (apply Forall_cons in Hy as [? Hy]).
  unfold results_text in H.
  repeat first
    [ apply append_inv_head in H
    | apply split_nl in H; [destruct H as [? H] | assumption | assumption] ].
  congruence.
Qed.

Lemma results_message_counts (b b' : bucket → list string) :
  results_message b = results_message b' →
  ∀ x, x ≠ inserts_skipped → List.length (b x) = List.length (b' x).
Proof.
  intros H. unfold results_message in H.
  apply results_text_inj in H; [|repeat constructor; apply len_list_free_of_nl..].
  intros x Hx. destruct x; try done; apply len_list_inj; congruence.
Qed.

Lemma no_results_warnings (prefix : string) (keys : list string) :
  (∀ k, is_results_record (LogRecord WARNING (prefix +:+ k)) = false) →
  no_results (warnings prefix keys).
Proof.
  intros Hp. unfold no_results, warnings. apply Forall_fmap, Forall_forall.
  intros k _. apply Hp.
Qed.

(** C9 (as the code has it).  A run that reaches the exit section logs the
    results record once, right after the four sections and before the records
    of the exit section; no other record of the run opens like it.  Its text
    gives the lengths of nine outcome lists: all but [inserts_skipped], of
    which the text is independent. *)
Theorem results_record_once (json : list exclude) (s s' : state) (code : Z) :
  main R order today json s = (Ok code, s') →
  (∃ (s1 : state) (before after : list log_record),
     passes R order today json s = (Ok tt, s1)
     ∧ log s1 = log s ++ before
     ∧ log s' = log s ++ before ++ LogRecord INFO (results_message (buckets s1)) :: after
     ∧ same_buckets s1 s'
     ∧ no_results before ∧ no_results after
     ∧ is_results_record (LogRecord INFO (results_message (buckets s1))) = true)
  ∧ (∀ b b' : bucket → list string,
       results_message b = results_message b' →
       ∀ x, x ≠ inserts_skipped → List.length (b x) = List.length (b' x))
  ∧ ∀ (b : bucket → list string) (skipped : list string),
      results_message (λ x, if decide (x = inserts_skipped) then skipped else b x)
      = results_message b.
Proof.
  intros Hmain. split; [|split; [apply results_message_counts|reflexivity]].
  apply main_inv in Hmain as (s1 & Hpasses & Hexit).
  destruct (lnr_passes json s) as (before & Hbefore & Hnb).
  rewrite Hpasses in Hbefore. cbn [snd] in Hbefore.
  set (s2 := State _ _ _ _ _) in Hexit.
  assert (∃ after, log s' = log s2 ++ after ∧ no_results after ∧ same_buckets s1 s')
    as (after & Hafter & Hna & Hsame).
  { destruct (decide (buckets s2 inserts_skipped = [])) as [Hs|Hs].
    - destruct (decide (buckets s2 inserts_failed_to_link_person = [])) as [Hf|Hf].
      + rewrite (set_exit_code_ok s2 Hs Hf) in Hexit. simplify_eq.
        eexists. split; [reflexivity|]. split; [by repeat constructor|done].
      + destruct (set_exit_code_failed_to_link s2 Hs Hf) as (header & Hh & Heq).
        rewrite Heq in Hexit. simplify_eq.
        eexists. split; [reflexivity|]. split; [|done].
        constructor; [done|]. by apply no_results_warnings.
    - destruct (set_exit_code_skipped s2 Hs) as (header & Hh & Heq).
      rewrite Heq in Hexit. simplify_eq.
      eexists. split; [reflexivity|]. split; [|done].
      constructor; [done|]. by apply no_results_warnings. }
  exists s1, before, after. split_and!; try done.
  rewrite Hafter. unfold s2. cbn [log]. rewrite Hbefore. by rewrite <- !app_assoc.
Qed.

(** ** Computations that only add to the trace or to the log *)

Lemma extends_noop {A X} (proj : state → list X) (P : X → Prop) (m : M A) :
  preserves proj m → extends proj P m.
Proof. intros H s. exists []. rewrite H, app_nil_r. by split. Qed.

Lemma extends_bind {A B X} (proj : state → list X) (P : X → Prop)
    (m : M A) (k : A → M B) :
  extends proj P m → (∀ a, extends proj P (k a)) → extends proj P (bind R m k).
Proof.
  intros Hm Hk s. unfold bind. destruct (Hm s) as (l1 & Hl1 & Hn1).
  destruct (m s) as [[a|e] s1]; simpl in *.
  - destruct (Hk a s1) as (l2 & Hl2 & Hn2). exists (l1 ++ l2).
    rewrite Hl2, Hl1, <- app_assoc. split; [done|]. by apply Forall_app.
  - by exists l1.
Qed.

Lemma extends_try_except {A X} (proj : state → list X) (P : X → Prop)
    (body : M A) (h1 h2 : exn → M A) :
  extends proj P body → (∀ e, extends proj P (h1 e)) → (∀ e, extends proj P (h2 e)) →
  extends proj P (try_except R body h1 h2).
Proof.
  intros Hm H1 H2 s. unfold try_except. destruct (Hm s) as (l1 & Hl1 & Hn1).
  destruct (body s) as [[a|e] s1]; simpl in *.
  - by exists l1.
  - assert (extends proj P (if is_HTTPError e then h1 e else h2 e)) as Hh
      by (by destruct (is_HTTPError e)).
    destruct (Hh s1) as (l2 & Hl2 & Hn2). exists (l1 ++ l2).
    destruct (is_HTTPError e); rewrite Hl2, Hl1, <- app_assoc;
      (split; [done|]; by apply Forall_app).
Qed.

Lemma extends_for_each {A X} (proj : state → list X) (P : X → Prop)
    (l : list A) (body : A → M unit) :
  (∀ x, extends proj P (body x)) → extends proj P (for_each R l body).
Proof.
  intros Hb. induction l as [|x l IH]; simpl.
  - by apply extends_noop.
  - apply extends_bind; [apply Hb|]. intros _. apply IH.
Qed.

Lemma extends_remote {A} (P : call → Prop) (c : call)
    (op : World R → result A * World R) :
  P c → extends calls P (remote R c op).
Proof.
  intros Hc s. exists [c]. unfold remote. destruct (op (world s)).
  split; [done|]. by repeat constructor.
Qed.

Lemma extends_log_ (P : log_record → Prop) (lvl : level) (msg : string) :
  P (LogRecord lvl msg) → extends log P (log_ R lvl msg).
Proof. intros H s. exists [LogRecord lvl msg]. split; [done|]. by repeat constructor. Qed.

(** What follows [today-1] is never run. *)
Lemma extends_date_sub_int {B X} (proj : state → list X) (P : X → Prop)
    (d : date) (n : Z) (k : date → M B) :
  extends proj P (bind R (date_sub_int R d n) k).
Proof. apply extends_noop. intros s. reflexivity. Qed.

Lemma extends_log_results (P : log_record → Prop) :
  (∀ b, P (LogRecord INFO (results_message b))) → extends log P (log_results R).
Proof.
  intros H s. exists [LogRecord INFO (results_message (buckets s))].
  split; [done|]. by repeat constructor.
Qed.

(** Following the structure of a piece of the script. *)
Ltac ext_with known :=
  repeat first
    [ known
    | apply extends_bind; [|intros ?]
    | apply extends_try_except; [| intros ? | intros ?]
    | apply extends_for_each; intros ?
    | apply extends_remote; first [reflexivity | exact I]
    | apply extends_log_; first [reflexivity | simpl; lia]
    | apply extends_noop;
        first [ apply preserves_getitem | apply preserves_unpack1
              | apply preserves_remote; intros ? ? ?; reflexivity
              | intros ?; reflexivity ]
    | case_match ].

Ltac ext := ext_with fail.

(** ** The log of the deactivates loop *)

(** X2.  No run logs that an account was deactivated: the record
    "Deactivated account ..." of the deactivates loop comes after the
    expression [today-1], which raises, so none of the records a run adds to
    the log opens with these words. *)
Theorem deactivation_never_reported (json : list exclude) :
  extends log (λ r, reports_deactivated r = false) (main R order today json).
Proof.
  unfold main, passes, cache_dart_people, cache_planon, fetch_planon_accounts,
    inserts_section, insert_body, insert_try, insert_except_HTTPError,
    insert_except_Exception, updates_section, updates_loop, update_body, update_try,
    update_except, deactivates_section, deactivate_body, deactivate_try,
    deactivate_except, pwd_expires_section, pwd_expire_body, pwd_expire_try,
    pwd_expire_except, set_exit_code,
    log_debug, log_info, log_warning, log_error, log_exception.
  ext_with ltac:(first [ apply extends_date_sub_int
                       | apply extends_log_results; intros ?; reflexivity ]).
Qed.


(** ** The outcome lists of the deactivates loop *)

Lemma deactivate_body_lists (k : string) (s : state) :
  let r := deactivate_body R today k s in
  r.1 = Ok tt
  ∧ buckets r.2 deactivates_failed = buckets s deactivates_failed ++ [k]
  ∧ (buckets r.2 deactivates_succeeded = buckets s deactivates_succeeded
     ∨ buckets r.2 deactivates_succeeded = buckets s deactivates_succeeded ++ [k]).
Proof.
  cbv zeta.
  unfold deactivate_body, try_except, deactivate_try, getitem, get_planon_accounts.
  unfold bind, log_debug, log_, ret, setattr, remote, date_sub_int, raise.
  cbn [world calls log planon_accounts buckets].
  destruct (planon_accounts s !! k) as [a|]; [|by split_and!; [..|left]].
  cbn [world calls log planon_accounts buckets].
  destruct (Account_save R _ _) as [[saved|e] w].
  - split_and!; [done|done|by right].
  - destruct (is_HTTPError e); (split_and!; [done|done|by left]).
Qed.

Lemma length_order (X : gset string) : List.length (order X) = size X.
Proof. by rewrite (iter_perm order X). Qed.

(** X1.  The deactivates section appends every key of ToDeactivate to
    [deactivates_failed], also the keys whose save went through: after the
    section that list is ToDeactivate in the order of the loop, and
    [deactivates_succeeded] is a sublist of it.  So the count of failed
    deactivations is always the size of ToDeactivate.  For a key whose save
    returns, the round appends the key to both lists, and the record it logs
    at level ERROR is the failure message with the text of the [TypeError] of
    [today-1]. *)
Theorem deactivates_failed_holds_every_key (S : gmap string person)
    (E : gmap string exclude) (s : state) :
  let D := deactivates (planon_accounts s) S E in
  let r := deactivates_section R order today S E s in
  r.1 = Ok tt
  ∧ buckets r.2 deactivates_failed = order D
  ∧ buckets r.2 deactivates_succeeded `sublist_of` order D
  ∧ List.length (buckets r.2 deactivates_failed) = size D
  ∧ ∀ (k : string) (a saved : Account.t) w (s1 : state),
      planon_accounts s1 !! k = Some a →
      Account_save R (Account.set_EndDate (Some today) a) (world s1) = (Ok saved, w) →
      let r1 := deactivate_body R today k s1 in
      buckets r1.2 deactivates_succeeded = buckets s1 deactivates_succeeded ++ [k]
      ∧ buckets r1.2 deactivates_failed = buckets s1 deactivates_failed ++ [k]
      ∧ log r1.2
        = log s1
          ++ [LogRecord DEBUG ("Processing deactivation for " +:+ k);
              LogRecord ERROR
                ("Failed to deactivate account " +:+ k +:+ " exception "
                 +:+ "unsupported operand type(s) for -: 'datetime.date' and 'int'")].
Proof.
  intros D r.
  assert (r.1 = Ok tt
          ∧ buckets r.2 deactivates_failed = order D
            ∧ buckets r.2 deactivates_succeeded `sublist_of` order D) as (Hok & Hf & Hs).
  { subst r. unfold deactivates_section, bind, assign, get_planon_accounts, log_info, log_.
    cbn [world calls log planon_accounts buckets]. fold D.
    set (s0 := State _ _ _ _ _).
    apply (for_each_ind
             (λ done s1, buckets s1 deactivates_failed = done
                         ∧ buckets s1 deactivates_succeeded `sublist_of` done)).
    - intros k s1. apply deactivate_body_lists.
    - intros done k rest s1 _ [Hf Hs].
      destruct (deactivate_body_lists k s1) as (_ & Hf' & Hs').
      rewrite Hf', Hf. split; [done|].
      destruct Hs' as [-> | ->].
      + by apply sublist_inserts_r.
      + by apply sublist_app.
    - done. }
  split_and!; [done|done|done|by rewrite Hf, length_order|].
  intros k a saved w s1 Ha Hsave. cbv zeta.
  unfold deactivate_body, try_except, deactivate_try, getitem, get_planon_accounts.
  unfold bind, log_debug, log_, ret, setattr, remote, date_sub_int, raise.
  cbn [world calls log planon_accounts buckets]. rewrite Ha.
  cbn [world calls log planon_accounts buckets]. rewrite Hsave.
  cbn. by rewrite <- app_assoc.
Qed.


(** ** Dictionaries built by comprehension: the last item wins *)

Lemma dict_comp_snoc {A} (key : A → string) (l : list A) (x : A) :
  dict_comp key (l ++ [x]) = <[key x := x]> (dict_comp key l).
Proof. unfold dict_comp. by rewrite foldl_app. Qed.

Lemma dict_comp_last {A} (key : A → string) (l : list A) (k : string) :
  dict_comp key l !! k = last (filter (λ x, key x = k) l).
Proof.
  induction l as [|x l IH] using rev_ind; [done|].
  rewrite dict_comp_snoc, filter_app, filter_cons, filter_nil.
  case_decide as Hk.
  - subst k. by rewrite lookup_insert_eq, last_snoc.
  - by rewrite lookup_insert_ne, app_nil_r.
Qed.

Lemma dict_comp_dom_keys {A} (key : A → string) (l : list A) :
  dom (dict_comp key l) = list_to_set (key <$> l).
Proof.
  apply set_eq. intros k. rewrite dict_comp_dom, elem_of_list_to_set, list_elem_of_fmap.
  split; intros (x & ? & ?); by exists x.
Qed.

Lemma size_list_to_set_remove_dups (l : list string) :
  size (list_to_set l : gset string) = List.length (remove_dups l).
Proof.
  rewrite <- (size_list_to_set (C := gset string) (remove_dups l))
    by apply NoDup_remove_dups.
  f_equal. apply set_eq. intros k. by rewrite !elem_of_list_to_set, elem_of_remove_dups.
Qed.

(** X3.  Every dictionary of the script is built by a comprehension over a
    list ([account_sync_excludes], [dart_people],
    [dart_people_with_excludes], [account_groups], [planon_accounts],
    [planon_accounts_with_pwd_expires]).  Under a key it holds the last item
    of the list that has this key, so of two accounts whose names differ by
    case only, or two roster entries with the same netid, the earlier one is
    dropped; and its size, which the script logs as the total, is the number
    of distinct keys, not the number of items. *)
Theorem comprehension_last_wins {A} (key : A → string) (l : list A) :
  (∀ k, dict_comp key l !! k = last (filter (λ x, key x = k) l))
  ∧ size (dict_comp key l) = List.length (remove_dups (key <$> l))
  ∧ (size (dict_comp key l) ≤ List.length l)%nat.
Proof.
  assert (size (dict_comp key l) = List.length (remove_dups (key <$> l))) as Hsize.
  { by rewrite <- size_dom, dict_comp_dom_keys, size_list_to_set_remove_dups. }
  split_and!; [apply dict_comp_last|done|].
  rewrite Hsize, <- (length_fmap key l).
  generalize (key <$> l). intros keys. induction keys as [|k keys IH]; simpl; [done|].
  case_decide; simpl; lia.
Qed.


(** ** What ends a run before the exit section *)

Lemma repr_requestors : repr "DC - Requestors" = "'DC - Requestors'".
Proof. by apply (repr_plain "DC - Requestors"). Qed.

(** X4.  When the two roster reads and [AccountGroup.find] return but no
    group that Planon lists has the description "DC - Requestors", the lookup
    [account_groups["DC - Requestors"]] raises [KeyError] outside every [try]
    statement: the script ends there, after three reads, before any account
    is queried, created or saved and before any outcome list is set. *)
Theorem requestor_group_missing (json : list exclude) (s : state)
    (people people' : list person) (groups : list AccountGroup.t) w1 w2 w3 :
  utils_get_people R (world s) = (Ok people, w1) →
  utils_get_people R w1 = (Ok people', w2) →
  AccountGroup_find R w2 = (Ok groups, w3) →
  (∀ g, g ∈ groups → AccountGroup.Description g ≠ "DC - Requestors") →
  ∃ s', main R order today json s = (Raise (Exn KeyError "'DC - Requestors'"), s')
        ∧ world s' = w3
        ∧ calls s' = calls s ++ [Call_get_people; Call_get_people; Call_AccountGroup_find]
        ∧ planon_accounts s' = planon_accounts s
        ∧ buckets s' = buckets s.
Proof.
  intros H1 H2 H3 Hno.
  assert (dict_comp AccountGroup.Description groups !! "DC - Requestors" = None) as Hnone.
  { destruct (_ !! _) as [g|] eqn:Hg; [|done].
    apply dict_comp_lookup in Hg as [Hin Hd]. by destruct (Hno g Hin). }
  unfold main, passes, cache_dart_people, cache_planon, bind, remote, log_info, log_,
    getitem, ret.
  cbn [world calls log planon_accounts buckets]. rewrite H1.
  cbn [world calls log planon_accounts buckets]. rewrite H2.
  cbn [world calls log planon_accounts buckets]. rewrite H3.
  cbn [world calls log planon_accounts buckets fst snd]. rewrite Hnone, repr_requestors.
  eexists. split; [reflexivity|].
  cbn [world calls log planon_accounts buckets]. by rewrite <- !app_assoc.
Qed.

Lemma cache_dart_people_raise (s s' : state) (e : exn) :
  cache_dart_people R s = (Raise e, s') → ended_by_read e s'.
Proof.
  unfold cache_dart_people, bind, remote, log_info, log_, ret.
  cbn [world calls log planon_accounts buckets].
  destruct (utils_get_people R (world s)) as [[people|e1] w1] eqn:H1.
  - cbn [world calls log planon_accounts buckets].
    destruct (utils_get_people R w1) as [[people'|e2] w2] eqn:H2; [discriminate|].
    intros ?. simplify_eq. by exists Call_get_people, w1, (calls s ++ [Call_get_people]).
  - intros ?. simplify_eq. by exists Call_get_people, (world s), (calls s).
Qed.

Lemma cache_planon_raise (s s' : state) (e : exn) :
  cache_planon R s = (Raise e, s') →
  (e = Exn KeyError "'DC - Requestors'"
   ∧ ∃ before, calls s' = before ++ [Call_AccountGroup_find])
  ∨ ended_by_read e s'.
Proof.
  unfold cache_planon, fetch_planon_accounts, bind, remote, log_info, log_debug, log_,
    getitem, set_planon_accounts, get_planon_accounts, ret, raise.
  cbn [world calls log planon_accounts buckets].
  destruct (AccountGroup_find R (world s)) as [[groups|e1] w1] eqn:H1.
  - destruct (dict_comp AccountGroup.Description groups !! "DC - Requestors") as [g|].
    + cbn [world calls log planon_accounts buckets].
      destruct (Account_find R account_filter w1) as [[accounts|e2] w2] eqn:H2;
        [discriminate|].
      intros ?. simplify_eq. right.
      by exists (Call_Account_find account_filter), w1,
                (calls s ++ [Call_AccountGroup_find]).
    + rewrite repr_requestors. intros ?. simplify_eq. left. split; [done|].
      by exists (calls s).
  - intros ?. simplify_eq. right. by exists Call_AccountGroup_find, (world s), (calls s).
Qed.

Lemma updates_loop_Ok S (s : state) : (updates_loop R order S s).1 = Ok tt.
Proof.
  unfold updates_loop, bind, get_planon_accounts.
  apply (for_each_ind (λ _ _, True)); [|done..].
  intros k s1. apply update_try_except.
Qed.

Lemma updates_section_raise S (s s' : state) (e : exn) :
  updates_section R order S s = (Raise e, s') → ended_by_read e s'.
Proof.
  unfold updates_section, bind at 1, assign at 1, bind at 1, assign at 1, bind at 1.
  unfold fetch_planon_accounts, bind at 1, remote.
  cbn [world calls log planon_accounts buckets].
  destruct (Account_find R account_filter (world s)) as [[accounts|e1] w1] eqn:H1.
  - unfold set_planon_accounts. cbn [world calls log planon_accounts buckets].
    intros H. pose proof (updates_loop_Ok S) as Hok.
    match type of H with ?m ?s0 = _ => specialize (Hok s0) end.
    rewrite H in Hok. discriminate.
  - intros ?. simplify_eq.
    by exists (Call_Account_find account_filter), (world s), (calls s).
Qed.

Lemma pwd_expires_section_raise (s s' : state) (e : exn) :
  pwd_expires_section R order s = (Raise e, s') → ended_by_read e s'.
Proof.
  intros H.
  destruct (Account_find R account_filter_pwd (world s)) as [[accounts|e1] w1] eqn:H1.
  - destruct (pwd_expires_section_outcomes s accounts w1 H1) as [Hok _].
    rewrite H in Hok. discriminate.
  - revert H. unfold pwd_expires_section, bind, assign, remote.
    cbn [world calls log planon_accounts buckets]. rewrite H1.
    intros ?. simplify_eq.
    by exists (Call_Account_find account_filter_pwd), (world s), (calls s).
Qed.

Lemma set_exit_code_Ok (s : state) : ∃ code, (set_exit_code R s).1 = Ok code.
Proof.
  destruct (decide (buckets s inserts_skipped = [])) as [Hs|Hs].
  - destruct (decide (buckets s inserts_failed_to_link_person = [])) as [Hf|Hf].
    + rewrite (set_exit_code_ok s Hs Hf). by eexists.
    + destruct (set_exit_code_failed_to_link s Hs Hf) as (header & _ & ->). by eexists.
  - destruct (set_exit_code_skipped s Hs) as (header & _ & ->). by eexists.
Qed.

Lemma passes_raise (json : list exclude) (s s' : state) (e : exn) :
  passes R order today json s = (Raise e, s') →
  (e = Exn KeyError "'DC - Requestors'"
   ∧ ∃ before, calls s' = before ++ [Call_AccountGroup_find])
  ∨ ended_by_read e s'.
Proof.
  unfold passes. unfold bind at 1.
  destruct (cache_dart_people R s) as [[rosters|e0] s1] eqn:Hsrc; cycle 1.
  { intros ?. simplify_eq. right. by eapply cache_dart_people_raise. }
  unfold bind at 1.
  destruct (cache_planon R s1) as [[group|e0] s2] eqn:Htgt; cycle 1.
  { intros ?. simplify_eq. by eapply cache_planon_raise. }
  unfold bind at 1.
  destruct (inserts_section R order today rosters.2 group s2) as [[[]|e0] s3] eqn:Hins;
    cycle 1.
  { destruct (inserts_section_outcomes rosters.2 group s2) as [Hok _].
    rewrite Hins in Hok. discriminate. }
  unfold bind at 1.
  destruct (updates_section R order rosters.1 s3) as [[[]|e0] s4] eqn:Hupd; cycle 1.
  { intros ?. simplify_eq. right. by eapply updates_section_raise. }
  unfold bind at 1.
  destruct (deactivates_section R order today rosters.1 (load_excludes json) s4)
    as [[[]|e0] s5] eqn:Hdea; cycle 1.
  { destruct (deactivates_section_effect rosters.1 (load_excludes json) s4)
      as (_ & Hok & _).
    rewrite Hdea in Hok. discriminate. }
  intros H. right. by eapply pwd_expires_section_raise.
Qed.

(** X5.  Only a read can end a run before the exit section.  When the script
    ends with an exception, either the exception is the [KeyError] of
    the lookup of the group "DC - Requestors" (right after
    [AccountGroup.find]), or the last call of the run is one of the reads
    ([utils.get_people], [AccountGroup.find], [Account.find]) and that call
    raised the exception.  No failure of [Account.create], of a link call, of
    [UsrPerson.find] or of [save], and not the [TypeError] of the
    deactivates loop, ends the run. *)
Theorem only_reads_end_the_run (json : list exclude) (s s' : state) (e : exn) :
  main R order today json s = (Raise e, s') →
  (e = Exn KeyError "'DC - Requestors'"
   ∧ ∃ before, calls s' = before ++ [Call_AccountGroup_find])
  ∨ ended_by_read e s'.
Proof.
  unfold main. unfold bind at 1.
  destruct (passes R order today json s) as [[[]|e0] s1] eqn:Hp; cycle 1.
  { intros ?. simplify_eq. by eapply passes_raise. }
  unfold bind at 1, log_results, log_info, log_.
  intros H. destruct (set_exit_code_Ok
    (State (world s1) (calls s1)
       (log s1 ++ [LogRecord INFO (results_message (buckets s1))])
       (planon_accounts s1) (buckets s1))) as [code Hok].
  rewrite H in Hok. discriminate.
Qed.


(** ** The trace of the loops *)

(** A loop whose round for [k] saves the account object of [k], changed by
    [g k], when [g k] has a change to make, and does nothing otherwise. *)
Lemma cond_save_loop_effect (g : string → Account.t → option Account.t)
    (body : string → M unit) :
  (∀ k s,
     (body k s).1 = Ok tt
     ∧ match planon_accounts s !! k ≫= g k with
       | Some a' =>
           calls (body k s).2 = calls s ++ [Call_Account_save a']
           ∧ planon_accounts (body k s).2 = <[k := a']> (planon_accounts s)
       | None =>
           calls (body k s).2 = calls s
           ∧ planon_accounts (body k s).2 = planon_accounts s
       end) →
  ∀ (l : list string) (s : state),
    NoDup l →
    let T := planon_accounts s in
    let r := for_each R l body s in
    r.1 = Ok tt
    ∧ calls r.2 = calls s ++ omap (λ k, Call_Account_save <$> (T !! k ≫= g k)) l
    ∧ (∀ k, k ∈ l → planon_accounts r.2 !! k = (λ a, default a (g k a)) <$> (T !! k))
    ∧ (∀ k, k ∉ l → planon_accounts r.2 !! k = T !! k).
Proof.
  intros Hbody l s Hnd T.
  set (calls_of := omap (λ k, Call_Account_save <$> (T !! k ≫= g k))).
  apply (for_each_ind (λ done s1,
           calls s1 = calls s ++ calls_of done
           ∧ (∀ k, k ∈ done →
                   planon_accounts s1 !! k = (λ a, default a (g k a)) <$> (T !! k))
           ∧ (∀ k, k ∉ done → planon_accounts s1 !! k = T !! k))).
  - intros k s1. apply Hbody.
  - intros done k rest s1 Hl (Hc & Hin & Hout).
    assert (k ∉ done) as Hk.
    { subst l. apply NoDup_app in Hnd as (_ & Hnd & _). intros Hd.
      apply (Hnd k Hd). by left. }
    destruct (Hbody k s1) as [_ Hb].
    rewrite (Hout k Hk) in Hb. unfold calls_of. rewrite omap_app. simpl.
    destruct (T !! k ≫= g k) as [a'|] eqn:Hg; simpl.
    + destruct Hb as [Hc' HT']. rewrite Hc', HT', Hc, <- app_assoc.
      split_and!; [done| |].
      * intros k'. rewrite elem_of_app, list_elem_of_singleton.
        destruct (decide (k' = k)) as [->|Hne].
        -- intros _. rewrite lookup_insert_eq.
           destruct (T !! k) as [a|]; [|done]. simpl in *. by rewrite Hg.
        -- intros [?|?]; [|done]. rewrite lookup_insert_ne by done. by apply Hin.
      * intros k'. rewrite elem_of_app, list_elem_of_singleton. intros Hn.
        rewrite lookup_insert_ne by (intros ->; apply Hn; by right).
        apply Hout. intros ?. apply Hn. by left.
    + destruct Hb as [Hc' HT']. rewrite Hc', HT', Hc, app_nil_r.
      split_and!; [done| |].
      * intros k'. rewrite elem_of_app, list_elem_of_singleton.
        intros [? | ->]; [by apply Hin|]. rewrite (Hout k Hk).
        destruct (T !! k) as [a|]; [|done]. simpl in *. by rewrite Hg.
      * intros k'. rewrite elem_of_app, list_elem_of_singleton. intros Hn.
        apply Hout. intros ?. apply Hn. by left.
  - unfold calls_of. simpl. rewrite app_nil_r. split_and!; [done| |done].
    intros k Hk. by apply elem_of_nil in Hk.
Qed.

(** One round of the updates loop, whatever the two dictionaries hold. *)
Lemma update_body_effect S (k : string) (s : state) :
  (update_body R S k s).1 = Ok tt
  ∧ match planon_accounts s !! k ≫= update_of S k with
    | Some a' =>
        calls (update_body R S k s).2 = calls s ++ [Call_Account_save a']
        ∧ planon_accounts (update_body R S k s).2 = <[k := a']> (planon_accounts s)
    | None =>
        calls (update_body R S k s).2 = calls s
        ∧ planon_accounts (update_body R S k s).2 = planon_accounts s
    end.
Proof.
  split; [apply update_try_except|].
  unfold update_of.
  destruct (S !! k) as [p|] eqn:Hp; cycle 1.
  { assert (calls (update_body R S k s).2 = calls s
            ∧ planon_accounts (update_body R S k s).2 = planon_accounts s) as Hnone.
    { unfold update_body, try_except, update_try, getitem. by rewrite Hp. }
    by destruct (planon_accounts s !! k). }
  destruct (planon_accounts s !! k) as [a|] eqn:Ha; cycle 1.
  { simpl. unfold update_body, try_except, update_try, getitem, get_planon_accounts.
    rewrite Hp. unfold bind, ret. by rewrite Ha. }
  simpl. destruct (decide (Some (name p) ≠ Account.Description a)) as [Hne|Heq].
  - by apply update_body_differ.
  - apply dec_stable in Heq. by rewrite (update_body_match S k s p a Hp Ha Heq).
Qed.

(** X8.  The trace of the updates loop: in the order of the loop, one [save]
    for each key of ToUpdate whose display name in the account snapshot
    differs from the name of the roster, carrying the account object with the
    name of the roster, and no call for the other keys.  The round of a key
    changes the account object of that key only, and only when the names
    differ. *)
Theorem updates_loop_saves_stale_names (S : gmap string person) (s : state) :
  let T := planon_accounts s in
  let U := updates T S in
  let r := updates_loop R order S s in
  r.1 = Ok tt
  ∧ calls r.2
    = calls s ++ omap (λ k, Call_Account_save <$> (T !! k ≫= update_of S k)) (order U)
  ∧ (∀ k p a, k ∈ U → S !! k = Some p → T !! k = Some a →
       planon_accounts r.2 !! k
       = Some (if decide (Some (name p) = Account.Description a) then a
               else Account.set_Description (Some (name p)) a))
  ∧ (∀ k, k ∉ U → planon_accounts r.2 !! k = T !! k).
Proof.
  intros T U r.
  pose proof (cond_save_loop_effect (update_of S) (update_body R S)
                (update_body_effect S) (order U) s (order_NoDup U))
    as (Hok & Hcalls & Hin & Hout).
  subst r. unfold updates_loop, bind, get_planon_accounts. fold T U.
  split_and!; [done|done| |].
  - intros k p a Hk Hp Ha. rewrite Hin by (by apply elem_of_order). fold T.
    rewrite Ha. simpl. unfold update_of. rewrite Hp. simpl.
    destruct (decide (Some (name p) = _)) as [Heq|Hne].
    + destruct (decide (Some (name p) ≠ _)) as [Hn|_]; [by destruct Hn|done].
    + destruct (decide (Some (name p) ≠ _)) as [_|Hn]; [done|by destruct Hn].
  - intros k Hk. apply Hout. by rewrite elem_of_order.
Qed.

(** The calls of one round of the inserts loop. *)
Lemma insert_body_calls S' group (k : string) (s : state) (p : person) :
  S' !! k = Some p →
  ∃ rest,
    calls (insert_body R today S' group k s).2
    = calls s ++ Call_Account_create (insert_values today k p) :: rest
    ∧ creates rest = [] ∧ (List.length rest ≤ 3)%nat.
Proof.
  intros Hp.
  assert (∀ (e : exn) (s1 : state),
            calls (if is_HTTPError e then insert_except_HTTPError R k e s1
                   else insert_except_Exception R k e s1).2 = calls s1) as Hexcept.
  { intros e s1.
    destruct (is_HTTPError e); unfold insert_except_HTTPError, insert_except_Exception;
      repeat case_match; reflexivity. }
  unfold insert_body, insert_try, getitem. rewrite Hp.
  unfold try_except, bind, remote, ret, log_debug, log_info, log_, append.
  cbn [world calls log planon_accounts buckets].
  destruct (Account_create R _ (world s)) as [[account|e] w1];
    cbn [world calls log planon_accounts buckets].
  2: { exists []. rewrite Hexcept. split; [done|]. split; [done|simpl; lia]. }
  destruct (AccountAccountGroup_create R _ w1) as [[[]|e] w2];
    cbn [world calls log planon_accounts buckets].
  2: { eexists [_]. rewrite Hexcept. cbn [calls]. rewrite <- app_assoc.
       split; [reflexivity|]. split; [done|simpl; lia]. }
  destruct (UsrPerson_find R _ w2) as [[found|e] w3];
    cbn [world calls log planon_accounts buckets].
  2: { eexists [_; _]. rewrite Hexcept. cbn [calls]. rewrite <- !app_assoc.
       split; [reflexivity|]. split; [done|simpl; lia]. }
  destruct found as [|planon_person [|other found]]; unfold unpack1, ret, raise;
    cbn [world calls log planon_accounts buckets].
  - eexists [_; _]. rewrite (Hexcept (Exn ValueError _)). cbn [calls].
    rewrite <- !app_assoc. split; [reflexivity|]. split; [done|simpl; lia].
  - destruct (AccountPerson_create R _ w3) as [[[]|e] w4];
      cbn [world calls log planon_accounts buckets].
    + eexists [_; _; _]. rewrite <- !app_assoc.
      split; [reflexivity|]. split; [done|simpl; lia].
    + eexists [_; _; _]. rewrite Hexcept. cbn [calls]. rewrite <- !app_assoc.
      split; [reflexivity|]. split; [done|simpl; lia].
  - eexists [_; _]. rewrite (Hexcept (Exn ValueError _)). cbn [calls].
    rewrite <- !app_assoc. split; [reflexivity|]. split; [done|simpl; lia].
Qed.

Lemma inserts_section_calls S' group :
  extends calls (λ c, is_insert_call c = true) (inserts_section R order today S' group).
Proof.
  unfold inserts_section, insert_body, insert_try, insert_except_HTTPError,
    insert_except_Exception, log_debug, log_info, log_warning, log_error.
  ext.
Qed.

(** X7.  The inserts section makes only the four calls of the insert action,
    at most four per key of ToInsert, and among them exactly one
    [Account.create] for each key of ToInsert, in the order of the loop, with
    the key as account name and the display name of the filtered roster. *)
Theorem one_create_per_insert_key (S' : gmap string person) (group : AccountGroup.t)
    (s : state) :
  let I := inserts S' (planon_accounts s) in
  let r := inserts_section R order today S' group s in
  ∃ cs,
    calls r.2 = calls s ++ cs
    ∧ Forall (λ c, is_insert_call c = true) cs
    ∧ Forall2 (λ k v, ∃ p, S' !! k = Some p ∧ v = insert_values today k p)
        (order I) (creates cs)
    ∧ (List.length cs ≤ 4 * size I)%nat.
Proof.
  intros I r.
  destruct (inserts_section_calls S' group s) as (cs & Hcs & Hall). fold r in Hcs.
  exists cs. split; [done|]. split; [done|].
  destruct (inserts_section_loop S' group s) as (s1 & _ & Hc1 & HT1 & _ & Hloop).
  fold I in Hloop. subst r. rewrite Hloop in Hcs.
  destruct (for_each_ind (λ done s2,
              ∃ cs', calls s2 = calls s1 ++ cs'
                     ∧ Forall2 (λ k v, ∃ p, S' !! k = Some p ∧ v = insert_values today k p)
                         done (creates cs')
                     ∧ (List.length cs' ≤ 4 * List.length done)%nat)
            (insert_body R today S' group) (order I) s1)
    as (_ & cs' & Hcs' & Hcreates & Hlen).
  - intros k s2. apply insert_body_outcome.
  - intros done k rest s2 Hl (cs' & Hcs' & Hcreates & Hlen).
    assert (k ∈ I) as Hk.
    { apply elem_of_order. rewrite Hl, elem_of_app. right. by left. }
    unfold I, inserts in Hk. apply elem_of_difference in Hk as [Hk _].
    apply elem_of_dom in Hk as [p Hp].
    destruct (insert_body_calls S' group k s2 p Hp) as (more & Hmore & Hnone & Hle).
    exists (cs' ++ Call_Account_create (insert_values today k p) :: more).
    split_and!.
    + by rewrite Hmore, Hcs', <- app_assoc.
    + assert (creates (cs' ++ Call_Account_create (insert_values today k p) :: more)
              = creates cs' ++ [insert_values today k p]) as ->.
      { unfold creates in *. rewrite omap_app. f_equal.
        change (insert_values today k p
                :: omap (λ c, match c with Call_Account_create v => Some v | _ => None end)
                     more = [insert_values today k p]).
        by rewrite Hnone. }
      apply Forall2_app; [done|]. constructor; [by exists p|constructor].
    + rewrite !length_app. simpl. lia.
  - exists []. rewrite app_nil_r. split_and!; [done|constructor|simpl; lia].
  - rewrite Hcs', Hc1 in Hcs. apply app_inv_head in Hcs. subst cs'.
    split; [done|]. by rewrite <- length_order.
Qed.


(** ** The trace of a whole run *)










(** ** The reconciler over a run *)

(** The [Account.create] calls of the inserts loop over keys of the roster
    it is given. *)
Lemma insert_loop_creates S' group (l : list string) (s : state) :
  (∀ k, k ∈ l → is_Some (S' !! k)) →
  let r := for_each R l (insert_body R today S' group) s in
  ∃ cs, calls r.2 = calls s ++ cs
        ∧ Forall2 (λ k v, ∃ p, S' !! k = Some p ∧ v = insert_values today k p)
            l (creates cs).
Proof.
  intros Hl. cbv zeta.
  apply (for_each_ind (λ done s2,
           ∃ cs, calls s2 = calls s ++ cs
                 ∧ Forall2 (λ k v, ∃ p, S' !! k = Some p ∧ v = insert_values today k p)
                     done (creates cs))).
  - intros k s2. apply insert_body_outcome.
  - intros done k rest s2 Heq (cs & Hcs & Hcreates).
    destruct (Hl k) as [p Hp]; [rewrite Heq, elem_of_app; right; by left|].
    destruct (insert_body_calls S' group k s2 p Hp) as (more & Hmore & Hnone & _).
    exists (cs ++ Call_Account_create (insert_values today k p) :: more). split.
    + by rewrite Hmore, Hcs, <- app_assoc.
    + assert (creates (cs ++ Call_Account_create (insert_values today k p) :: more)
              = creates cs ++ [insert_values today k p]) as ->.
      { unfold creates in *. rewrite omap_app. f_equal.
        change (insert_values today k p
                :: omap (λ c, match c with Call_Account_create v => Some v | _ => None end)
                     more = [insert_values today k p]).
        by rewrite Hnone. }
      apply Forall2_app; [done|]. constructor; [by exists p|constructor].
  - exists []. rewrite app_nil_r. split; [done|constructor].
Qed.

(** C3.  A run whose sections complete is this chain.  The roster is read
    twice and the accounts are fetched; ToInsert is the set of the netids of
    the eligible persons of the second read (those that are not non-persons
    and not of SERVICE affiliation) minus the keys of the account snapshot,
    and the inserts loop runs over it, with one [Account.create] per key.
    In the world that loop leaves, the accounts are fetched again; ToUpdate
    is the set of the keys of this second snapshot that are netids of the
    unfiltered roster (the first read), and the updates loop runs over it: it
    saves, with the name of the roster, the account of every key of ToUpdate
    whose display name differs, and nothing else.  The state it leaves is the
    one the deactivates section starts from, and the run ends with the
    pwd_expires section. *)
Theorem reconciler_insert_update (json : list exclude) (s0 s_end : state) :
  passes R order today json s0 = (Ok tt, s_end) →
  ∃ (people people' : list person) (groups : list AccountGroup.t)
    (accounts accounts' : list Account.t) (group : AccountGroup.t) w1 w2 w3
    (s1 s2 s2' s3 s4 : state) (ci : list call),
    let S := dict_comp netid people in
    let S' := dict_comp netid (filter eligible people') in
    let T := dict_comp account_key accounts in
    let T' := dict_comp account_key accounts' in
    utils_get_people R (world s0) = (Ok people, w1)
    ∧ utils_get_people R w1 = (Ok people', w2)
    ∧ AccountGroup_find R w2 = (Ok groups, w3)
    ∧ Account_find R account_filter w3 = (Ok accounts, world s1)
    ∧ calls s1 = calls s0 ++ [Call_get_people; Call_get_people; Call_AccountGroup_find;
                              Call_Account_find account_filter]
    ∧ planon_accounts s1 = T
    ∧ (∀ k, k ∈ inserts S' T
            ↔ (∃ p, p ∈ people' ∧ eligible p ∧ netid p = k)
              ∧ ¬ ∃ a, a ∈ accounts ∧ str_lower (Account.Accountname a) = k)
    ∧ for_each R (order (inserts S' T)) (insert_body R today S' group) s1 = (Ok tt, s2)
    ∧ calls s2 = calls s1 ++ ci
    ∧ Forall2 (λ k v, ∃ p, S' !! k = Some p ∧ v = insert_values today k p)
        (order (inserts S' T)) (creates ci)
    ∧ Account_find R account_filter (world s2) = (Ok accounts', world s2')
    ∧ calls s2' = calls s2 ++ [Call_Account_find account_filter]
    ∧ planon_accounts s2' = T'
    ∧ (∀ k, k ∈ updates T' S
            ↔ (∃ a, a ∈ accounts' ∧ str_lower (Account.Accountname a) = k)
              ∧ ∃ p, p ∈ people ∧ netid p = k)
    ∧ for_each R (order (updates T' S)) (update_body R S) s2' = (Ok tt, s3)
    ∧ calls s3
      = calls s2'
        ++ omap (λ k, Call_Account_save <$> (T' !! k ≫= update_of S k))
             (order (updates T' S))
    ∧ (∀ k p a, k ∈ updates T' S → S !! k = Some p → T' !! k = Some a →
         planon_accounts s3 !! k
         = Some (if decide (Some (name p) = Account.Description a) then a
                 else Account.set_Description (Some (name p)) a))
    ∧ (∀ k, k ∉ updates T' S → planon_accounts s3 !! k = T' !! k)
    ∧ deactivates_section R order today S (load_excludes json) s3 = (Ok tt, s4)
    ∧ pwd_expires_section R order s4 = (Ok tt, s_end).
Proof.
  intros Hrun.
  apply passes_inv in Hrun
    as (people & people' & groups & group & accounts & w1 & w2 & w3
        & sa & s2 & s3 & s4 & Hp1 & Hp2 & Hgr & _ & Hfind & HT & Hca & Hins & Hupd
        & Hdea & Hpwd).
  set (S := dict_comp netid people) in *.
  set (S' := dict_comp netid (filter eligible people')) in *.
  destruct (inserts_section_loop S' group sa) as (s1 & Hw1 & Hc1 & HT1 & _ & Hloop).
  rewrite HT in Hloop. rewrite Hloop in Hins.
  destruct (insert_loop_creates S' group
              (order (inserts S' (dict_comp account_key accounts))) s1)
    as (ci & Hci & Hcreates).
  { intros k Hk. apply elem_of_order in Hk. unfold inserts in Hk.
    apply elem_of_difference in Hk as [Hk _]. by apply elem_of_dom. }
  rewrite Hins in Hci. cbn [snd] in Hci.
  destruct (updates_section_find _ _ _ Hupd) as (accounts' & w & Hfind').
  destruct (updates_section_loop S s2 accounts' w Hfind')
    as (s2' & Hw2 & Hc2 & HT2 & _ & Hloop').
  rewrite Hloop' in Hupd.
  pose proof (cond_save_loop_effect (update_of S) (update_body R S)
                (update_body_effect S)
                (order (updates (dict_comp account_key accounts') S)) s2'
                (order_NoDup _))
    as (_ & Hcu & Hin_u & Hout_u).
  rewrite Hupd in Hcu, Hin_u, Hout_u. cbn [snd] in Hcu, Hin_u, Hout_u.
  rewrite HT2 in Hcu, Hin_u, Hout_u.
  exists people, people', groups, accounts, accounts', group, w1, w2, w3,
    s1, s2, s2', s3, s4, ci.
  cbv zeta. split_and!; try done.
  - by rewrite Hw1.
  - by rewrite Hc1.
  - by rewrite HT1.
  - apply elem_of_inserts.
  - by rewrite Hw2.
  - apply elem_of_updates.
  - intros k p a Hk Hp Ha. rewrite Hin_u by (by apply elem_of_order).
    rewrite Ha. simpl. unfold update_of, S. rewrite Hp. simpl.
    destruct (decide (Some (name p) = _)) as [Heq|Hne].
    + destruct (decide (Some (name p) ≠ _)) as [Hn|_]; [by destruct Hn|done].
    + destruct (decide (Some (name p) ≠ _)) as [_|Hn]; [done|by destruct Hn].
  - intros k Hk. apply Hout_u. by rewrite elem_of_order.
Qed.

(** ** Account objects are shared between the loops *)

Lemma pwd_expires_section_saves (s : state) accounts w :
  Account_find R account_filter_pwd (world s) = (Ok accounts, w) →
  let T := planon_accounts s in
  let P := pwd_expires (dict_comp account_key accounts) in
  let r := pwd_expires_section R order s in
  r.1 = Ok tt
  ∧ calls r.2
    = calls s
      ++ Call_Account_find account_filter_pwd
         :: omap (λ k, (λ a, Call_Account_save (Account.set_PasswordNeverExpires true a))
                       <$> (T !! k)) (order P).
Proof.
  intros Hfind T P r.
  destruct (pwd_expires_section_loop s accounts w Hfind)
    as (s1 & _ & Hc & HT & _ & Hloop).
  pose proof (save_loop_effect (Account.set_PasswordNeverExpires true)
                (pwd_expire_body R) pwd_expire_body_effect
                (order P) s1 (order_NoDup P))
    as (Hok & Hcalls & _ & _).
  subst r. fold P in Hloop. rewrite Hloop. rewrite HT, Hc in *.
  split; [done|]. rewrite Hcalls. by rewrite <- app_assoc.
Qed.

(** X9.  The three later loops work on the same account objects: what the
    updates loop and the deactivates loop assign to an object stays on it,
    whether or not their [save] went through, and the [save] of the
    pwd_expires loop sends it along.  For a key of the password query, the
    object saved with the password flag carries the display name of the
    roster when the key was in ToUpdate, and the run date as end date when
    the key was in ToDeactivate. *)
Theorem later_saves_carry_earlier_changes (S : gmap string person)
    (E : gmap string exclude) (s : state) (accounts : list Account.t) w :
  let T := planon_accounts s in
  let s3 := (updates_loop R order S s).2 in
  let s4 := (deactivates_section R order today S E s3).2 in
  let r := pwd_expires_section R order s4 in
  Account_find R account_filter_pwd (world s4) = (Ok accounts, w) →
  ∀ k a, k ∈ pwd_expires (dict_comp account_key accounts) → T !! k = Some a →
    (∀ p, S !! k = Some p →
       Call_Account_save
         (Account.set_PasswordNeverExpires true
            (if decide (Some (name p) = Account.Description a) then a
             else Account.set_Description (Some (name p)) a)) ∈ calls r.2)
    ∧ (k ∈ deactivates T S E →
       Call_Account_save
         (Account.set_PasswordNeverExpires true (Account.set_EndDate (Some today) a))
       ∈ calls r.2)
    ∧ (k ∉ dom S → k ∈ dom E →
       Call_Account_save (Account.set_PasswordNeverExpires true a) ∈ calls r.2).
Proof.
  intros T s3 s4 r Hfind k a Hk Ha.
  (* what the updates loop leaves *)
  pose proof (cond_save_loop_effect (update_of S) (update_body R S)
                (update_body_effect S) (order (updates T S)) s (order_NoDup _))
    as (_ & _ & Hin_u & Hout_u).
  change (for_each R (order (updates T S)) (update_body R S) s).2 with s3
    in Hin_u, Hout_u.
  change (planon_accounts s) with T in Hin_u, Hout_u.
  destruct (updates_loop_names S s) as (_ & Hdom & _). fold s3 T in Hdom.
  assert (deactivates (planon_accounts s3) S E = deactivates T S E) as HD.
  { unfold deactivates. by rewrite Hdom. }
  (* what the deactivates loop leaves *)
  destruct (deactivates_section_effect S E s3) as (_ & _ & _ & Hin_d & Hout_d & _).
  fold s4 in Hin_d, Hout_d. rewrite HD in Hin_d, Hout_d.
  (* the saves of the pwd_expires loop *)
  destruct (pwd_expires_section_saves s4 accounts w Hfind) as [_ Hcalls].
  fold r in Hcalls.
  assert (∀ a4, planon_accounts s4 !! k = Some a4 →
            Call_Account_save (Account.set_PasswordNeverExpires true a4) ∈ calls r.2)
    as Hsave.
  { intros a4 Ha4. rewrite Hcalls, elem_of_app. right. right.
    apply list_elem_of_omap. exists k. split; [by apply elem_of_order|].
    by rewrite Ha4. }
  assert (k ∈ dom T) as HkT by (by apply elem_of_dom).
  split_and!.
  - intros p Hp. apply Hsave.
    assert (k ∈ updates T S) as HkU.
    { unfold updates. apply elem_of_intersection. split; [done|]. by apply elem_of_dom. }
    rewrite Hout_d; cycle 1.
    { unfold deactivates. rewrite !elem_of_difference. intros [[_ Hn] _]. apply Hn.
      by apply elem_of_dom. }
    rewrite Hin_u by (by apply elem_of_order). rewrite Ha. simpl. f_equal.
    unfold update_of. rewrite Hp. simpl.
    destruct (decide (Some (name p) = _)) as [Heq|Hne].
    + destruct (decide (Some (name p) ≠ _)) as [Hn|_]; [by destruct Hn|done].
    + destruct (decide (Some (name p) ≠ _)) as [_|Hn]; [done|by destruct Hn].
  - intros HkD. apply Hsave. rewrite (Hin_d k HkD).
    rewrite Hout_u; cycle 1.
    { rewrite elem_of_order. unfold updates. rewrite elem_of_intersection.
      intros [_ HkS]. unfold deactivates in HkD. rewrite !elem_of_difference in HkD.
      tauto. }
    by rewrite Ha.
  - intros HkS HkE. apply Hsave.
    rewrite Hout_d; cycle 1.
    { unfold deactivates. rewrite !elem_of_difference. tauto. }
    rewrite Hout_u; [done|].
    rewrite elem_of_order. unfold updates. rewrite elem_of_intersection. tauto.
Qed.

(** ** Keys of the password query that the snapshot does not hold *)

Lemma pwd_expire_body_lists (k : string) (s : state) :
  let r := pwd_expire_body R k s in
  match planon_accounts s !! k with
  | Some _ => appended_to pwd_expire_succeeded k s r.2
              ∨ appended_to pwd_expire_failed k s r.2
  | None => appended_to pwd_expire_failed k s r.2
  end.
Proof.
  cbv zeta. destruct (planon_accounts s !! k) as [a|] eqn:Ha.
  - destruct (pwd_expire_try_except k s) as [_ H].
    destruct (pwd_expire_try R k s) as [[[]|e] s1]; [by left|by right].
  - by apply pwd_expire_body_missing.
Qed.

(** The two lists of the pwd_expires loop, by whether the snapshot holds the
    key. *)
Lemma pwd_expire_loop_lists (l : list string) (s : state) :
  buckets s pwd_expire_succeeded = [] →
  let T := planon_accounts s in
  let r := for_each R l (pwd_expire_body R) s in
  (∀ k, planon_accounts r.2 !! k = None ↔ T !! k = None)
  ∧ (∀ k, k ∈ buckets r.2 pwd_expire_succeeded → k ∈ l ∧ is_Some (T !! k))
  ∧ (∀ k, k ∈ l → T !! k = None → k ∈ buckets r.2 pwd_expire_failed).
Proof.
  intros Hs0 T. cbv zeta.
  apply (for_each_ind (λ done s2,
           (∀ k, planon_accounts s2 !! k = None ↔ T !! k = None)
           ∧ (∀ k, k ∈ buckets s2 pwd_expire_succeeded → k ∈ done ∧ is_Some (T !! k))
           ∧ (∀ k, k ∈ done → T !! k = None → k ∈ buckets s2 pwd_expire_failed))).
  - intros k s2. apply pwd_expire_try_except.
  - intros done k rest s2 _ (Hnone & Hsucc & Hfail).
    pose proof (pwd_expire_body_lists k s2) as Hlists.
    destruct (pwd_expire_body_effect k s2) as [_ Heff]. cbv zeta in Hlists.
    destruct (planon_accounts s2 !! k) as [a|] eqn:Ha.
    + destruct Heff as [_ ->].
      assert (is_Some (T !! k)) as HTk.
      { apply not_eq_None_Some. rewrite <- Hnone. by rewrite Ha. }
      split_and!.
      * intros k'. destruct (decide (k' = k)) as [->|Hne].
        -- rewrite lookup_insert_eq. split; [done|]. intros HN.
           rewrite HN in HTk. by destruct HTk.
        -- rewrite lookup_insert_ne by done. apply Hnone.
      * intros k'. destruct Hlists as [Hl|Hl]; rewrite (Hl pwd_expire_succeeded);
          case_decide; try done.
        -- rewrite !elem_of_app, list_elem_of_singleton. intros [Hk'| ->].
           ++ destruct (Hsucc k' Hk'). by split; [left|].
           ++ by split; [right|].
        -- rewrite elem_of_app. intros Hk'. destruct (Hsucc k' Hk'). by split; [left|].
      * intros k'. rewrite elem_of_app, list_elem_of_singleton. intros [Hk'| ->] HN.
        -- destruct Hlists as [Hl|Hl]; rewrite (Hl pwd_expire_failed);
             case_decide; try done; [|rewrite elem_of_app; left]; by apply Hfail.
        -- rewrite HN in HTk. by destruct HTk.
    + destruct Heff as [_ ->]. split_and!; [done| |].
      * intros k'. rewrite (Hlists pwd_expire_succeeded). case_decide; [done|].
        rewrite elem_of_app. intros Hk'. destruct (Hsucc k' Hk'). by split; [left|].
      * intros k'. rewrite (Hlists pwd_expire_failed). case_decide; [|done].
        rewrite !elem_of_app, !list_elem_of_singleton. intros [Hk'| ->] HN.
        -- left. by apply Hfail.
        -- by right.
  - rewrite Hs0. split_and!; [done| |].
    + intros k Hk. by apply elem_of_nil in Hk.
    + intros k Hk. by apply elem_of_nil in Hk.
Qed.

Lemma pwd_expires_section_lists (s : state) (accounts : list Account.t) w :
  Account_find R account_filter_pwd (world s) = (Ok accounts, w) →
  let T := planon_accounts s in
  let P := pwd_expires (dict_comp account_key accounts) in
  let r := pwd_expires_section R order s in
  (∀ k, planon_accounts r.2 !! k = None ↔ T !! k = None)
  ∧ (∀ k, k ∈ buckets r.2 pwd_expire_succeeded → k ∈ P ∧ is_Some (T !! k))
  ∧ (∀ k, k ∈ P → T !! k = None → k ∈ buckets r.2 pwd_expire_failed).
Proof.
  intros Hfind T P r.
  destruct (pwd_expires_section_loop s accounts w Hfind)
    as (s1 & _ & _ & HT & Hnil & Hloop).
  fold P in Hloop. unfold pwd_expire_outcomes in Hnil.
  apply app_eq_nil in Hnil as [Hs0 _].
  destruct (pwd_expire_loop_lists (order P) s1 Hs0) as (Hnone & Hsucc & Hfail).
  rewrite HT in Hnone, Hsucc, Hfail. subst r. rewrite Hloop. split_and!.
  - done.
  - intros k Hk. destruct (Hsucc k Hk) as [Hin HS]. split; [|done].
    by apply elem_of_order in Hin.
  - intros k Hk HN. apply Hfail; [by apply elem_of_order|done].
Qed.

(** X10.  The pwd_expires loop takes its keys from the password query but
    the account objects from the snapshot of the updates section.  A key of
    the query that the snapshot does not hold (an account that appeared
    between the two queries) raises [KeyError] inside the [try]: no call is
    made for it, it is appended to [pwd_expire_failed], and the record logged
    gives the [repr] of the key as the reason (for a key of plain characters,
    the key in single quotes).  After the section every such key is in
    [pwd_expire_failed] and not in [pwd_expire_succeeded], and every key of
    [pwd_expire_succeeded] is a key of the query that the snapshot holds. *)
Theorem pwd_keys_outside_the_snapshot (s : state) (accounts : list Account.t) w :
  Account_find R account_filter_pwd (world s) = (Ok accounts, w) →
  let T := planon_accounts s in
  let P := pwd_expires (dict_comp account_key accounts) in
  let r := pwd_expires_section R order s in
  (∀ k, k ∈ P → T !! k = None →
        k ∈ buckets r.2 pwd_expire_failed
        ∧ (k ∉ buckets r.2 pwd_expire_succeeded)
        ∧ planon_accounts r.2 !! k = None)
  ∧ (∀ k, k ∈ buckets r.2 pwd_expire_succeeded → k ∈ P ∧ is_Some (T !! k))
  ∧ (∀ (k : string) (s1 : state),
       planon_accounts s1 !! k = None →
       pwd_expire_body R k s1
       = (Ok tt,
          State (world s1) (calls s1)
            (log s1 ++ [LogRecord ERROR ("Failed to modify account " +:+ k
                                         +:+ " due to exception " +:+ repr k)])
            (planon_accounts s1)
            (λ b, if decide (b = pwd_expire_failed) then buckets s1 b ++ [k]
                  else buckets s1 b)))
  ∧ (∀ k : string, Str.plain k = true → repr k = "'" +:+ k +:+ "'").
Proof.
  intros Hfind T P r.
  destruct (pwd_expires_section_lists s accounts w Hfind) as (Hnone & Hsucc & Hfail).
  fold T P r in Hnone, Hsucc, Hfail.
  split_and!.
  - intros k Hk HN. split_and!.
    + by apply Hfail.
    + intros Hin. destruct (Hsucc k Hin) as [_ HS]. rewrite HN in HS. by destruct HS.
    + by apply Hnone.
  - done.
  - intros k s2 HN.
    unfold pwd_expire_body, try_except, pwd_expire_try, getitem, get_planon_accounts.
    unfold bind, ret. rewrite HN. reflexivity.
  - apply repr_plain.
Qed.

(** ** The password flag *)

(** C8 (as the code has it).  ToNormalizePwdFlag is the set of the keys
    (lower-cased account names) of the accounts that Planon returns for the
    query "no end date and password-never-expires false".  The loop takes the
    account object of a key from the snapshot [planon_accounts] of the
    updates section.  For a key that the snapshot holds, it sets
    password-never-expires to true on that object, leaving its other fields,
    and calls [save] with it, once.  For a key that the snapshot does not
    hold, no account is saved: the key goes to [pwd_expire_failed], not to
    [pwd_expire_succeeded].  These saves are all the calls of the loop. *)
Theorem normalize_password_flag (s : state) (accounts : list Account.t) w :
  Account_find R [("EndDate", exists_ false); ("PasswordNeverExpires", eq_bool false)]
    (world s) = (Ok accounts, w) →
  let T := planon_accounts s in
  let P := pwd_expires (dict_comp account_key accounts) in
  let r := pwd_expires_section R order s in
  let flagged := λ a, Account.Make (Account.Accountname a) (Account.Description a)
                        (Account.EndDate a) true (Account.Syscode a) in
  (∀ k, k ∈ P ↔ ∃ a, a ∈ accounts ∧ str_lower (Account.Accountname a) = k)
  ∧ (∀ all : list Account.t,
       accounts = filter (λ a, Account.EndDate a = None
                               ∧ Account.PasswordNeverExpires a = false) all →
       ∀ k, k ∈ P ↔ ∃ a, a ∈ all ∧ Account.EndDate a = None
                         ∧ Account.PasswordNeverExpires a = false
                         ∧ str_lower (Account.Accountname a) = k)
  ∧ r.1 = Ok tt
  ∧ calls r.2
    = calls s
      ++ Call_Account_find
           [("EndDate", exists_ false); ("PasswordNeverExpires", eq_bool false)]
         :: omap (λ k, (λ a, Call_Account_save (flagged a)) <$> (T !! k)) (order P)
  ∧ (∀ k a, k ∈ P → T !! k = Some a →
            planon_accounts r.2 !! k = Some (flagged a)
            ∧ Call_Account_save (flagged a) ∈ calls r.2)
  ∧ (∀ k, k ∈ P → T !! k = None →
          planon_accounts r.2 !! k = None
          ∧ k ∈ buckets r.2 pwd_expire_failed
          ∧ (k ∉ buckets r.2 pwd_expire_succeeded))
  ∧ (∀ c, c ∈ calls r.2 → c ∈ calls s
          ∨ c = Call_Account_find
                  [("EndDate", exists_ false); ("PasswordNeverExpires", eq_bool false)]
          ∨ ∃ k a, k ∈ P ∧ T !! k = Some a ∧ c = Call_Account_save (flagged a))
  ∧ (∀ k, k ∉ P → planon_accounts r.2 !! k = T !! k).
Proof.
  intros Hfind T P r flagged.
  change [("EndDate", exists_ false); ("PasswordNeverExpires", eq_bool false)]
    with account_filter_pwd in *.
  assert (∀ k, k ∈ P ↔ ∃ a, a ∈ accounts ∧ str_lower (Account.Accountname a) = k)
    as HP by (intros k; apply dict_comp_dom).
  destruct (pwd_expires_section_lists s accounts w Hfind) as (Hnone & Hsucc & Hfail).
  fold T P r in Hnone, Hsucc, Hfail.
  destruct (pwd_expires_section_loop s accounts w Hfind)
    as (s1 & _ & Hc & HT & _ & Hloop).
  pose proof (save_loop_effect (Account.set_PasswordNeverExpires true)
                (pwd_expire_body R) pwd_expire_body_effect
                (order P) s1 (order_NoDup P))
    as (Hok & Hcalls & Hin & Hout).
  fold P in Hloop. rewrite <- Hloop in Hok, Hcalls, Hin, Hout. fold r in Hok, Hcalls, Hin, Hout.
  rewrite HT, Hc in *. fold T in Hin, Hout, Hcalls.
  assert (calls r.2
          = calls s
            ++ Call_Account_find account_filter_pwd
               :: omap (λ k, (λ a, Call_Account_save (flagged a)) <$> (T !! k)) (order P))
    as Hcalls' by (by rewrite Hcalls, <- app_assoc).
  split_and!; try done.
  - intros all -> k. rewrite HP. split.
    + intros (a & Ha & Hk). apply list_elem_of_filter in Ha as [[??] ?]. by exists a.
    + intros (a & Ha & He & Hf & Hk). exists a. split; [|done].
      by apply list_elem_of_filter.
  - intros k a Hk Ha. split.
    + rewrite Hin by (by apply elem_of_order). by rewrite Ha.
    + rewrite Hcalls', !elem_of_app. right. right. apply list_elem_of_omap.
      exists k. split; [by apply elem_of_order|]. by rewrite Ha.
  - intros k Hk HN. split_and!.
    + by apply Hnone.
    + by apply Hfail.
    + intros Hin'. destruct (Hsucc k Hin') as [_ HS]. rewrite HN in HS. by destruct HS.
  - intros c. rewrite Hcalls', elem_of_app, elem_of_cons.
    intros [?|[?|Hc']]; [by left|by right; left|]. right. right.
    apply list_elem_of_omap in Hc' as (k & Hk & Hc').
    destruct (T !! k) as [a|] eqn:Ha; [|done]. simpl in Hc'. simplify_eq.
    exists k, a. split; [by apply elem_of_order in Hk|done].
  - intros k Hk. apply Hout. by rewrite elem_of_order.
Qed.

(** ** An empty roster *)





(** ** Keys in lower case *)

Lemma lower_char_id (c : ascii) : Str.is_upper c = false → Str.lower_char c = c.
Proof. unfold Str.lower_char. by intros ->. Qed.

Lemma lower_id (s : string) : Str.has_ascii_upper s = false → Str.lower_ascii s = s.
Proof.
  induction s as [|c s IH]; [done|]. simpl. intros H.
  apply orb_false_iff in H as [Hc Hs]. by rewrite lower_char_id, IH.
Qed.

(** X12.  Matching is blind to case for a netid that is its own
    lower-casing, as every ASCII netid without the letters A to Z is.  When a
    person of the unfiltered roster, eligible or not (a service or non-person
    entry counts), has such a netid and an account of the snapshot has that
    netid as its name up to case, the key is in ToUpdate, it is not in
    ToInsert, and it is not in ToDeactivate, whatever the exclusion file
    says. *)
Theorem roster_member_with_lower_case_netid_is_kept (people people' : list person)
    (accounts : list Account.t) (json : list exclude) :
  let S := dict_comp netid people in
  let S' := dict_comp netid (filter eligible people') in
  let T := dict_comp account_key accounts in
  let E := load_excludes json in
  (∀ k, Str.is_ascii k = true → Str.has_ascii_upper k = false → str_lower k = k)
  ∧ ∀ (p : person) (a : Account.t),
      p ∈ people → a ∈ accounts →
      str_lower (netid p) = netid p →
      str_lower (Account.Accountname a) = str_lower (netid p) →
      netid p ∈ updates T S
      ∧ (netid p ∉ inserts S' T)
      ∧ (netid p ∉ deactivates T S E).
Proof.
  intros S S' T E. split.
  { intros k Hascii Hlow. rewrite (str_lower_ascii k Hascii). by apply lower_id. }
  intros p a Hp Ha Hlow Hname. rewrite Hlow in Hname.
  assert (netid p ∈ dom T) as HT by (apply dict_comp_dom; by exists a).
  assert (netid p ∈ dom S) as HS by (apply dict_comp_dom; by exists p).
  split_and!.
  - unfold updates. by apply elem_of_intersection.
  - unfold inserts. rewrite elem_of_difference. tauto.
  - unfold deactivates. rewrite !elem_of_difference. tauto.
Qed.

(** X13.  The two rosters come from two reads.  When both reads return the
    same list, every key of ToInsert is a netid of the unfiltered roster: so,
    whatever the second snapshot holds, no key of ToInsert is in
    ToDeactivate, and a key of ToInsert that the second snapshot holds (the
    account just created) is in ToUpdate. *)
Theorem inserted_keys_are_not_deactivated (people : list person)
    (T1 T2 : gmap string Account.t) (E : gmap string exclude) (k : string) :
  let S := dict_comp netid people in
  let S' := dict_comp netid (filter eligible people) in
  k ∈ inserts S' T1 →
  k ∈ dom S
  ∧ (k ∉ deactivates T2 S E)
  ∧ (k ∈ dom T2 → k ∈ updates T2 S).
Proof.
  intros S S' Hk. unfold inserts in Hk. apply elem_of_difference in Hk as [Hk _].
  assert (k ∈ dom S) as HS.
  { apply dict_comp_dom in Hk as (p & Hp & Hkey).
    apply list_elem_of_filter in Hp as [_ Hp]. apply dict_comp_dom. by exists p. }
  split_and!; [done| |].
  - unfold deactivates. rewrite !elem_of_difference. tauto.
  - intros HT. unfold updates. by apply elem_of_intersection.
Qed.

(** ** The text of a failure *)

Lemma prefix_spec (a b : string) : String.prefix a b = true ↔ ∃ post, b = a +:+ post.
Proof.
  revert b. induction a as [|c a IH]; intros [|c' b]; simpl.
  - split; [|done]. intros _. by exists "".
  - split; [|done]. intros _. by exists (String c' b).
  - split; [done|]. by intros [post ?].
  - destruct (ascii_dec c c') as [->|Hne].
    + rewrite IH. split; intros [post Hpost]; exists post.
      * by rewrite Hpost.
      * change (String c' b = String c' (a +:+ post)) in Hpost. by injection Hpost.
    + split; [done|]. intros [post Hpost].
      change (String c' b = String c (a +:+ post)) in Hpost. by injection Hpost.
Qed.

Lemma contains_nil (sub : string) : Str.contains sub "" = String.prefix sub "".
Proof. apply orb_false_r. Qed.

Lemma contains_cons (sub : string) (c : ascii) (s : string) :
  Str.contains sub (String c s) = String.prefix sub (String c s) || Str.contains sub s.
Proof. reflexivity. Qed.

Lemma contains_spec (sub s : string) :
  Str.contains sub s = true ↔ ∃ pre post, s = pre +:+ sub +:+ post.
Proof.
  split.
  - induction s as [|c s IH].
    + rewrite contains_nil. intros H. apply prefix_spec in H as [post H].
      by exists "", post.
    + rewrite contains_cons. intros H. apply orb_true_iff in H as [H|H].
      * apply prefix_spec in H as [post H]. by exists "", post.
      * destruct (IH H) as (pre & post & ->). by exists (String c pre), post.
  - intros (pre & post & ->). induction pre as [|c pre IH].
    + assert (String.prefix sub (sub +:+ post) = true) as Hp
        by (apply prefix_spec; by exists post).
      change ("" +:+ sub +:+ post) with (sub +:+ post).
      destruct (sub +:+ post) as [|c rest].
      * by rewrite contains_nil.
      * by rewrite contains_cons, Hp.
    + change (String c pre +:+ sub +:+ post) with (String c (pre +:+ sub +:+ post)).
      rewrite contains_cons, IH. apply orb_true_r.
Qed.

(** X14.  How the handlers of the inserts loop read a failure.  A failure
    is skipped exactly when it is an [HTTPError] whose text has the words
    "not unique" somewhere inside (in this spelling); it is a failure to link
    the person exactly when it is not skipped and its text has "unpack"
    somewhere inside, whatever its class.  So a text with both goes to
    skipped when the failure is an [HTTPError]; and both texts of a failed
    one-element unpacking go to failed-to-link. *)
Theorem insert_failures_by_substring (e : exn) :
  (insert_category e = inserts_skipped
   ↔ class_of e = HTTPError ∧ ∃ pre post, str e = pre +:+ "not unique" +:+ post)
  ∧ (insert_category e = inserts_failed_to_link_person
     ↔ insert_category e ≠ inserts_skipped
       ∧ ∃ pre post, str e = pre +:+ "unpack" +:+ post)
  ∧ (∀ (A : Type) (found : list A) (s : state),
       List.length found ≠ 1%nat →
       ∃ e', unpack1 R found s = (Raise e', s)
             ∧ class_of e' = ValueError
             ∧ insert_category e' = inserts_failed_to_link_person).
Proof.
  assert (is_HTTPError e = true ↔ class_of e = HTTPError) as Hclass.
  { unfold is_HTTPError. destruct (class_of e); split; congruence. }
  split_and!.
  - rewrite <- contains_spec, <- Hclass. unfold insert_category.
    destruct (is_HTTPError e), (Str.contains "not unique" (str e)); simpl;
      repeat case_match; split; try done; intros [??]; done.
  - rewrite <- contains_spec. unfold insert_category.
    destruct (is_HTTPError e), (Str.contains "not unique" (str e)),
      (Str.contains "unpack" (str e)); simpl; split; try done; intros [??]; done.
  - intros A found s Hlen. destruct found as [|x [|y found]]; [|done|];
      (eexists; split; [reflexivity|]; split; reflexivity).
Qed.


(** ** What reaches the stream *)

Lemma emitted_app (n : nat) (l l' : list log_record) :
  Logging.emitted n (l ++ l') = Logging.emitted n l ++ Logging.emitted n l'.
Proof. unfold Logging.emitted. apply filter_app. Qed.

Lemma emitted_below (n : nat) (l : list log_record) :
  Forall (λ r, (Logging.levelno (levelname r) < n)%nat) l → Logging.emitted n l = [].
Proof.
  unfold Logging.emitted. induction 1 as [|r l Hr _ IH]; [done|].
  rewrite filter_cons. case_decide; [lia|done].
Qed.

Lemma emitted_above (n : nat) (l : list log_record) :
  Forall (λ r, (n ≤ Logging.levelno (levelname r))%nat) l → Logging.emitted n l = l.
Proof.
  unfold Logging.emitted. induction 1 as [|r l Hr _ IH]; [done|].
  rewrite filter_cons. case_decide; [by rewrite IH|lia].
Qed.

Lemma updates_section_log S :
  extends log (λ r, (Logging.levelno (levelname r) ≤ Logging.levelno INFO)%nat)
    (updates_section R order S).
Proof.
  unfold updates_section, updates_loop, update_body, update_try, update_except,
    fetch_planon_accounts, log_debug, log_info.
  ext.
Qed.

(** X15.  A failure of the updates loop is logged at level INFO (with a text
    about the linked person, whatever failed), where the pwd_expires and
    deactivates loops log theirs at level ERROR.  The updates section logs
    nothing above INFO: under a root level of WARNING none of its records
    reaches the stream, whatever failed. *)
Theorem update_failures_are_logged_at_info (S : gmap string person) :
  extends log (λ r, (Logging.levelno (levelname r) ≤ Logging.levelno INFO)%nat)
    (updates_section R order S)
  ∧ (∀ s : state,
       Logging.emitted (Logging.levelno WARNING) (log (updates_section R order S s).2)
       = Logging.emitted (Logging.levelno WARNING) (log s))
  ∧ (∀ (k : string) (e : exn) (s s1 : state),
       update_try R S k s = (Raise e, s1) →
       log (update_body R S k s).2
       = log s1 ++ [LogRecord INFO ("Failed to find the linked person for  " +:+ k
                                    +:+ " exception " +:+ str e)])
  ∧ (∀ (k : string) (e : exn) (s s1 : state),
       pwd_expire_try R k s = (Raise e, s1) →
       log (pwd_expire_body R k s).2
       = log s1 ++ [LogRecord ERROR ("Failed to modify account " +:+ k
                                     +:+ " due to exception " +:+ str e)])
  ∧ (∀ (k : string) (e : exn) (s s1 : state),
       deactivate_try R today k s = (Raise e, s1) →
       log (try_except R (deactivate_try R today k)
              (deactivate_except R k) (deactivate_except R k) s).2
       = log s1 ++ [LogRecord ERROR ("Failed to deactivate account " +:+ k
                                     +:+ " exception " +:+ str e)]).
Proof.
  split_and!.
  - apply updates_section_log.
  - intros s. destruct (updates_section_log S s) as (l & -> & Hl).
    rewrite emitted_app, (emitted_below _ l), app_nil_r; [done|].
    eapply Forall_impl; [exact Hl|]. intros r. simpl. lia.
  - intros k e s s1 Htry. unfold update_body, try_except. rewrite Htry.
    by destruct (is_HTTPError e).
  - intros k e s s1 Htry. unfold pwd_expire_body, try_except. rewrite Htry.
    by destruct (is_HTTPError e).
  - intros k e s s1 Htry. unfold try_except. rewrite Htry.
    by destruct (is_HTTPError e).
Qed.

(** The log of a run that reaches the exit section. *)
Lemma main_log (json : list exclude) (s s' : state) (code : Z) :
  main R order today json s = (Ok code, s') →
  ∃ before after : list log_record,
    log s' = log s ++ before ++ LogRecord INFO (results_message (buckets s')) :: after
    ∧ no_results before ∧ no_results after
    ∧ Forall (λ r, levelname r = WARNING ∨ code = EX_OK) after
    ∧ (code = EX_DATAERR → after ≠ []).
Proof.
  intros Hmain.
  apply main_inv in Hmain as (s1 & Hpasses & Hexit).
  destruct (lnr_passes json s) as (before & Hbefore & Hnb).
  rewrite Hpasses in Hbefore. cbn [snd] in Hbefore.
  set (s2 := State _ _ _ _ _) in Hexit.
  assert (∃ after, log s' = log s2 ++ after ∧ no_results after ∧ buckets s' = buckets s1
                   ∧ Forall (λ r, levelname r = WARNING ∨ code = EX_OK) after
                   ∧ (code = EX_DATAERR → after ≠ []))
    as (after & Hafter & Hna & Hsame & Hlevels & Hne).
  { destruct (decide (buckets s2 inserts_skipped = [])) as [Hs|Hs].
    - destruct (decide (buckets s2 inserts_failed_to_link_person = [])) as [Hf|Hf].
      + rewrite (set_exit_code_ok s2 Hs Hf) in Hexit. simplify_eq.
        eexists. split; [reflexivity|]. split; [by repeat constructor|].
        split; [done|]. split; [|done]. constructor; [by right|constructor].
      + destruct (set_exit_code_failed_to_link s2 Hs Hf) as (header & Hh & Heq).
        rewrite Heq in Hexit. simplify_eq.
        eexists. split; [reflexivity|]. split.
        { constructor; [done|]. by apply no_results_warnings. }
        split; [done|]. split; [|done].
        constructor; [by left|]. apply Forall_fmap, Forall_forall. intros k _. by left.
    - destruct (set_exit_code_skipped s2 Hs) as (header & Hh & Heq).
      rewrite Heq in Hexit. simplify_eq.
      eexists. split; [reflexivity|]. split.
      { constructor; [done|]. by apply no_results_warnings. }
      split; [done|]. split; [|done].
      constructor; [by left|]. apply Forall_fmap, Forall_forall. intros k _. by left. }
  exists before, after. split_and!; try done.
  rewrite Hafter, Hsame. unfold s2. cbn [log]. rewrite Hbefore. by rewrite <- !app_assoc.
Qed.

Lemma no_results_emitted (n : nat) (l : list log_record) :
  no_results l → filter (λ r, is_results_record r = true) (Logging.emitted n l) = [].
Proof.
  unfold no_results, Logging.emitted. induction 1 as [|r l Hr _ IH]; [done|].
  rewrite filter_cons. case_decide; [|done].
  rewrite filter_cons. case_decide; [congruence|done].
Qed.

(** X16.  The level of the root logger is the value of LOG_LEVEL, and INFO
    when the variable is not set; a value that is no level name ends the
    script with [ValueError] (whose text ends with the [repr] of the value)
    before anything else.  The results record is
    logged at level INFO: in a run that reaches the exit section it reaches
    the stream, once, exactly when the root level is at most INFO (so with
    LOG_LEVEL unset, INFO, DEBUG or NOTSET), and not at all under WARNING,
    ERROR or CRITICAL.  The warnings of the exit section are still printed
    under WARNING: when the run ends with the data-error status they are the
    last records of the stream. *)
Theorem results_record_needs_info_level (json : list exclude) (w : World R)
    (s' : state) (code : Z) :
  main R order today json (initial R w) = (Ok code, s') →
  Logging.basicConfig (Logging.log_level ∅) = Ok (Logging.levelno INFO)
  ∧ (∀ (environ : gmap string string) (value : string),
       environ !! "LOG_LEVEL" = Some value →
       Logging.basicConfig (Logging.log_level environ)
       = match Logging.nameToLevel value with
         | Some n => Ok n
         | None => Raise (Exn ValueError ("Unknown level: " +:+ repr value))
         end)
  ∧ (∀ n : nat,
       filter (λ r, is_results_record r = true) (Logging.emitted n (log s'))
       = if decide (n ≤ Logging.levelno INFO)%nat
         then [LogRecord INFO (results_message (buckets s'))] else [])
  ∧ (code = EX_DATAERR →
     ∃ (printed after : list log_record),
       after ≠ []
       ∧ Forall (λ r, levelname r = WARNING) after
       ∧ log s' = printed ++ LogRecord INFO (results_message (buckets s')) :: after
       ∧ Logging.emitted (Logging.levelno WARNING) (log s')
         = Logging.emitted (Logging.levelno WARNING) printed ++ after).
Proof.
  intros Hmain.
  destruct (main_log json _ _ _ Hmain) as (before & after & Hlog & Hnb & Hna & Hlv & Hne).
  cbn [initial log app] in Hlog.
  split_and!.
  - reflexivity.
  - intros environ value Hv. unfold Logging.log_level, Logging.environ_get.
    rewrite Hv. reflexivity.
  - intros n. rewrite Hlog, emitted_app, filter_app, (no_results_emitted n before Hnb).
    change (LogRecord INFO (results_message (buckets s')) :: after)
      with ([LogRecord INFO (results_message (buckets s'))] ++ after).
    rewrite emitted_app, filter_app, (no_results_emitted n after Hna), app_nil_r.
    unfold Logging.emitted. rewrite filter_cons, filter_nil. simpl.
    destruct (decide (n ≤ 20)%nat) as [Hn|Hn].
    + rewrite filter_cons, filter_nil. by rewrite decide_True by reflexivity.
    + done.
  - intros Hcode. exists before, after.
    assert (Forall (λ r, levelname r = WARNING) after) as Hw.
    { eapply Forall_impl; [exact Hlv|]. intros r [?|?]; [done|].
      subst code. discriminate. }
    split_and!; [by apply Hne|done|done|].
    rewrite Hlog, emitted_app.
    change (LogRecord INFO (results_message (buckets s')) :: after)
      with ([LogRecord INFO (results_message (buckets s'))] ++ after).
    rewrite emitted_app, (emitted_below _ [_]), (emitted_above _ after); [done| |].
    + eapply Forall_impl; [exact Hw|]. intros r ->. simpl. lia.
    + repeat constructor.
Qed.

End Properties.

(** * Runs on concrete data *)

#[local] Existing Instance Sim.python.

(** The account of d36616b exists but is invisible: the insert is skipped and
    the run ends with the data-error status. *)
Lemma exit_status_policy_witness :
  Sim.run [] Scenario.hidden_account = (Ok 65, (Sim.run [] Scenario.hidden_account).2)
  ∧ (65 = EX_DATAERR
     ↔ buckets (Sim.run [] Scenario.hidden_account).2 inserts_skipped ≠ []
       ∨ buckets (Sim.run [] Scenario.hidden_account).2 inserts_failed_to_link_person ≠ []).
Proof.
  assert (Sim.run [] Scenario.hidden_account
          = (Ok 65, (Sim.run [] Scenario.hidden_account).2)) as Hrun
    by (vm_compute; reflexivity).
  split; [exact Hrun|].
  exact (proj1 (exit_status_policy Sim.remote elements_order Sim.run_date [] _ _ _ Hrun)).
Defined.

(** The same text raised by an exception that is not an [HTTPError] sends the
    key to [inserts_failed]; raised by the save of the updates loop, as an
    [HTTPError], it sends the key to [updates_failed]. *)
Lemma not_unique_classified_failed :
  Str.contains "not unique" Scenario.not_unique = true
  ∧ Sim.create_errors Scenario.hidden_account_generic
    = [("d36616b", Exn OtherException Scenario.not_unique)]
  ∧ buckets (Sim.run [] Scenario.hidden_account_generic).2 inserts_skipped = []
  ∧ buckets (Sim.run [] Scenario.hidden_account_generic).2 inserts_failed = ["d36616b"]
  ∧ Sim.save_errors Scenario.stale_name = [("b2", Exn HTTPError Scenario.not_unique)]
  ∧ buckets (Sim.run [] Scenario.stale_name).2 inserts_skipped = []
  ∧ buckets (Sim.run [] Scenario.stale_name).2 updates_failed = ["b2"].
Proof. vm_compute. by repeat split. Qed.

Lemma failure_classification_witness :
  let s := initial Sim.remote Scenario.hidden_account in
  let S' := dict_comp netid (Sim.people Scenario.hidden_account) in
  let e := Exn HTTPError Scenario.not_unique in
  let try_ := insert_try Sim.remote Sim.run_date S' Sim.requestors "d36616b" in
  try_ s = (Raise e, (try_ s).2)
  ∧ appended_to inserts_skipped "d36616b" (try_ s).2
      (try_except Sim.remote try_
         (insert_except_HTTPError Sim.remote "d36616b")
         (insert_except_Exception Sim.remote "d36616b") s).2.
Proof.
  intros s S' e try_.
  assert (try_ s = (Raise e, (try_ s).2)) as Htry by (vm_compute; reflexivity).
  split; [exact Htry|].
  exact (proj1 (failure_classification Sim.remote Sim.run_date "d36616b" e)
           S' Sim.requestors s _ Htry).
Defined.

(** On the campus data the four sections complete: the updates loop runs
    between the second fetch and the deactivates section. *)
Lemma reconciler_insert_update_witness :
  let run := Sim.run_passes [] Scenario.campus in
  run = (Ok tt, run.2)
  ∧ ∃ (people people' : list person) (accounts accounts' : list Account.t)
      (s2' s3 s4 : state Sim.remote),
      let S := dict_comp netid people in
      let T' := dict_comp account_key accounts' in
      (∀ k, k ∈ inserts (dict_comp netid (filter eligible people'))
                  (dict_comp account_key accounts)
            ↔ (∃ p, p ∈ people' ∧ eligible p ∧ netid p = k)
              ∧ ¬ ∃ a, a ∈ accounts ∧ str_lower (Account.Accountname a) = k)
      ∧ (∀ k, k ∈ updates T' S
              ↔ (∃ a, a ∈ accounts' ∧ str_lower (Account.Accountname a) = k)
                ∧ ∃ p, p ∈ people ∧ netid p = k)
      ∧ for_each Sim.remote (elements_order (updates T' S)) (update_body Sim.remote S) s2'
        = (Ok tt, s3)
      ∧ calls s3
        = calls s2'
          ++ omap (λ k, Call_Account_save <$> (T' !! k ≫= update_of S k))
               (elements_order (updates T' S))
      ∧ deactivates_section Sim.remote elements_order Sim.run_date S (load_excludes []) s3
        = (Ok tt, s4)
      ∧ pwd_expires_section Sim.remote elements_order s4 = (Ok tt, run.2).
Proof.
  intros run.
  assert (run = (Ok tt, run.2)) as Hrun by (vm_compute; reflexivity).
  split; [exact Hrun|].
  destruct (reconciler_insert_update Sim.remote elements_order Sim.run_date [] _ _ Hrun)
    as (people & people' & groups & accounts & accounts' & group & w1 & w2 & w3
        & s1 & s2 & s2' & s3 & s4 & ci
        & _ & _ & _ & _ & _ & _ & Hins & _ & _ & _ & _ & _ & _ & Hupd & Hloop & Hcu
        & _ & _ & Hdea & Hpwd).
  exists people, people', accounts, accounts', s2', s3, s4.
  split; [exact Hins|]. split; [exact Hupd|]. split; [exact Hloop|].
  split; [exact Hcu|]. split; [exact Hdea|exact Hpwd].
Defined.

(** c3 has left the roster, but the exclusion file names it: it is not in
    ToDeactivate and its account object keeps its state. *)
Lemma exclusions_never_deactivated_witness :
  let S := Sim.roster Scenario.excluded in
  let E := load_excludes Scenario.excludes_json in
  let s := Sim.snapshot Scenario.excluded in
  let run := Sim.run_passes Scenario.excludes_json Scenario.excluded in
  "c3" ∈ dom E
  ∧ "c3" ∈ dom (planon_accounts s) ∖ dom S
  ∧ ("c3" ∉ deactivates (planon_accounts s) S E)
  ∧ planon_accounts (deactivates_section Sim.remote elements_order Sim.run_date S E s).2
      !! "c3"
    = Some Scenario.carol_account
  ∧ run = (Ok tt, run.2)
  ∧ ∃ accounts' : list Account.t,
      Account.EndDate <$> (planon_accounts run.2 !! "c3")
      = Account.EndDate <$> (dict_comp account_key accounts' !! "c3").
Proof.
  intros S E s run.
  assert ("c3" ∈ dom E) as HE by (apply (bool_decide_unpack _); vm_compute; exact I).
  assert (run = (Ok tt, run.2)) as Hrun by (vm_compute; reflexivity).
  split; [exact HE|].
  split; [apply (bool_decide_unpack _); vm_compute; exact I|].
  destruct (exclusions_never_deactivated Sim.remote elements_order Sim.run_date)
    as [Hsection Hwhole].
  destruct (Hsection S E s) as (_ & _ & _ & _ & _ & Hex).
  destruct (Hex "c3" HE) as [Hnot Hkeep].
  split; [exact Hnot|].
  split; [rewrite Hkeep; vm_compute; reflexivity|].
  split; [exact Hrun|].
  destruct (Hwhole Scenario.excludes_json _ _ Hrun) as (s2 & accounts' & w & _ & Hend).
  exists accounts'. exact (Hend "c3" HE).
Defined.

(** The updates loop handles b2, whose display name is already right, and
    puts it on no list. *)
Lemma update_without_outcome :
  let S := Sim.roster Scenario.campus in
  let s := Sim.snapshot Scenario.campus in
  "b2" ∈ updates (planon_accounts s) S
  ∧ (∀ b, buckets (update_body Sim.remote S "b2" s).2 b = [])
  ∧ (Sim.run [] Scenario.campus).1 = Ok 0
  ∧ log (Sim.run [] Scenario.campus).2 !! 16%nat
    = Some (LogRecord DEBUG "Displayname Bob Cratchit matches for B2, no update required")
  ∧ ∀ b, bool_decide ("b2" ∈ buckets (Sim.run [] Scenario.campus).2 b) = false.
Proof.
  intros S s. split_and!.
  - apply (bool_decide_unpack _). vm_compute. exact I.
  - intros b. vm_compute. reflexivity.
  - vm_compute. reflexivity.
  - vm_compute. reflexivity.
  - intros []; vm_compute; reflexivity.
Qed.

(** The stale name of b2 is set, the save raises, and b2 goes to
    [updates_failed] and to no other list. *)
Lemma one_outcome_per_key_witness :
  let S := Sim.roster Scenario.stale_name in
  let s := Sim.snapshot Scenario.stale_name in
  let a := Account.Make "b2" (Some "Robert Cratchit") None true 1 in
  S !! "b2" = Some Scenario.bob
  ∧ planon_accounts s !! "b2" = Some a
  ∧ appended_to updates_failed "b2" s (update_body Sim.remote S "b2" s).2.
Proof.
  intros S s a.
  assert (S !! "b2" = Some Scenario.bob) as Hp by (vm_compute; reflexivity).
  assert (planon_accounts s !! "b2" = Some a) as Ha by (vm_compute; reflexivity).
  split; [exact Hp|]. split; [exact Ha|].
  destruct (one_outcome_per_key Sim.remote elements_order Sim.run_date)
    as (_ & _ & _ & _ & Hupd & _).
  exact (Hupd S "b2" s Scenario.bob a Hp Ha).
Defined.

(** The display name of b2 already matches: no call, no change. *)
Lemma update_only_when_names_differ_witness :
  let S := Sim.roster Scenario.campus in
  let s := Sim.snapshot Scenario.campus in
  let r := update_body Sim.remote S "b2" s in
  S !! "b2" = Some Scenario.bob
  ∧ planon_accounts s !! "b2" = Some Scenario.bob_account
  ∧ calls r.2 = calls s ∧ world r.2 = world s
  ∧ planon_accounts r.2 = planon_accounts s ∧ same_buckets s r.2.
Proof.
  intros S s r.
  assert (S !! "b2" = Some Scenario.bob) as Hp by (vm_compute; reflexivity).
  assert (planon_accounts s !! "b2" = Some Scenario.bob_account) as Ha
    by (vm_compute; reflexivity).
  split; [exact Hp|]. split; [exact Ha|].
  destruct (update_only_when_names_differ Sim.remote elements_order S s) as [Hbody _].
  exact (proj2 (Hbody "b2" Scenario.bob Scenario.bob_account Hp Ha)).
Defined.

(** a1 is on the roster and has no account; a person record exists for it:
    the four calls of the insert action. *)
Lemma insert_action_witness :
  let S' := Sim.roster Scenario.campus in
  let s := Sim.snapshot Scenario.campus in
  let values := Account.Values "a1" "Alice Liddell" "2024-05-17" true in
  "a1" ∈ inserts S' (planon_accounts s)
  ∧ calls (insert_body Sim.remote Sim.run_date S' Sim.requestors "a1" s).2
    = [Call_Account_create values;
       Call_AccountAccountGroup_create (AccountAccountGroup.Values 7 10);
       Call_UsrPerson_find [("FreeString7", eq_str "a1")];
       Call_AccountPerson_create (AccountPerson.Values 40 10)].
Proof.
  intros S' s values.
  assert ("a1" ∈ inserts S' (planon_accounts s)) as Hk
    by (apply (bool_decide_unpack _); vm_compute; exact I).
  split; [exact Hk|].
  destruct (insert_action Sim.remote elements_order Sim.run_date S' (planon_accounts s)
              Sim.requestors "a1" s Hk) as [(p & Hp & Hcalls) _].
  assert (p = Scenario.alice) as ->.
  { assert (S' !! "a1" = Some Scenario.alice) as Hp' by (vm_compute; reflexivity).
    rewrite Hp' in Hp. by injection Hp. }
  exact (proj1 Hcalls).
Defined.

(** n9 becomes visible in Planon after the second account query: the
    password query returns it, the snapshot does not hold it, and the run
    saves nothing for it. *)
Lemma password_key_outside_snapshot_not_saved :
  let R := Race.remote [Edge.new_hire] in
  let run := main R elements_order Sim.run_date [] (initial R Edge.settled) in
  Account.EndDate Edge.new_hire = None
  ∧ Account.PasswordNeverExpires Edge.new_hire = false
  ∧ Account_find R account_filter_pwd Edge.settled
    = (Ok [Edge.new_hire], Race.arrive [Edge.new_hire] Edge.settled)
  ∧ "n9" ∈ pwd_expires (dict_comp account_key [Edge.new_hire])
  ∧ run.1 = Ok 0
  ∧ calls run.2
    = [Call_get_people; Call_get_people; Call_AccountGroup_find;
       Call_Account_find account_filter; Call_Account_find account_filter;
       Call_Account_find account_filter_pwd]
  ∧ Sim.accounts (world run.2)
    = [Account.Make "b2" (Some "Bob Cratchit") None true 1; Edge.new_hire]
  ∧ buckets run.2 pwd_expire_succeeded = []
  ∧ buckets run.2 pwd_expire_failed = ["n9"].
Proof.
  intros R run. split_and!.
  4: by apply (bool_decide_unpack _).
  all: vm_compute; reflexivity.
Qed.

(** The password of b2 expires: the section asks Planon for such accounts,
    sets the flag on the account object of b2 and saves it. *)
Lemma normalize_password_flag_witness :
  let s := Sim.snapshot Scenario.expiring in
  let a := Account.Make "b2" (Some "Bob Cratchit") None false 1 in
  let r := pwd_expires_section Sim.remote elements_order s in
  Account_find Sim.remote
    [("EndDate", exists_ false); ("PasswordNeverExpires", eq_bool false)] (world s)
  = (Ok [a], Scenario.expiring)
  ∧ planon_accounts s !! "b2" = Some a
  ∧ r.1 = Ok tt
  ∧ planon_accounts r.2 !! "b2"
    = Some (Account.Make "b2" (Some "Bob Cratchit") None true 1)
  ∧ Call_Account_save (Account.Make "b2" (Some "Bob Cratchit") None true 1) ∈ calls r.2.
Proof.
  intros s a r.
  assert (Account_find Sim.remote
            [("EndDate", exists_ false); ("PasswordNeverExpires", eq_bool false)]
            (world s)
          = (Ok [a], Scenario.expiring)) as Hfind by (vm_compute; reflexivity).
  assert (planon_accounts s !! "b2" = Some a) as Ha by (vm_compute; reflexivity).
  split; [exact Hfind|]. split; [exact Ha|].
  destruct (normalize_password_flag Sim.remote elements_order s [a] _ Hfind)
    as (HP & _ & Hok & _ & Hflag & _).
  split; [exact Hok|].
  assert ("b2" ∈ pwd_expires (dict_comp account_key [a])) as Hk.
  { apply HP. exists a. split; [by left|]. vm_compute. reflexivity. }
  exact (Hflag "b2" a Hk Ha).
Defined.

(** Two runs with the same results record: in one of them a key was
    skipped, in the other none. *)
Lemma results_record_without_skipped :
  let s1 := (Sim.run [] Scenario.hidden_account).2 in
  let s2 := (Sim.run [] Scenario.empty).2 in
  buckets s1 inserts_skipped = ["d36616b"]
  ∧ buckets s2 inserts_skipped = []
  ∧ results_message (buckets s1) = results_message (buckets s2)
  ∧ filter (λ r, is_results_record r = true) (log s1)
    = [LogRecord INFO (results_message (buckets s1))]
  ∧ filter (λ r, is_results_record r = true) (log s2)
    = [LogRecord INFO (results_message (buckets s1))].
Proof. vm_compute. by repeat split. Qed.

(** On the campus data the results record is logged once, after the four
    sections. *)
Lemma results_record_once_witness :
  Sim.run [] Scenario.campus = (Ok 0, (Sim.run [] Scenario.campus).2)
  ∧ ∃ (s1 : state Sim.remote) (before after : list log_record),
      log (Sim.run [] Scenario.campus).2
      = before ++ LogRecord INFO (results_message (buckets s1)) :: after
      ∧ no_results before ∧ no_results after.
Proof.
  assert (Sim.run [] Scenario.campus = (Ok 0, (Sim.run [] Scenario.campus).2)) as Hrun
    by (vm_compute; reflexivity).
  split; [exact Hrun|].
  destruct (results_record_once Sim.remote elements_order Sim.run_date [] _ _ _ Hrun)
    as [(s1 & before & after & _ & _ & Hlog & _ & Hb & Ha & _) _].
  exists s1, before, after. split; [exact Hlog|]. split; [exact Hb|exact Ha].
Defined.

(** A service account with an upper-case netid is not in ToInsert (and not
    in ToUpdate either): the account SVC1, held under svc1, is deactivated. *)
Lemma upper_case_service_netid_not_inserted :
  let p := Person "SVC1" "Facilities" "Facilities Desk" "SERVICE" in
  let accounts := [Account.Make "SVC1" (Some "Facilities Desk") None true 1] in
  Sim.people Scenario.service = [p]
  ∧ Sim.accounts Scenario.service = accounts
  ∧ Str.has_ascii_upper (netid p) = true
  ∧ (netid p ∉ inserts (dict_comp netid (filter eligible [p]))
                       (dict_comp account_key accounts))
  ∧ (netid p ∉ updates (dict_comp account_key accounts) (dict_comp netid [p]))
  ∧ deactivates (dict_comp account_key accounts) (dict_comp netid [p]) ∅ = {["svc1"]}
  ∧ calls (Sim.run [] Scenario.service).2
    = [Call_get_people; Call_get_people; Call_AccountGroup_find;
       Call_Account_find account_filter; Call_Account_find account_filter;
       Call_Account_save
         (Account.Make "SVC1" (Some "Facilities Desk") (Some Sim.run_date) true 1);
       Call_Account_find account_filter_pwd].
Proof.
  intros p accounts. split_and!.
  - reflexivity.
  - reflexivity.
  - reflexivity.
  - apply (bool_decide_unpack _). vm_compute. exact I.
  - apply (bool_decide_unpack _). vm_compute. exact I.
  - apply (bool_decide_unpack _). vm_compute. exact I.
  - vm_compute. reflexivity.
Qed.

(** An eligible person with the netid B2 is in ToInsert although the account
    b2 exists; the exclusion entry C3 does not protect the account c3. *)
Lemma one_sided_case_normalization_witness :
  let p := Person "B2" "Bob" "Bob Cratchit" "STAFF" in
  let accounts := [Account.Make "b2" (Some "Bob Cratchit") None true 1; Scenario.carol_account] in
  let json := [Exclude "C3" []] in
  p ∈ [p] ∧ eligible p ∧ Str.has_ascii_upper (netid p) = true
  ∧ netid p ∈ inserts (dict_comp netid (filter eligible [p]))
                      (dict_comp account_key accounts)
  ∧ deactivates (dict_comp account_key accounts) (dict_comp netid [p])
                (load_excludes json)
    = deactivates (dict_comp account_key accounts) (dict_comp netid [p])
                  (delete "C3" (load_excludes json)).
Proof.
  intros p accounts json.
  assert (p ∈ [p]) as Hin by (by left).
  assert (eligible p) as He by (apply (bool_decide_unpack _); vm_compute; exact I).
  assert (Str.has_ascii_upper (netid p) = true) as Hup by reflexivity.
  split; [exact Hin|]. split; [exact He|]. split; [exact Hup|].
  destruct (one_sided_case_normalization [p] [p] accounts json)
    as (_ & _ & _ & Hnever & _ & Hins & Hdea).
  split; [exact (Hins p Hin He (Hnever _ Hup))|].
  apply (Hdea (Exclude "C3" [])); [by left|]. apply Hnever. reflexivity.
Defined.

(** ** Runs for the further properties *)

(** The account SVC1 is saved with its end date, and the key is put on both
    lists of the deactivates loop. *)
Lemma deactivates_failed_holds_every_key_witness :
  let s := Sim.snapshot Scenario.service in
  let a := Account.Make "SVC1" (Some "Facilities Desk") None true 1 in
  let r1 := deactivate_body Sim.remote Sim.run_date "svc1" s in
  planon_accounts s !! "svc1" = Some a
  ∧ Account_save Sim.remote (Account.set_EndDate (Some Sim.run_date) a) (world s)
    = (Ok (Account.set_EndDate (Some Sim.run_date) a),
       (Account_save Sim.remote (Account.set_EndDate (Some Sim.run_date) a) (world s)).2)
  ∧ buckets r1.2 deactivates_succeeded = ["svc1"]
  ∧ buckets r1.2 deactivates_failed = ["svc1"].
Proof.
  intros s a r1.
  assert (planon_accounts s !! "svc1" = Some a) as Ha by (vm_compute; reflexivity).
  assert (Account_save Sim.remote (Account.set_EndDate (Some Sim.run_date) a) (world s)
          = (Ok (Account.set_EndDate (Some Sim.run_date) a),
             (Account_save Sim.remote (Account.set_EndDate (Some Sim.run_date) a)
                (world s)).2)) as Hsave by (vm_compute; reflexivity).
  split; [exact Ha|]. split; [exact Hsave|].
  destruct (deactivates_failed_holds_every_key Sim.remote elements_order Sim.run_date
              (Sim.roster Scenario.service) ∅ s) as (_ & _ & _ & _ & Hboth).
  destruct (Hboth "svc1" a _ _ s Ha Hsave) as (Hs & Hf & _).
  split; [exact Hs|exact Hf].
Defined.

(** Of the two accounts B2 and b2 the snapshot holds the second. *)
Lemma comprehension_last_wins_witness :
  dict_comp account_key (Sim.accounts Edge.doubles) !! "b2"
  = Some (Account.Make "b2" (Some "Shared Mailbox") None true 2)
  ∧ size (dict_comp account_key (Sim.accounts Edge.doubles)) = 1%nat.
Proof.
  destruct (comprehension_last_wins account_key (Sim.accounts Edge.doubles))
    as (Hlast & Hsize & _).
  split; [rewrite Hlast|rewrite Hsize]; vm_compute; reflexivity.
Defined.

(** Planon lists only the administrators group: the run ends with the
    [KeyError] after three reads. *)
Lemma requestor_group_missing_witness :
  ∃ s', Sim.run [] Edge.no_requestors = (Raise (Exn KeyError "'DC - Requestors'"), s')
        ∧ calls s' = [Call_get_people; Call_get_people; Call_AccountGroup_find].
Proof.
  destruct (requestor_group_missing Sim.remote elements_order Sim.run_date []
              (initial Sim.remote Edge.no_requestors)
              [Scenario.alice] [Scenario.alice] [AccountGroup.Make "DC - Administrators" 3]
              Edge.no_requestors Edge.no_requestors Edge.no_requestors
              eq_refl eq_refl eq_refl)
    as (s' & Hrun & _ & Hcalls & _).
  { intros g Hg. apply list_elem_of_singleton in Hg as ->. discriminate. }
  exists s'. split; [exact Hrun|exact Hcalls].
Defined.

Lemma only_reads_end_the_run_witness :
  let e := Exn KeyError "'DC - Requestors'" in
  let run := Sim.run [] Edge.no_requestors in
  run = (Raise e, run.2)
  ∧ ((e = Exn KeyError "'DC - Requestors'"
      ∧ ∃ before, calls run.2 = before ++ [Call_AccountGroup_find])
     ∨ ended_by_read e run.2).
Proof.
  intros e run.
  assert (run = (Raise e, run.2)) as Hrun by (vm_compute; reflexivity).
  split; [exact Hrun|].
  exact (only_reads_end_the_run Sim.remote elements_order Sim.run_date [] _ _ _ Hrun).
Defined.


(** b2 has a stale display name: the loop leaves the name of the roster on
    the account object. *)
Lemma updates_loop_saves_stale_names_witness :
  let S := Sim.roster Scenario.stale_name in
  let s := Sim.snapshot Scenario.stale_name in
  let a := Account.Make "b2" (Some "Robert Cratchit") None true 1 in
  "b2" ∈ updates (planon_accounts s) S
  ∧ planon_accounts (updates_loop Sim.remote elements_order S s).2 !! "b2"
    = Some (Account.Make "b2" (Some "Bob Cratchit") None true 1).
Proof.
  intros S s a.
  assert ("b2" ∈ updates (planon_accounts s) S) as Hk
    by (apply (bool_decide_unpack _); vm_compute; exact I).
  split; [exact Hk|].
  destruct (updates_loop_saves_stale_names Sim.remote elements_order S s)
    as (_ & _ & Hin & _).
  exact (Hin "b2" Scenario.bob a Hk eq_refl eq_refl).
Defined.

(** The save of c3 with its end date fails; Planon still lists c3 among the
    accounts whose password expires, and the save of the pwd_expires loop
    sends the end date along. *)
Lemma later_saves_carry_earlier_changes_witness :
  let S := Sim.roster Edge.leaver in
  let s := Sim.snapshot Edge.leaver in
  let s3 := (updates_loop Sim.remote elements_order S s).2 in
  let s4 := (deactivates_section Sim.remote elements_order Sim.run_date S ∅ s3).2 in
  let r := pwd_expires_section Sim.remote elements_order s4 in
  Account_find Sim.remote account_filter_pwd (world s4)
  = (Ok [Scenario.carol_account], Edge.leaver)
  ∧ "c3" ∈ deactivates (planon_accounts s) S ∅
  ∧ Call_Account_save (Account.Make "c3" (Some "Carol Kane") (Some Sim.run_date) true 2)
    ∈ calls r.2.
Proof.
  intros S s s3 s4 r.
  assert (Account_find Sim.remote account_filter_pwd (world s4)
          = (Ok [Scenario.carol_account], Edge.leaver)) as Hfind
    by (vm_compute; reflexivity).
  assert ("c3" ∈ deactivates (planon_accounts s) S ∅) as HkD
    by (apply (bool_decide_unpack _); vm_compute; exact I).
  assert ("c3" ∈ pwd_expires (dict_comp account_key [Scenario.carol_account])) as HkP
    by (apply (bool_decide_unpack _); vm_compute; exact I).
  split; [exact Hfind|]. split; [exact HkD|].
  destruct (later_saves_carry_earlier_changes Sim.remote elements_order Sim.run_date
              S ∅ s [Scenario.carol_account] Edge.leaver Hfind
              "c3" Scenario.carol_account HkP eq_refl) as (_ & Hdea & _).
  exact (Hdea HkD).
Defined.

(** The account b2 appears in the password query of a script whose snapshot
    does not hold it. *)
Lemma pwd_keys_outside_the_snapshot_witness :
  let s := initial Sim.remote Scenario.expiring in
  let a := Account.Make "b2" (Some "Bob Cratchit") None false 1 in
  let r := pwd_expires_section Sim.remote elements_order s in
  Account_find Sim.remote account_filter_pwd (world s) = (Ok [a], Scenario.expiring)
  ∧ planon_accounts s !! "b2" = None
  ∧ "b2" ∈ buckets r.2 pwd_expire_failed
  ∧ ("b2" ∉ buckets r.2 pwd_expire_succeeded)
  ∧ planon_accounts r.2 !! "b2" = None.
Proof.
  intros s a r.
  assert (Account_find Sim.remote account_filter_pwd (world s)
          = (Ok [a], Scenario.expiring)) as Hfind by (vm_compute; reflexivity).
  assert ("b2" ∈ pwd_expires (dict_comp account_key [a])) as HkP
    by (apply (bool_decide_unpack _); vm_compute; exact I).
  split; [exact Hfind|]. split; [reflexivity|].
  destruct (pwd_keys_outside_the_snapshot Sim.remote elements_order s [a] _ Hfind)
    as (Hmissing & _).
  exact (Hmissing "b2" HkP eq_refl).
Defined.


(** The netid b2 and the account B2. *)
Lemma roster_member_with_lower_case_netid_is_kept_witness :
  let people := Sim.people Scenario.campus in
  let accounts := Sim.accounts Scenario.campus in
  let S := dict_comp netid people in
  let S' := dict_comp netid (filter eligible people) in
  let T := dict_comp account_key accounts in
  Scenario.bob ∈ people ∧ Scenario.bob_account ∈ accounts
  ∧ Account.Accountname Scenario.bob_account = "B2" ∧ netid Scenario.bob = "b2"
  ∧ "b2" ∈ updates T S ∧ ("b2" ∉ inserts S' T) ∧ ("b2" ∉ deactivates T S ∅).
Proof.
  intros people accounts S S' T.
  assert (Scenario.bob ∈ people) as Hp by (right; left).
  assert (Scenario.bob_account ∈ accounts) as Ha by left.
  split; [exact Hp|]. split; [exact Ha|]. split; [reflexivity|]. split; [reflexivity|].
  exact (proj2 (roster_member_with_lower_case_netid_is_kept people people accounts [])
           Scenario.bob Scenario.bob_account Hp Ha eq_refl eq_refl).
Defined.

(** a1 is in ToInsert on the campus data. *)
Lemma inserted_keys_are_not_deactivated_witness :
  let people := Sim.people Scenario.campus in
  let S := dict_comp netid people in
  let S' := dict_comp netid (filter eligible people) in
  let T1 := dict_comp account_key (Sim.accounts Scenario.campus) in
  "a1" ∈ inserts S' T1
  ∧ ∀ T2 E, ("a1" ∉ deactivates T2 S E) ∧ ("a1" ∈ dom T2 → "a1" ∈ updates T2 S).
Proof.
  intros people S S' T1.
  assert ("a1" ∈ inserts S' T1) as Hk
    by (apply (bool_decide_unpack _); vm_compute; exact I).
  split; [exact Hk|]. intros T2 E.
  exact (proj2 (inserted_keys_are_not_deactivated people T1 T2 E "a1" Hk)).
Defined.

(** The HTTP 422 of the comment in the inserts loop is skipped. *)
Lemma insert_failures_by_substring_witness :
  insert_category (Exn HTTPError Scenario.not_unique) = inserts_skipped.
Proof.
  apply (proj1 (insert_failures_by_substring Sim.remote
                  (Exn HTTPError Scenario.not_unique))).
  split; [reflexivity|].
  by exists "The User name field with value D36616B on Users is ", ".".
Defined.

(** Saving b2 fails: the record of the failure is at level INFO. *)
Lemma update_failures_are_logged_at_info_witness :
  let S := Sim.roster Scenario.stale_name in
  let s := Sim.snapshot Scenario.stale_name in
  let e := Exn HTTPError Scenario.not_unique in
  update_try Sim.remote S "b2" s = (Raise e, (update_try Sim.remote S "b2" s).2)
  ∧ log (update_body Sim.remote S "b2" s).2
    = [LogRecord INFO ("Failed to find the linked person for  b2 exception "
                       +:+ Scenario.not_unique)].
Proof.
  intros S s e.
  assert (update_try Sim.remote S "b2" s = (Raise e, (update_try Sim.remote S "b2" s).2))
    as Htry by (vm_compute; reflexivity).
  split; [exact Htry|].
  destruct (update_failures_are_logged_at_info Sim.remote elements_order Sim.run_date S)
    as (_ & _ & Hupd & _).
  exact (Hupd "b2" e s _ Htry).
Defined.

(** The run that skips d36616b: under a root level of WARNING the results
    record is not printed and the warnings of the exit section are. *)
Lemma results_record_needs_info_level_witness :
  let run := Sim.run [] Scenario.hidden_account in
  run = (Ok 65, run.2)
  ∧ filter (λ r, is_results_record r = true)
      (Logging.emitted (Logging.levelno WARNING) (log run.2)) = []
  ∧ filter (λ r, is_results_record r = true)
      (Logging.emitted (Logging.levelno INFO) (log run.2))
    = [LogRecord INFO (results_message (buckets run.2))].
Proof.
  intros run.
  assert (run = (Ok 65, run.2)) as Hrun by (vm_compute; reflexivity).
  split; [exact Hrun|].
  pose proof (@results_record_needs_info_level Sim.python Sim.remote elements_order
                Sim.run_date [] Scenario.hidden_account (snd run) 65%Z Hrun) as H.
  destruct H as (_ & _ & Hprinted & _).
  pose proof (Hprinted 30%nat) as H30.
  pose proof (Hprinted 20%nat) as H20.
  split; [exact H30|exact H20].
Defined.
